(** * deploy-node-app: the file reconciliation engine

    A shallow embedding of the write / merge / rollback code of
    deploy-node-app:

    - [Util]   : [confirmWriteFile], [mkdir] and [cleanupWrittenFiles] of
                 the utility module that keeps the [filesWritten] /
                 [dirsWritten] ledgers;
    - [Lodash] : the deep merge applied to a parsed template and its
                 property overlay;
    - [Deploy] : the template-aware [confirmWriteFile] closure of
                 [deployNodeApp] ([overwrite], [prompts], [silence],
                 per-call [output]);
    - [Deploy2]: the earlier [confirmWriteFile] closure, which copies a
                 [copySource] instead of rendering a template;
    - [Cli], [UtilOld], [Kustomize], [Manifests]: the [--label] option,
                 the utility module before the ledgers,
                 [buildKustomize] and the manifest builders.

    The Node.js runtime pieces the code calls ([fs], [path], [mkdirp],
    [inquirer], lodash [merge]) are modelled in [JsString], [NodePath],
    [Fs], [Js] and [Lodash]; everything else follows the JavaScript
    text.  A prompt is answered from a list of answers still to come; a
    call that reaches a prompt with no answer left is [Pending].

    The properties come after the definitions: rollback safety
    ([RollbackSafety]), rollback and failing deletions
    ([RollbackErrors]), directory provisioning ([MkdirFacts]), how far
    rollback climbs ([RollbackReach]), reconciliation ([ReconcileFacts],
    [ReconcileClaims], [DeployClaims]) and the merge ([MergeFacts]);
    then the ledgers over a run ([LedgerFacts], [PolicyFacts],
    [RollbackMore]), provisioning followed by rollback ([RoundTrip],
    [RoundTripRel]), the walk over a path as it was recorded
    ([RollbackClimb]), the two closures ([DeployMore], [Deploy2More]),
    the merge again ([MergeMore]), and the code added above
    ([CliFacts], [UtilOldFacts], [KustomizeFacts], [ManifestFacts]). *)

From stdpp Require Import gmap strings list fin_maps.
From Stdlib Require Import Ascii String DecimalString.

Open Scope string_scope.

(* ===================================================================== *)
(** ** JavaScript string primitives used by the code *)
(* ===================================================================== *)

Module JsString.

(** [s.split(sep)] for a one-character separator. *)
Fixpoint split (sep : ascii) (s : string) : list string :=
  match s with
  | EmptyString => [EmptyString]
  | String c r =>
      if Ascii.eqb c sep then EmptyString :: split sep r
      else match split sep r with
           | [] => [String c EmptyString]
           | h :: t => String c h :: t
           end
  end.

(** [parts.join(sep)]. *)
Fixpoint join (sep : string) (parts : list string) : string :=
  match parts with
  | [] => EmptyString
  | [x] => x
  | x :: rest => x +:+ sep +:+ join sep rest
  end.

(** [s.startsWith(p)]. *)
Fixpoint startsWith (p s : string) : bool :=
  match p, s with
  | EmptyString, _ => true
  | String a p', String b s' => Ascii.eqb a b && startsWith p' s'
  | String _ _, EmptyString => false
  end.

(** [s.endsWith(p)]. *)
Definition endsWith (p s : string) : bool :=
  let n := String.length s in
  let k := String.length p in
  (k <=? n)%nat && String.eqb (String.substring (n - k) k s) p.

Fixpoint drop (n : nat) (s : string) : string :=
  match n, s with
  | O, _ => s
  | S k, String _ r => drop k r
  | S _, EmptyString => EmptyString
  end.

(** [s.replace(pat, rep)] with a string pattern: only the first
    occurrence is replaced. *)
Fixpoint replace (pat rep s : string) : string :=
  if startsWith pat s then rep +:+ drop (String.length pat) s
  else match s with
       | EmptyString => EmptyString
       | String c r => String c (replace pat rep r)
       end.

(** JavaScript truthiness of a string value. *)
Definition truthy (s : string) : bool := negb (String.eqb s EmptyString).

(** Truthiness of a possibly [undefined] string. *)
Definition truthy_opt (o : option string) : bool :=
  match o with
  | Some s => truthy s
  | None => false
  end.

(** [a || b] on possibly [undefined] strings. *)
Definition or_else (a b : option string) : option string :=
  if truthy_opt a then a else b.

End JsString.

(* ===================================================================== *)
(** ** Node's POSIX [path.join] *)
(* ===================================================================== *)

Module NodePath.

Definition sep : string := "/".
Definition sep_char : ascii := "/"%char.

(** The segment loop of [normalizeString]: empty and ["."] segments are
    dropped, [".."] removes the previous segment when there is one that
    is not itself [".."], and is kept only above a relative start. *)
Fixpoint normalize_segments (allowAboveRoot : bool)
    (acc : list string) (segs : list string) : list string :=
  match segs with
  | [] => acc
  | seg :: rest =>
      if String.eqb seg "" || String.eqb seg "." then
        normalize_segments allowAboveRoot acc rest
      else if String.eqb seg ".." then
        match last acc with
        | Some l =>
            if String.eqb l ".." then
              normalize_segments allowAboveRoot
                (if allowAboveRoot then (acc ++ [".."])%list else acc) rest
            else normalize_segments allowAboveRoot (removelast acc) rest
        | None =>
            normalize_segments allowAboveRoot
              (if allowAboveRoot then [".."] else []) rest
        end
      else normalize_segments allowAboveRoot (acc ++ [seg])%list rest
  end.

Definition isAbsolute (p : string) : bool := JsString.startsWith "/" p.

(** [path.normalize(p)]. *)
Definition normalize (p : string) : string :=
  if String.eqb p "" then "."
  else
    let abs := isAbsolute p in
    let trailing := JsString.endsWith "/" p in
    let body :=
      JsString.join sep
        (normalize_segments (negb abs) [] (JsString.split sep_char p)) in
    if String.eqb body "" then
      (if abs then "/" else if trailing then "./" else ".")
    else
      let body' := if trailing then body +:+ "/" else body in
      if abs then "/" +:+ body' else body'.

(** [path.join(a, b)]: the non-empty arguments glued with ["/"], then
    normalised. *)
Definition join (a b : string) : string :=
  match JsString.truthy a, JsString.truthy b with
  | true, true => normalize (a +:+ "/" +:+ b)
  | true, false => normalize a
  | false, true => normalize b
  | false, false => "."
  end.

End NodePath.

(* ===================================================================== *)
(** ** The file system *)
(* ===================================================================== *)

Module Fs.

(** A resolved location: the segments below the root directory. *)
Abbreviation loc := (list string).

Inductive node :=
| File (data : string)
| Dir.

Global Instance node_eq_dec : EqDecision node.
Proof. solve_decision. Defined.

(** The tree is kept as a finite map from locations to nodes; the root
    directory [[]] always exists and is not stored.  Symbolic links,
    permissions and a full disk are outside the model: an operation
    fails only for the shape of the tree (a missing path, a file where
    a directory is needed, a directory that is not empty). *)
Record disk := Disk {
  cwd : loc;
  nodes : gmap loc node
}.

Inductive errno := ENOENT | ENOTDIR | EISDIR | ENOTEMPTY | EEXIST | EBUSY.

Inductive result (A : Type) :=
| Ok (a : A)
| Err (e : errno).
Arguments Ok {A} a.
Arguments Err {A} e.

(** Path resolution against the working directory (no symbolic
    links): [""] and ["."] are skipped, [".."] steps to the parent. *)
Fixpoint walk_segments (acc : loc) (segs : list string) : loc :=
  match segs with
  | [] => acc
  | seg :: rest =>
      if String.eqb seg "" || String.eqb seg "." then walk_segments acc rest
      else if String.eqb seg ".." then walk_segments (removelast acc) rest
      else walk_segments (acc ++ [seg])%list rest
  end.

Definition resolve (d : disk) (p : string) : loc :=
  walk_segments (if NodePath.isAbsolute p then [] else cwd d)
                (JsString.split NodePath.sep_char p).

Definition lookup (d : disk) (l : loc) : option node :=
  match l with
  | [] => Some Dir
  | _ => nodes d !! l
  end.

Definition parent (l : loc) : loc := removelast l.

(** [k] is a direct entry of the directory at [l]. *)
Definition is_entry (l k : loc) : bool :=
  bool_decide (List.length k = S (List.length l) ∧ take (List.length l) k = l).

(** The entries of the directory at [l]. *)
Definition entries (d : disk) (l : loc) : list loc :=
  List.filter (is_entry l) (map fst (map_to_list (nodes d))).

Definition with_nodes (d : disk) (m : gmap loc node) : disk :=
  Disk (cwd d) m.

(** [fs.existsSync(p)]. *)
Definition existsSync (d : disk) (p : string) : bool :=
  match lookup d (resolve d p) with
  | Some _ => true
  | None => false
  end.

(** [fs.readFile(p)] followed by [.toString()]. *)
Definition readFile (d : disk) (p : string) : result string :=
  match lookup d (resolve d p) with
  | Some (File data) => Ok data
  | Some Dir => Err EISDIR
  | None => Err ENOENT
  end.

(** [fs.writeFile(p, data)]: the parent must be a directory and the
    target must not be one. *)
Definition writeFile (d : disk) (p : string) (data : string) : result disk :=
  let l := resolve d p in
  match l with
  | [] => Err EISDIR
  | _ =>
      match lookup d (parent l) with
      | Some Dir =>
          match lookup d l with
          | Some Dir => Err EISDIR
          | _ => Ok (with_nodes d (<[l := File data]> (nodes d)))
          end
      | Some (File _) => Err ENOTDIR
      | None => Err ENOENT
      end
  end.

(** [fs.unlinkSync(p)]. *)
Definition unlinkSync (d : disk) (p : string) : result disk :=
  let l := resolve d p in
  match l with
  | [] => Err EISDIR
  | _ =>
      match lookup d l with
      | Some (File _) => Ok (with_nodes d (delete l (nodes d)))
      | Some Dir => Err EISDIR
      | None => Err ENOENT
      end
  end.

(** [fs.readdirSync(p)]. *)
Definition readdirSync (d : disk) (p : string) : result (list loc) :=
  let l := resolve d p in
  match lookup d l with
  | Some Dir => Ok (entries d l)
  | Some (File _) => Err ENOTDIR
  | None => Err ENOENT
  end.

(** [fs.rmdirSync(p)]. *)
Definition rmdirSync (d : disk) (p : string) : result disk :=
  let l := resolve d p in
  match l with
  | [] => Err EBUSY
  | _ =>
      match lookup d l with
      | Some Dir =>
          match entries d l with
          | [] => Ok (with_nodes d (delete l (nodes d)))
          | _ :: _ => Err ENOTEMPTY
          end
      | Some (File _) => Err ENOTDIR
      | None => Err ENOENT
      end
  end.

(** The work of [mkdirp]: every prefix of the target, shortest first,
    is created when missing; the first location created is reported. *)
Fixpoint mkdirp_from (m : gmap loc node) (made : option loc)
    (done todo : loc) : result (option loc * gmap loc node) :=
  match todo with
  | [] => Ok (made, m)
  | seg :: rest =>
      let here := (done ++ [seg])%list in
      match m !! here with
      | Some Dir => mkdirp_from m made here rest
      | Some (File _) => Err (match rest with [] => EEXIST | _ => ENOTDIR end)
      | None =>
          mkdirp_from (<[here := Dir]> m)
            (match made with Some x => Some x | None => Some here end)
            here rest
      end
  end.

(** [mkdirp(p)]: resolves to the first directory it had to create, or
    to [undefined] ([None]) when the whole path already existed. *)
Definition mkdirp (d : disk) (p : string) : result (option loc * disk) :=
  match mkdirp_from (nodes d) None [] (resolve d p) with
  | Ok (made, m) => Ok (made, with_nodes d m)
  | Err e => Err e
  end.

End Fs.

(* ===================================================================== *)
(** ** Values, prompt answers, observable events and call outcomes *)
(* ===================================================================== *)

Module Js.

(** What an [async] reconciliation call resolves to. *)
Inductive value := JTrue | JFalse | JUndefined.

(** The three choices of the [expand] prompt. *)
Inductive answer := Yes | No | ShowDiff.

Inductive error :=
| IoError (e : Fs.errno)
| Error (message : string).

Inductive event :=
| EvRead (path : string)
| EvPrompt (message : string)
| EvDiff (existing content : string)
| EvStdout (text : string)
| EvStderr (text : string)
| EvLog (text : string).

(** How a call ends: it returns, it throws (a rejected promise), the
    process exits through [fatal], or it is still waiting at a prompt
    nobody answers. *)
Inductive outcome (S A : Type) :=
| Return (v : A) (s : S)
| Throw (e : error) (s : S)
| Exit (s : S)
| Pending (s : S).
Arguments Return {S A} v s.
Arguments Throw {S A} e s.
Arguments Exit {S A} s.
Arguments Pending {S A} s.

Definition final {S A} (o : outcome S A) : S :=
  match o with
  | Return _ s | Throw _ s | Exit s | Pending s => s
  end.

Definition dq : string := String (Ascii.ascii_of_nat 34) EmptyString.
Definition quoted (s : string) : string := dq +:+ s +:+ dq.

Definition is_prompt (e : event) : bool :=
  match e with EvPrompt _ => true | _ => false end.

End Js.

(* ===================================================================== *)
(** ** The utility module: ledgers, reconciliation, provisioning, rollback *)
(* ===================================================================== *)

Module Util.
Import Js.

Record options := Options {
  update : bool;
  force : bool;
  dontPrune : bool;
  directory : string
}.

(** The module-level arrays [filesWritten] and [dirsWritten], the disk,
    whether [DNA_DEBUG] is set, and what the process has shown so far. *)
Record state := State {
  disk : Fs.disk;
  filesWritten : list string;
  dirsWritten : list string;
  debugOn : bool;
  trace : list event
}.

Definition set_disk (d : Fs.disk) (s : state) : state :=
  State d (filesWritten s) (dirsWritten s) (debugOn s) (trace s).

Definition emit (e : event) (s : state) : state :=
  State (disk s) (filesWritten s) (dirsWritten s) (debugOn s)
        (trace s ++ [e])%list.

Definition push_file (p : string) (s : state) : state :=
  State (disk s) (filesWritten s ++ [p])%list (dirsWritten s) (debugOn s)
        (trace s).

Definition push_dir (p : string) (s : state) : state :=
  State (disk s) (filesWritten s) (dirsWritten s ++ [p])%list (debugOn s)
        (trace s).

(** [debug]: prints only when [DNA_DEBUG] is set. *)
Definition debug (msg : string) (s : state) : state :=
  if debugOn s then emit (EvLog msg) s else s.

(** [fatal]: one line on the error stream, then [process.exit(1)]. *)
Definition fatal {A} (msg : string) (s : state) : outcome state A :=
  Exit (emit (EvStderr msg) s).

(** [tryDiff]: the coloured line diff on standard output. *)
Definition tryDiff (content existingData : string) (s : state) : state :=
  emit (EvDiff existingData content) s.

(** The tail of [confirmWriteFile]: [if (doWrite) { ... return true }]. *)
Definition write_tail (doWrite : bool) (filePath fullPath content : string)
    (o : options) (s : state) : outcome state value :=
  if doWrite then
    let s1 :=
      if negb (dontPrune o) && negb (Fs.existsSync (disk s) fullPath)
      then push_file fullPath s else s in
    match Fs.writeFile (disk s1) fullPath content with
    | Fs.Ok d' =>
        Return JTrue
          (debug ("Successfully wrote " +:+ quoted filePath) (set_disk d' s1))
    | Fs.Err _ => fatal ("Error writing " +:+ filePath) s1
    end
  else Return JUndefined s.

(** [confirmWriteFile(filePath, content, options)].  The prompt answers
    still to come are the first argument; the answers left over are
    returned with the outcome. *)
Fixpoint confirmWriteFile (answers : list answer)
    (filePath content : string) (o : options) (s : state)
    : outcome state value * list answer :=
  let fullPath := NodePath.join (directory o) filePath in
  let exists_ := Fs.existsSync (disk s) fullPath in
  let doWrite := negb exists_ in
  if negb (update o) && exists_ then (Return JFalse s, answers)
  else if exists_ && update o && negb (force o) then
    match Fs.readFile (disk s) fullPath with
    | Fs.Err e => (Throw (IoError e) s, answers)
    | Fs.Ok existingData =>
        if String.eqb content existingData then (Return JFalse s, answers)
        else
          let s1 :=
            emit (EvPrompt ("Would you like to update " +:+ quoted filePath
                            +:+ "?")) s in
          match answers with
          | [] => (Pending s1, [])
          | Yes :: rest =>
              (write_tail true filePath fullPath content o s1, rest)
          | No :: rest =>
              (write_tail doWrite filePath fullPath content o s1, rest)
          | ShowDiff :: rest =>
              let s2 := tryDiff content existingData s1 in
              match confirmWriteFile rest filePath content o s2 with
              | (Return _ s3, rest') =>
                  (write_tail doWrite filePath fullPath content o s3, rest')
              | other => other
              end
          end
    end
  else if force o then
    (write_tail true filePath fullPath content o s, answers)
  else (write_tail doWrite filePath fullPath content o s, answers).

(** The [for] loop of [mkdir]: [i] runs from [dirParts.length] down
    to [1]. *)
Fixpoint push_parts (dir : string) (dirParts : list string) (i : nat)
    (s : state) : state :=
  match i with
  | O => s
  | S j =>
      push_parts dir dirParts j
        (push_dir
           (NodePath.join dir (JsString.join NodePath.sep (take i dirParts)))
           s)
  end.

(** [mkdir(filePath, options)]; the result is what [mkdirp] resolved to. *)
Definition mkdir (filePath : string) (o : options) (s : state)
    : outcome state (option (list string)) :=
  let fullPath := NodePath.join (directory o) filePath in
  match Fs.mkdirp (disk s) fullPath with
  | Fs.Err e => Throw (IoError e) s
  | Fs.Ok (created, d') =>
      let s1 := set_disk d' s in
      match created with
      | Some _ =>
          let dirParts :=
            JsString.split NodePath.sep_char
              (JsString.replace "./" "" filePath) in
          Return created
            (push_parts (directory o) dirParts (List.length dirParts) s1)
      | None => Return created s1
      end
  end.

(** Phase 1 of [cleanupWrittenFiles]: [filesWritten.forEach(unlinkSync)]. *)
Fixpoint removeFiles (files : list string) (s : state)
    : outcome state unit :=
  match files with
  | [] => Return tt s
  | file :: rest =>
      let s1 := debug ("Removing file " +:+ quoted file) s in
      match Fs.unlinkSync (disk s1) file with
      | Fs.Ok d' => removeFiles rest (set_disk d' s1)
      | Fs.Err e => Throw (IoError e) s1
      end
  end.

(** [s.indexOf(v)]. *)
Fixpoint indexOf (v : string) (l : list string) : option nat :=
  match l with
  | [] => None
  | x :: r => if String.eqb x v then Some O else S <$> indexOf v r
  end.

(** [s.filter((v, i, s) => s.indexOf(v) === i)], from index [i] on. *)
Fixpoint first_occurrences (whole : list string) (i : nat)
    (l : list string) : list string :=
  match l with
  | [] => []
  | v :: r =>
      if bool_decide (indexOf v whole = Some i)
      then v :: first_occurrences whole (S i) r
      else first_occurrences whole (S i) r
  end.

Definition dirsToRemove (dirs : list string) : list string :=
  first_occurrences dirs O dirs.

(** The inner loop of phase 2: [i] runs from [dirParts.length] down to
    [0]; an empty [dirPart] is skipped, an existing empty directory is
    removed, anything else ends the loop. *)
Fixpoint removeChain (dirParts : list string) (i : nat) (s : state)
    : outcome state unit :=
  let dirPart := JsString.join NodePath.sep (take i dirParts) in
  let next (s' : state) : outcome state unit :=
    match i with
    | O => Return tt s'
    | S j => removeChain dirParts j s'
    end in
  if negb (JsString.truthy dirPart) then next s
  else if Fs.existsSync (disk s) dirPart then
    match Fs.readdirSync (disk s) dirPart with
    | Fs.Err e => Throw (IoError e) s
    | Fs.Ok names =>
        if (List.length names =? 0)%nat then
          let s1 := debug ("Removing directory " +:+ quoted dirPart) s in
          match Fs.rmdirSync (disk s1) dirPart with
          | Fs.Ok d' => next (set_disk d' s1)
          | Fs.Err e => Throw (IoError e) s1
          end
        else Return tt s
    end
  else Return tt s.

(** Phase 2: the outer loop over [dirsToRemove]. *)
Fixpoint removeDirs (dirs : list string) (s : state) : outcome state unit :=
  match dirs with
  | [] => Return tt s
  | dir :: rest =>
      let dirParts :=
        JsString.split NodePath.sep_char (JsString.replace "./" "" dir) in
      match removeChain dirParts (List.length dirParts) s with
      | Return _ s' => removeDirs rest s'
      | other => other
      end
  end.

(** [cleanupWrittenFiles()]. *)
Definition cleanupWrittenFiles (s : state) : outcome state unit :=
  match removeFiles (filesWritten s) s with
  | Return _ s1 => removeDirs (dirsToRemove (dirsWritten s1)) s1
  | other => other
  end.

End Util.

(* ===================================================================== *)
(** ** lodash [merge] on parsed YAML / object literals *)
(* ===================================================================== *)

Module Lodash.
Import Js.

#[local] Set Warnings "-register-all".

(** Plain data as [yaml.safeLoad] and object literals produce it: a
    tree without shared or cyclic parts, numbers that are integers.
    An object is the list of its own enumerable fields in the order
    JavaScript enumerates them (array-index names first, ascending,
    then the other names in the order they were added); an array is
    the list of its elements, a hole counting as [undefined].
    Properties of an array object other than its elements and its
    length are not represented. *)
Inductive value :=
| Undefined
| Null
| Bool (b : bool)
| Num (n : Z)
| Str (s : string)
| Arr (items : list value)
| Obj (fields : list (string * value)).

(** [object[key]] for an own field. *)
Fixpoint get (k : string) (fields : list (string * value)) : option value :=
  match fields with
  | [] => None
  | (k', v) :: rest => if String.eqb k' k then Some v else get k rest
  end.

(** [String(i)]: the decimal name of an index. *)
Definition index_name (i : N) : string :=
  DecimalString.NilZero.string_of_uint (N.to_uint i).

Definition digit (c : ascii) : option N :=
  let n := N_of_ascii c in
  if (48 <=? n)%N && (n <=? 57)%N then Some (n - 48)%N else None.

Fixpoint digits (acc : N) (s : string) : option N :=
  match s with
  | EmptyString => Some acc
  | String c r =>
      match digit c with
      | Some d => digits (10 * acc + d)%N r
      | None => None
      end
  end.

(** The array index a property name stands for: the name is the
    canonical decimal form of an integer below [2^32 - 1]. *)
Definition array_index (k : string) : option nat :=
  match k with
  | EmptyString => None
  | String _ _ =>
      match digits 0 k with
      | Some n =>
          if String.eqb (index_name n) k && (n <? 4294967295)%N
          then Some (N.to_nat n) else None
      | None => None
      end
  end.

(** Where a field with a new name goes: an array-index name before
    the first name that is no smaller index, any other name last. *)
Fixpoint add_field (k : string) (v : value) (fields : list (string * value))
    : list (string * value) :=
  match array_index k with
  | None => (fields ++ [(k, v)])%list
  | Some i =>
      match fields with
      | [] => [(k, v)]
      | (k', v') :: rest =>
          match array_index k' with
          | Some j =>
              if (j <? i)%nat then (k', v') :: add_field k v rest
              else (k, v) :: fields
          | None => (k, v) :: fields
          end
      end
  end.

Fixpoint update (k : string) (v : value) (fields : list (string * value))
    : list (string * value) :=
  match fields with
  | [] => []
  | (k', v') :: rest =>
      if String.eqb k' k then (k, v) :: rest else (k', v') :: update k v rest
  end.

(** [object[key] = v]: an existing field is updated in place, a new
    one is added. *)
Definition assign (k : string) (v : value) (fields : list (string * value))
    : list (string * value) :=
  match get k fields with
  | Some _ => update k v fields
  | None => add_field k v fields
  end.

(** lodash [isObject]. *)
Definition is_object (v : value) : bool :=
  match v with
  | Arr _ | Obj _ => true
  | _ => false
  end.

(** The names every object inherits from [Object.prototype]:
    [key in object] holds for them without an own field. *)
Definition inherited : list string :=
  ["constructor"; "__defineGetter__"; "__defineSetter__"; "hasOwnProperty";
   "__lookupGetter__"; "__lookupSetter__"; "isPrototypeOf";
   "propertyIsEnumerable"; "toString"; "valueOf"; "__proto__";
   "toLocaleString"].

(** Whether [baseMerge] leaves [object[key]] alone for the source
    value [v]:
    - [safeGet] hides [__proto__], so a source object or array under
      that name is read as [undefined] and nothing is assigned;
    - [assignMergeValue] assigns [undefined] only when [key in object]
      fails, which it does not for an inherited name. *)
Definition skipped (k : string) (v : value) (base : list (string * value))
    : bool :=
  match v with
  | Undefined =>
      match get k base with
      | Some _ => false
      | None => bool_decide (k ∈ inherited)
      end
  | Arr _ | Obj _ => String.eqb k "__proto__"
  | _ => false
  end.

(** [array[i] = v]: an index beyond the end extends the array. *)
Definition set_item (i : nat) (v : value) (l : list value) : list value :=
  if (i <? List.length l)%nat then <[i := v]> l
  else (l ++ replicate (i - List.length l) Undefined ++ [v])%list.

(** [array.length = n]. *)
Definition resize (n : nat) (l : list value) : list value :=
  (take n l ++ replicate (n - List.length l) Undefined)%list.

(** [RangeError: Invalid array length], from [Array(n)] and from an
    assignment to [length]. *)
Definition range_error : error := Error "Invalid array length".

(** lodash [isArrayLike] for a plain object: its [length] is a
    number in [0 .. 2^53 - 1]. *)
Definition array_like (fields : list (string * value)) : option Z :=
  match get "length" fields with
  | Some (Num n) =>
      if (0 <=? n)%Z && (n <=? 9007199254740991)%Z then Some n else None
  | _ => None
  end.

(** The array a source array is merged into: the destination when it
    is an array, [copyArray] of it when it is an array-like object
    ([Array(length)] raises [RangeError] from [2^32] on), and a new
    array otherwise. *)
Definition array_base (objValue : option value) : error + list value :=
  match objValue with
  | Some (Arr l) => inr l
  | Some (Obj fields) =>
      match array_like fields with
      | Some n =>
          if (n <=? 4294967295)%Z then
            inr (map (λ i, default Undefined
                             (get (index_name (N.of_nat i)) fields))
                     (seq 0 (Z.to_nat n)))
          else inl range_error
      | None => inr []
      end
  | _ => inr []
  end.

Section Merge.

(** [ToNumber] of a string, an array or an object, followed by the
    check [array.length = v] makes: the length when the number is
    an integer in [0 .. 2^32 - 1], and [RangeError] otherwise. *)
Variable toLength : value → error + nat.

(** [assignMergeValue(array, "length", v)]: nothing is assigned for
    [undefined] (the name is in the array) nor for the current
    length; any other value is assigned to [array.length]. *)
Definition set_length (v : value) (l : list value) : error + list value :=
  match v with
  | Undefined => inr l
  | Null => inr (resize 0 l)
  | Bool b => inr (resize (if b then 1 else 0) l)
  | Num n =>
      if (n =? Z.of_nat (List.length l))%Z then inr l
      else if (0 <=? n)%Z && (n <=? 4294967295)%Z
           then inr (resize (Z.to_nat n) l)
           else inl range_error
  | Str _ | Arr _ | Obj _ =>
      match toLength v with
      | inl e => inl e
      | inr n => inr (resize n l)
      end
  end.

(** The value [baseMerge] computes for [object[key]] from the source
    value [srcValue], [objValue] being what [safeGet(object, key)]
    returns ([None] for [undefined]); the caller assigns it:
    - a source array is merged index by index into [array_base];
    - a source object is merged field by field into the destination
      when that is an object or an array, and into a new object
      otherwise; onto an array, a field named by an array index
      goes to that element, [length] resizes the array, and any
      other name becomes a property that is not an element;
    - [undefined] leaves what there is;
    - any other source value is taken as it is. *)
Fixpoint mergeDeep (objValue : option value) (srcValue : value)
    {struct srcValue} : error + value :=
  match srcValue with
  | Arr items =>
      match array_base objValue with
      | inl e => inl e
      | inr base =>
          match
            (fix go (base items : list value) {struct items}
               : error + list value :=
               match items with
               | [] => inr base
               | v :: rest =>
                   match mergeDeep (head base) v with
                   | inl e => inl e
                   | inr m =>
                       match go (tail base) rest with
                       | inl e => inl e
                       | inr r => inr (m :: r)
                       end
                   end
               end) base items
          with
          | inl e => inl e
          | inr r => inr (Arr r)
          end
      end
  | Obj fields =>
      match objValue with
      | Some (Arr l) =>
          match
            (fix put (l : list value) (fields : list (string * value))
               {struct fields} : error + list value :=
               match fields with
               | [] => inr l
               | (k, v) :: rest =>
                   if String.eqb k "length" then
                     match (if is_object v then mergeDeep None v
                            else inr v) with
                     | inl e => inl e
                     | inr nv =>
                         match set_length nv l with
                         | inl e => inl e
                         | inr l1 => put l1 rest
                         end
                     end
                   else
                     match array_index k with
                     | Some i =>
                         match mergeDeep (l !! i) v with
                         | inl e => inl e
                         | inr m => put (set_item i m l) rest
                         end
                     | None => put l rest
                     end
               end) l fields
          with
          | inl e => inl e
          | inr r => inr (Arr r)
          end
      | _ =>
          let base := match objValue with Some (Obj fs) => fs | _ => [] end in
          match
            (fix go (base fields : list (string * value)) {struct fields}
               : error + list (string * value) :=
               match fields with
               | [] => inr base
               | (k, v) :: rest =>
                   if skipped k v base then go base rest
                   else
                     match mergeDeep (get k base) v with
                     | inl e => inl e
                     | inr m => go (assign k m base) rest
                     end
               end) base fields
          with
          | inl e => inl e
          | inr r => inr (Obj r)
          end
      end
  | Undefined =>
      inr (match objValue with
           | Some o => o
           | None => Undefined
           end)
  | Null | Bool _ | Num _ | Str _ => inr srcValue
  end.

(** The index-wise loop over a source array. *)
Fixpoint mergeItems (base items : list value) : error + list value :=
  match items with
  | [] => inr base
  | v :: rest =>
      match mergeDeep (head base) v with
      | inl e => inl e
      | inr m =>
          match mergeItems (tail base) rest with
          | inl e => inl e
          | inr r => inr (m :: r)
          end
      end
  end.

(** The loop over the fields of a source object laid over an
    array. *)
Fixpoint putFields (l : list value) (fields : list (string * value))
    : error + list value :=
  match fields with
  | [] => inr l
  | (k, v) :: rest =>
      if String.eqb k "length" then
        match (if is_object v then mergeDeep None v else inr v) with
        | inl e => inl e
        | inr nv =>
            match set_length nv l with
            | inl e => inl e
            | inr l1 => putFields l1 rest
            end
        end
      else
        match array_index k with
        | Some i =>
            match mergeDeep (l !! i) v with
            | inl e => inl e
            | inr m => putFields (set_item i m l) rest
            end
        | None => putFields l rest
        end
  end.

(** The key-wise loop over a source object merged into an object. *)
Fixpoint mergeFields (base fields : list (string * value))
    : error + list (string * value) :=
  match fields with
  | [] => inr base
  | (k, v) :: rest =>
      if skipped k v base then mergeFields base rest
      else
        match mergeDeep (get k base) v with
        | inl e => inl e
        | inr m => mergeFields (assign k m base) rest
        end
  end.

(** [merge(object, source)] for an object-literal [source]: what
    [object] holds afterwards, or the error raised.  A primitive
    [object] is only wrapped, so the caller's variable keeps its
    value. *)
Definition merge (object : value) (source : list (string * value))
    : error + value :=
  match object with
  | Obj _ | Arr _ => mergeDeep (Some object) (Obj source)
  | _ => inr object
  end.

End Merge.

Definition is_scalar (v : value) : bool :=
  match v with
  | Null | Bool _ | Num _ | Str _ => true
  | _ => false
  end.

(** Field names are pairwise distinct at every level, as in any
    JavaScript object. *)
Fixpoint distinct_keys (v : value) : bool :=
  match v with
  | Obj fields =>
      bool_decide (NoDup (map fst fields))
      && (fix all (l : list (string * value)) : bool :=
            match l with
            | [] => true
            | (_, x) :: r => distinct_keys x && all r
            end) fields
  | Arr items =>
      (fix all (l : list value) : bool :=
         match l with
         | [] => true
         | x :: r => distinct_keys x && all r
         end) items
  | _ => true
  end.

(** [v.k1.k2...]: a chain of accesses to own fields of objects. *)
Fixpoint get_path (path : list string) (v : value) : option value :=
  match path with
  | [] => Some v
  | k :: rest =>
      match v with
      | Obj fields =>
          match get k fields with
          | Some x => get_path rest x
          | None => None
          end
      | _ => None
      end
  end.

(** [v[k1][k2]...]: own fields of objects and elements of arrays. *)
Fixpoint get_in (path : list string) (v : value) : option value :=
  match path with
  | [] => Some v
  | k :: rest =>
      match v with
      | Obj fields =>
          match get k fields with
          | Some x => get_in rest x
          | None => None
          end
      | Arr items =>
          match array_index k with
          | Some i =>
              match items !! i with
              | Some x => get_in rest x
              | None => None
              end
          | None => None
          end
      | _ => None
      end
  end.

End Lodash.

(* ===================================================================== *)
(** ** The template-aware reconciler inside [deployNodeApp] *)
(* ===================================================================== *)

Module Deploy.
Import Js.

(** The options the closure reads: [opts.output], [opts.confirm] and
    [opts.overwrite]. *)
Record opts := Opts {
  opt_output : option string;
  opt_confirm : bool;
  opt_overwrite : bool
}.

Definition silence (o : opts) : bool :=
  bool_decide (opt_output o = Some "-").
Definition prompts (o : opts) : bool := negb (opt_confirm o).

(** The second argument of [confirmWriteFile]. *)
Record args := Args {
  content : option string;
  templatePath : option string;
  output : option string;
  properties : option (list (string * Lodash.value))
}.

Record state := State {
  disk : Fs.disk;
  trace : list event
}.

Definition set_disk (d : Fs.disk) (s : state) : state := State d (trace s).
Definition emit (e : event) (s : state) : state :=
  State (disk s) (trace s ++ [e])%list.

Definition newline : string := String (Ascii.ascii_of_nat 10) "".

Section Reconciler.

(** [process.cwd()] and [__dirname]. *)
Variable cwd : string.
Variable dirname : string.

(** [yaml.safeLoad] and [yaml.safeDump]; [None] is a thrown
    [YAMLException]. *)
Variable safeLoad : string -> option Lodash.value.
Variable safeDump : Lodash.value -> option string.

(** The conversion [merge] relies on when it assigns a [length]
    that is not a number (see [Lodash.set_length]). *)
Variable toLength : Lodash.value -> error + nat.

Variable o : opts.

(** The closure's [log]: silent when the output goes to stdout. *)
Definition log (msg : string) (s : state) : state :=
  if silence o then s else emit (EvLog msg) s.

(** The closure's [fatal]. *)
Definition fatal {A} (msg : string) (s : state) : outcome state A :=
  Exit (emit (EvStderr msg) s).

(** [readFile] of a path, leaving a record of the access. *)
Definition read (p : string) (s : state) : Fs.result string * state :=
  (Fs.readFile (disk s) p, emit (EvRead p) s).

(** The first block of the body: [template] is loaded, and merged
    with [properties] when the template is a [.yaml] file. *)
Definition loadTemplate (a : args) (s : state)
    : (error + option string) * state :=
  match templatePath a with
  | Some tp =>
      if JsString.truthy tp then
        match read (NodePath.join dirname tp) s with
        | (Fs.Err e, s1) => (inl (IoError e), s1)
        | (Fs.Ok text, s1) =>
            match properties a with
            | Some props =>
                if JsString.endsWith ".yaml" tp then
                  match safeLoad text with
                  | None => (inl (Error "YAMLException"), s1)
                  | Some doc =>
                      match Lodash.merge toLength doc props with
                      | inl e => (inl e, s1)
                      | inr merged =>
                          match safeDump merged with
                          | None => (inl (Error "YAMLException"), s1)
                          | Some dumped =>
                              (inr (Some (dumped +:+ newline)), s1)
                          end
                      end
                  end
                else (inr (Some text), s1)
            | None => (inr (Some text), s1)
            end
        end
      else (inr None, s)
  | None => (inr None, s)
  end.

(** The last block of the body, from [if (!doWrite && output !== '-')]. *)
Definition finish (doWrite : bool) (filePath fullPath : string)
    (a : args) (desired : option string) (s : state)
    : outcome state value :=
  if negb doWrite && negb (bool_decide (output a = Some "-")) then
    Return JFalse s
  else
    match desired with
    | Some text =>
        if JsString.truthy text then
          let done (s' : state) :=
            Return JTrue
              (log ("Successfully "
                    +:+ (if JsString.truthy_opt (content a)
                         then "wrote" else "wrote from template")
                    +:+ " " +:+ quoted filePath) s') in
          if bool_decide (output a = Some "-") then
            done (emit (EvStdout (text +:+ newline)) s)
          else
            match Fs.writeFile (disk s) fullPath text with
            | Fs.Ok d' => done (set_disk d' s)
            | Fs.Err _ => fatal ("Error writing " +:+ filePath) s
            end
        else
          Throw (Error "Please provide one of content, templatePath for confirmWriteFile") s
    | None =>
        Throw (Error "Please provide one of content, templatePath for confirmWriteFile") s
    end.

(** [confirmWriteFile(filePath, { content, templatePath, output,
    properties })]. *)
Fixpoint confirmWriteFile (answers : list answer) (filePath : string)
    (a : args) (s : state) : outcome state value * list answer :=
  let fullPath := NodePath.join cwd filePath in
  match loadTemplate a s with
  | (inl e, s1) => (Throw e s1, answers)
  | (inr template, s1) =>
      if JsString.truthy_opt (content a)
         && JsString.truthy_opt (templatePath a) then
        (Throw (Error "Provide only one of content, templatePath") s1,
         answers)
      else
        let desired := JsString.or_else (content a) template in
        let '(r, s2) := read fullPath s1 in
        let existingContent :=
          match r with Fs.Ok c => Some c | Fs.Err _ => None end in
        if opt_overwrite o then
          (finish true filePath fullPath a desired s2, answers)
        else if negb (bool_decide (output a = Some "-"))
                && bool_decide (existingContent = desired) then
          (Return JFalse s2, answers)
        else if JsString.truthy_opt existingContent && prompts o
                && negb (silence o) then
          let s3 :=
            emit (EvPrompt ("Would you like to overwrite "
                            +:+ quoted filePath +:+ "?")) s2 in
          match answers with
          | [] => (Pending s3, [])
          | Yes :: rest =>
              (finish true filePath fullPath a desired s3, rest)
          | No :: rest =>
              (finish false filePath fullPath a desired s3, rest)
          | ShowDiff :: rest =>
              match read fullPath s3 with
              | (Fs.Err e, s4) => (Throw (IoError e) s4, rest)
              | (Fs.Ok existing, s4) =>
                  match desired with
                  | None => (Throw (Error "TypeError") s4, rest)
                  | Some shown =>
                      let s5 := emit (EvDiff existing shown) s4 in
                      match confirmWriteFile rest filePath
                              (Args (content a) (templatePath a) None
                                    (properties a)) s5 with
                      | (Return _ s6, rest') =>
                          (finish false filePath fullPath a desired s6,
                           rest')
                      | other => other
                      end
                  end
              end
          end
        else if JsString.truthy_opt existingContent && negb (prompts o) then
          (finish false filePath fullPath a desired
             (log ("Refusing to overwrite " +:+ quoted filePath
                   +:+ "... Continuing... (Use --overwrite to ignore this check)")
                  s2),
           answers)
        else if negb (JsString.truthy_opt existingContent) then
          (finish true filePath fullPath a desired s2, answers)
        else (finish false filePath fullPath a desired s2, answers)
  end.

End Reconciler.

End Deploy.

(* ===================================================================== *)
(** ** The earlier reconciler ([copySource] instead of a template) *)
(* ===================================================================== *)

Module Deploy2.
Import Js.

(** The first argument of this [confirmWriteFile]. *)
Record args := Args {
  path : string;
  content : option string;
  copySource : option string;
  noPrompts : bool
}.

Section Reconciler.

(** [process.cwd()] and [__dirname]. *)
Variable cwd : string.
Variable dirname : string.

(** [opts]; here [prompts] is [opts.confirm] itself. *)
Variable o : Deploy.opts.

Definition silence : bool := bool_decide (Deploy.opt_output o = Some "-").
Definition prompts : bool := Deploy.opt_confirm o.

Definition log (msg : string) (s : Deploy.state) : Deploy.state :=
  if silence then s else Deploy.emit (EvLog msg) s.

(** [statFile(fullPath)] inside [try]: a missing path leaves
    [exists] at [false]. *)
Definition stat (p : string) (s : Deploy.state) : bool :=
  Fs.existsSync (Deploy.disk s) p.

(** A write that is started but not awaited: when it fails, nobody
    is there to catch it. *)
Definition write_unawaited (p data : string) (s : Deploy.state)
    : Deploy.state :=
  match Fs.writeFile (Deploy.disk s) p data with
  | Fs.Ok d' => Deploy.set_disk d' s
  | Fs.Err _ => s
  end.

(** [copyFile(src, dest)], not awaited either. *)
Definition copy_unawaited (src dest : string) (s : Deploy.state)
    : Deploy.state :=
  match Fs.readFile (Deploy.disk s) src with
  | Fs.Ok data => write_unawaited dest data s
  | Fs.Err _ => s
  end.

(** The last block of the body, from [if (!doWrite)]. *)
Definition finish (doWrite : bool) (a : args) (s : Deploy.state)
    : outcome Deploy.state value :=
  let fullPath := cwd +:+ "/" +:+ path a in
  if negb doWrite then Return JFalse s
  else if JsString.truthy_opt (content a)
          || JsString.truthy_opt (copySource a) then
    let s1 :=
      if JsString.truthy_opt (content a) then
        match content a with
        | Some c => write_unawaited fullPath c s
        | None => s
        end
      else if JsString.truthy_opt (copySource a) then
        match copySource a with
        | Some src => copy_unawaited (dirname +:+ "/" +:+ src) (path a) s
        | None => s
        end
      else s in
    Return JTrue
      (log ("Successfully "
            +:+ (if JsString.truthy_opt (content a)
                 then "wrote" else "wrote from template")
            +:+ " " +:+ quoted (path a)) s1)
  else
    Throw (Error "Please provide one of content, copySource for confirmWriteFile") s.

(** [confirmWriteFile({ path, content, copySource, noPrompts })]. *)
Fixpoint confirmWriteFile (answers : list answer) (a : args)
    (s : Deploy.state) : outcome Deploy.state value * list answer :=
  let fullPath := cwd +:+ "/" +:+ path a in
  if Deploy.opt_overwrite o then (finish true a s, answers)
  else
    let exists_ := stat fullPath s in
    if exists_ && prompts && negb (noPrompts a) then
      let s1 :=
        Deploy.emit (EvPrompt ("Would you like to overwrite "
                               +:+ quoted (path a) +:+ "?")) s in
      match answers with
      | [] => (Pending s1, [])
      | Yes :: rest => (finish true a s1, rest)
      | No :: rest => (finish false a s1, rest)
      | ShowDiff :: rest =>
          (* the external [git diff] is kept as what it prints *)
          let s2 :=
            if JsString.truthy_opt (copySource a)
            then Deploy.emit (EvStdout "git diff") s1
            else Deploy.emit (EvLog "Not supported yet") s1 in
          match confirmWriteFile rest a s2 with
          | (Return _ s3, rest') => (finish false a s3, rest')
          | other => other
          end
      end
    else if exists_ && negb prompts then
      (finish false a
         (log ("Refusing to overwrite " +:+ quoted (path a)
               +:+ "... Continuing... (Use --overwrite to ignore this check)")
              s),
       answers)
    else if negb exists_ then (finish true a s, answers)
    else (finish false a s, answers).

End Reconciler.

End Deploy2.

(* ===================================================================== *)
(** ** The command line: [--label] *)
(* ===================================================================== *)

Module Cli.

(** What [program.label] holds: nothing, [true] (the flag given
    without a value) or the string given. *)
Inductive flag := Missing | Bare | Given (s : string).

(** [Boolean(x)] for an array [x]: every array is truthy. *)
Definition array_truthy {A} (l : list A) : bool := true.

(** [s.split(',').map(k => k.split('=').filter(Boolean)).filter(Boolean)]. *)
Definition parseLabels (s : string) : list (list string) :=
  List.filter array_truthy
    (map (λ k, List.filter JsString.truthy (JsString.split "=" k))
         (JsString.split "," s)).

(** The [labels] option passed to [deployNodeApp]:
    [(program.label || '')] followed by the chain above.  [true] has
    no [split]. *)
Definition labels (label : flag) : Js.error + list (list string) :=
  match label with
  | Missing => inr (parseLabels "")
  | Given s => inr (parseLabels (if JsString.truthy s then s else ""))
  | Bare => inl (Js.Error "TypeError")
  end.

End Cli.

(* ===================================================================== *)
(** ** The utility module before the ledgers *)
(* ===================================================================== *)

Module UtilOld.
Import Js.

Record options := Options {
  update : bool;
  force : bool
}.

(** The default of the [options] parameter. *)
Definition default_options : options := Options false false.

Record state := State {
  disk : Fs.disk;
  trace : list event
}.

Definition set_disk (d : Fs.disk) (s : state) : state := State d (trace s).
Definition emit (e : event) (s : state) : state :=
  State (disk s) (trace s ++ [e])%list.

(** [log]: always prints. *)
Definition log (msg : string) (s : state) : state := emit (EvLog msg) s.

Definition fatal {A} (msg : string) (s : state) : outcome state A :=
  Exit (emit (EvStderr msg) s).

Definition tryDiff (content existingData : string) (s : state) : state :=
  emit (EvDiff existingData content) s.

Section Reconciler.

(** [process.cwd()]. *)
Variable cwd : string.

(** The tail of [confirmWriteFile]: [if (doWrite) { ... return true }]. *)
Definition write_tail (doWrite : bool) (filePath fullPath content : string)
    (s : state) : outcome state value :=
  if doWrite then
    match Fs.writeFile (disk s) fullPath content with
    | Fs.Ok d' =>
        Return JTrue
          (log ("Successfully wrote " +:+ quoted filePath) (set_disk d' s))
    | Fs.Err _ => fatal ("Error writing " +:+ filePath) s
    end
  else Return JUndefined s.

(** [confirmWriteFile(filePath, content, options)]. *)
Fixpoint confirmWriteFile (answers : list answer)
    (filePath content : string) (o : options) (s : state)
    : outcome state value * list answer :=
  let fullPath := NodePath.join cwd filePath in
  let exists_ := Fs.existsSync (disk s) fullPath in
  let doWrite := negb exists_ in
  if negb (update o) && exists_ then (Return JFalse s, answers)
  else if exists_ && update o && negb (force o) then
    match Fs.readFile (disk s) fullPath with
    | Fs.Err e => (Throw (IoError e) s, answers)
    | Fs.Ok existingData =>
        if String.eqb content existingData then (Return JFalse s, answers)
        else
          let s1 :=
            emit (EvPrompt ("Would you like to update " +:+ quoted filePath
                            +:+ "?")) s in
          match answers with
          | [] => (Pending s1, [])
          | Yes :: rest =>
              (write_tail true filePath fullPath content s1, rest)
          | No :: rest =>
              (write_tail doWrite filePath fullPath content s1, rest)
          | ShowDiff :: rest =>
              let s2 := tryDiff content existingData s1 in
              match confirmWriteFile rest filePath content o s2 with
              | (Return _ s3, rest') =>
                  (write_tail doWrite filePath fullPath content s3, rest')
              | other => other
              end
          end
    end
  else if force o then
    (write_tail true filePath fullPath content s, answers)
  else (write_tail doWrite filePath fullPath content s, answers).

End Reconciler.

End UtilOld.

(* ===================================================================== *)
(** ** [buildKustomize] *)
(* ===================================================================== *)

Module Kustomize.
Import Js.

(** The promisified [fs.stat]: it resolves to the [Stats] of the path
    or rejects. *)
Definition statFile (d : Fs.disk) (p : string) : Fs.result Fs.node :=
  match Fs.lookup d (Fs.resolve d p) with
  | Some n => Fs.Ok n
  | None => Fs.Err Fs.ENOENT
  end.

(** [Boolean(stats)]: a [Stats] object is truthy. *)
Definition stats_truthy (n : Fs.node) : bool := true.

Section Builder.

(** The [else] branch,
    [process.stdout.write('Warning:', mm.name, '...')], whatever it
    does. *)
Variable warn : string → Deploy.state → outcome Deploy.state unit.

(** [buildKustomize(metaModules, { bases, resources })], the
    meta-modules given by their [name]. *)
Fixpoint buildKustomize (names : list string)
    (bases resources : list string) (s : Deploy.state)
    : outcome Deploy.state (list string * list string) :=
  match names with
  | [] => Return (bases, resources) s
  | name :: rest =>
      match statFile (Deploy.disk s)
              ("./node_modules/" +:+ name +:+ "/kustomization.yaml") with
      | Fs.Err e => Throw (IoError e) s
      | Fs.Ok stats =>
          if stats_truthy stats then
            buildKustomize rest
              (bases ++ ["../node_modules/" +:+ name])%list resources s
          else
            match warn name s with
            | Return _ s1 => buildKustomize rest bases resources s1
            | Throw e s1 => Throw e s1
            | Exit s1 => Exit s1
            | Pending s1 => Pending s1
            end
      end
  end.

End Builder.

End Kustomize.

(* ===================================================================== *)
(** ** The manifest builders *)
(* ===================================================================== *)

Module Manifests.
Import Lodash.

(** [answers.port] and [answers.protocol], as typed at the prompt. *)
Record answers := Answers {
  port : string;
  protocol : string
}.

(** [tags.env] and [tags.uienv]. *)
Record tags := Tags {
  tag_env : string;
  tag_uienv : string
}.

Section Builders.

(** [String.prototype.toLowerCase], [parseInt(x, 10)] (a number or
    [NaN]) and [JSON.stringify]. *)
Variable toLowerCase : string → string.
Variable parseInt10 : string → value.
Variable stringify : value → string.

(** [buildAppDeployment(pkg, env, tags, answers)], [pkg] given by
    its [name]. *)
Definition buildAppDeployment (pkg_name env : string) (t : tags)
    (a : answers) : value :=
  let appName := toLowerCase pkg_name in
  let name := appName +:+ "-" +:+ env in
  Obj [
    ("apiVersion", Str "apps/v1");
    ("kind", Str "Deployment");
    ("metadata", Obj [("name", Str name)]);
    ("spec", Obj [
      ("selector", Obj [
        ("matchLabels", Obj [("app", Str appName); ("env", Str env)])]);
      ("minReadySeconds", Num 5);
      ("strategy", Obj [
        ("type", Str "RollingUpdate");
        ("rollingUpdate", Obj [("maxSurge", Num 1);
                               ("maxUnavailable", Num 0)])]);
      ("replicas", Num 1);
      ("template", Obj [
        ("metadata", Obj [
          ("labels", Obj [("deployedBy", Str "deploy-node-app");
                          ("app", Str appName);
                          ("env", Str env)])]);
        ("spec", Obj [
          ("volumes", Arr []);
          ("containers", Arr [
            Obj [
              ("name", Str name);
              ("image", Str (tag_env t));
              ("imagePullPolicy", Str "Always");
              ("ports", Arr [
                Obj [("name", Str (protocol a));
                     ("containerPort", parseInt10 (port a))]]);
              ("resources", Obj [
                ("requests", Obj [("cpu", Str "1m");
                                  ("memory", Str "32Mi")]);
                ("limits", Obj [("cpu", Str "100m");
                                ("memory", Str "64Mi")])])]])])])])].

(** [buildUiDeployment(pkg, env, tags, answers)]. *)
Definition buildUiDeployment (pkg_name env : string) (t : tags)
    (a : answers) : value :=
  let appName := toLowerCase pkg_name +:+ "-ui" in
  let name := appName +:+ "-" +:+ env in
  Obj [
    ("apiVersion", Str "apps/v1");
    ("kind", Str "Deployment");
    ("metadata", Obj [("name", Str name)]);
    ("spec", Obj [
      ("selector", Obj [
        ("matchLabels", Obj [("app", Str appName); ("env", Str env)])]);
      ("minReadySeconds", Num 5);
      ("strategy", Obj [
        ("type", Str "RollingUpdate");
        ("rollingUpdate", Obj [("maxSurge", Num 1);
                               ("maxUnavailable", Num 0)])]);
      ("replicas", Num 1);
      ("template", Obj [
        ("metadata", Obj [
          ("labels", Obj [("deployedBy", Str "deploy-node-app");
                          ("app", Str appName);
                          ("env", Str env)])]);
        ("spec", Obj [
          ("volumes", Arr []);
          ("containers", Arr [
            Obj [
              ("name", Str name);
              ("image", Str (tag_uienv t));
              ("imagePullPolicy", Str "Always");
              ("ports", Arr [
                Obj [("name", Str "http"); ("containerPort", Num 80)]]);
              ("resources", Obj [
                ("requests", Obj [("cpu", Str "1m");
                                  ("memory", Str "32Mi")]);
                ("limits", Obj [("cpu", Str "100m");
                                ("memory", Str "64Mi")])])]])])])])].

(** [buildAppService(pkg, env, tags, answers, namespace,
    exposeExternally = true)]. *)
Definition buildAppService (pkg_name env : string) (t : tags)
    (a : answers) (namespace : string) (exposeExternally : bool) : value :=
  let appName := toLowerCase pkg_name in
  let name := appName +:+ "-" +:+ env +:+ "-http" in
  Obj [
    ("apiVersion", Str "v1");
    ("kind", Str "Service");
    ("metadata", Obj [
      ("annotations",
       if exposeExternally then
         Obj [("getambassador.io/config",
               Str (stringify (Obj [
                 ("apiVersion", Str "ambassador/v1");
                 ("kind", Str "Mapping");
                 ("name", Str (name +:+ "." +:+ namespace));
                 ("prefix", Str "/");
                 ("service", Str ("http://" +:+ name +:+ "." +:+ namespace
                                  +:+ ":" +:+ port a));
                 ("host", Str (appName +:+ "--" +:+ namespace
                               +:+ ".kubesail.io"));
                 ("timeout_ms", Num 10000);
                 ("use_websocket", Bool true)])))]
       else Null);
      ("name", Str name)]);
    ("spec", Obj [
      ("ports", Arr [
        Obj [("port", Str (port a));
             ("protocol", Str "TCP");
             ("targetPort", Str (port a))]]);
      ("selector", Obj [("deployedBy", Str "deploy-node-app");
                        ("app", Str appName);
                        ("env", Str env)])])].

(** [buildUiService(pkg, env, tags, answers, namespace)]. *)
Definition buildUiService (pkg_name env : string) (t : tags)
    (a : answers) (namespace : string) : value :=
  let appName := toLowerCase pkg_name +:+ "-ui" in
  let name := appName +:+ "-" +:+ env +:+ "-http" in
  Obj [
    ("apiVersion", Str "v1");
    ("kind", Str "Service");
    ("metadata", Obj [
      ("annotations",
       Obj [("getambassador.io/config",
             Str (stringify (Obj [
               ("apiVersion", Str "ambassador/v1");
               ("kind", Str "Mapping");
               ("name", Str (name +:+ "." +:+ namespace));
               ("prefix", Str "/");
               ("service", Str ("http://" +:+ name +:+ "." +:+ namespace
                                +:+ ":80"));
               ("host", Str (appName +:+ "-www--" +:+ namespace
                             +:+ ".kubesail.io"));
               ("timeout_ms", Num 10000);
               ("use_websocket", Bool true)])))]);
      ("name", Str name)]);
    ("spec", Obj [
      ("ports", Arr [
        Obj [("port", Num 80);
             ("protocol", Str "TCP");
             ("targetPort", Num 80)]]);
      ("selector", Obj [("deployedBy", Str "deploy-node-app");
                        ("app", Str appName);
                        ("env", Str env)])])].

End Builders.

End Manifests.

(* ===================================================================== *)
(** ** Vocabulary of the properties *)
(* ===================================================================== *)

Module Props.
Import Fs.

(** There is a regular file at [q], and every directory on the way
    from the root down to it exists. *)
Definition holds_file (d : disk) (q : loc) : Prop :=
  (∃ c, lookup d q = Some (File c)) ∧
  ∀ k, (k < List.length q)%nat → lookup d (take k q) = Some Dir.

(** [d'] is [d] with some nodes gone, each of them a directory none of
    whose entries is left. *)
Definition pruned (d d' : disk) : Prop :=
  (∀ l n, nodes d' !! l = Some n → nodes d !! l = Some n) ∧
  (∀ l, is_Some (nodes d !! l) → nodes d' !! l = None →
        nodes d !! l = Some Dir ∧
        ∀ k, is_entry l k = true → nodes d' !! k = None).

(** One provisioning or reconciliation call of a run, whatever its
    arguments, its prompt answers and the way it ends. *)
Inductive call : Util.state → Util.state → Prop :=
| call_confirmWriteFile answers filePath content o s :
    call s (Js.final (Util.confirmWriteFile answers filePath content o s).1)
| call_mkdir filePath o s :
    call s (Js.final (Util.mkdir filePath o s)).

(** A run: any sequence of such calls. *)
Definition run : Util.state → Util.state → Prop := rtc call.

(** The ledger entries [mkdir] adds for [dirParts], deepest first. *)
Definition dir_entries (dir : string) (dirParts : list string) : list string :=
  map (λ i, NodePath.join dir (JsString.join NodePath.sep (take i dirParts)))
      (rev (seq 1 (List.length dirParts))).

(** The inner loop of rollback: the directory tried at index [i], and
    what the loop does after that iteration. *)
Definition chain_dirPart (dirParts : list string) (i : nat) : string :=
  JsString.join NodePath.sep (take i dirParts).

Definition chain_next (dirParts : list string) (i : nat) (s : Util.state)
    : Js.outcome Util.state unit :=
  match i with
  | O => Js.Return tt s
  | S j => Util.removeChain dirParts j s
  end.

(** The file at [q] is there and the ledger does not name it. *)
Definition unledgered (q : loc) (s : Util.state) : Prop :=
  holds_file (Util.disk s) q ∧
  ∀ f, f ∈ Util.filesWritten s → resolve (Util.disk s) f ≠ q.

(** The question [confirmWriteFile] asks. *)
Definition promptText (filePath : string) : string :=
  "Would you like to update " +:+ Js.quoted filePath +:+ "?".

(** [c] occurs in [s]. *)
Fixpoint has_char (c : ascii) (s : string) : bool :=
  match s with
  | EmptyString => false
  | String x r => Ascii.eqb x c || has_char c r
  end.

(** An ordinary directory name: not empty, not ["."] or [".."], and
    without a separator inside. *)
Definition simple (seg : string) : bool :=
  negb (String.eqb seg "") && negb (String.eqb seg ".")
  && negb (String.eqb seg "..") && negb (has_char NodePath.sep_char seg).

(** The absolute path with the given segments. *)
Definition absolute (segs : list string) : string :=
  "/" +:+ JsString.join NodePath.sep segs.

(** The shape of the chain of directories [take k segs] in [d]:
    below depth [j] it is bare - each directory from depth [j + 1] to
    the innermost exists, the innermost has no entry, and every other
    one has no entry besides the next directory of the chain - while
    the directory at depth [j], if [j] is not the root, exists and has
    some other entry. *)
Definition chain_above (d : disk) (segs : list string) (j : nat) : bool :=
  forallb
    (λ k, bool_decide (nodes d !! take k segs = Some Dir)
          && forallb (λ l, (k <? List.length segs)%nat
                           && bool_decide (l = take (S k) segs))
                     (entries d (take k segs)))
    (seq (S j) (List.length segs - j))
  && match j with
     | O => true
     | S _ =>
         bool_decide (nodes d !! take j segs = Some Dir)
         && existsb (λ l, negb (bool_decide (l = take (S j) segs)))
                    (entries d (take j segs))
     end.

Definition wroteText (filePath : string) : string :=
  "Successfully wrote " +:+ Js.quoted filePath.

(** The ledger step of a write: the path is recorded when pruning is
    not switched off and nothing exists there yet. *)
Definition ledgered (fullPath : string) (o : Util.options) (s : Util.state)
    : Util.state :=
  if negb (Util.dontPrune o) && negb (existsSync (Util.disk s) fullPath)
  then Util.push_file fullPath s else s.

(** The number of prompts shown so far. *)
Definition prompts_shown (t : list Js.event) : nat :=
  List.length (List.filter Js.is_prompt t).

(** Everything written to standard output so far. *)
Definition stdout_text (t : list Js.event) : list string :=
  omap (λ e, match e with Js.EvStdout x => Some x | _ => None end) t.

(** Whether a scalar the overlay [src] holds at [path] is reached by
    the merge into [obj]: no step skips a field (an object or array
    named [__proto__]), and where an overlay object is laid over a
    template array the step is an array index and the overlay object
    has no [length] field. *)
Fixpoint fits (path : list string) (obj : option Lodash.value)
    (src : Lodash.value) : bool :=
  match path with
  | [] => true
  | k :: rest =>
      match src with
      | Lodash.Obj fields =>
          match Lodash.get k fields with
          | None => true
          | Some x =>
              match obj with
              | Some (Lodash.Arr l) =>
                  match Lodash.array_index k with
                  | Some i =>
                      match Lodash.get "length" fields with
                      | Some _ => false
                      | None => fits rest (l !! i) x
                      end
                  | None => false
                  end
              | _ =>
                  let base := match obj with
                              | Some (Lodash.Obj fs) => fs
                              | _ => []
                              end in
                  negb (Lodash.skipped k x base)
                  && fits rest (Lodash.get k base) x
              end
          end
      | Lodash.Arr items =>
          match Lodash.array_index k, Lodash.array_base obj with
          | Some i, inr base =>
              match items !! i with
              | Some x => fits rest (base !! i) x
              | None => true
              end
          | _, _ => true
          end
      | _ => true
      end
  end.

(** No object anywhere in [v] has a field named [length]. *)
Fixpoint lengthless (v : Lodash.value) : bool :=
  match v with
  | Lodash.Obj fields =>
      (fix all (l : list (string * Lodash.value)) : bool :=
         match l with
         | [] => true
         | (k, x) :: r =>
             negb (String.eqb k "length") && lengthless x && all r
         end) fields
  | Lodash.Arr items =>
      (fix all (l : list Lodash.value) : bool :=
         match l with
         | [] => true
         | x :: r => lengthless x && all r
         end) items
  | _ => true
  end.

End Props.

(* ===================================================================== *)
(** ** Vocabulary of the further properties *)
(* ===================================================================== *)

Module MoreProps.
Import Fs Props.

(** From [s] to [s'] nothing was taken away: the working directory is
    the same, both ledgers were only appended to, every directory is
    still a directory and every file is still a file. *)
Definition grows (s s' : Util.state) : Prop :=
  cwd (Util.disk s') = cwd (Util.disk s)
  ∧ Util.filesWritten s `prefix_of` Util.filesWritten s'
  ∧ Util.dirsWritten s `prefix_of` Util.dirsWritten s'
  ∧ (∀ l, lookup (Util.disk s) l = Some Dir →
          lookup (Util.disk s') l = Some Dir)
  ∧ (∀ l c, lookup (Util.disk s) l = Some (File c) →
            ∃ c', lookup (Util.disk s') l = Some (File c')).

(** From [s] to [s'] nodes were only removed: the working directory
    and both ledgers are the same, and every node of [s'] is a node
    of [s]. *)
Definition shrunk (s s' : Util.state) : Prop :=
  cwd (Util.disk s') = cwd (Util.disk s)
  ∧ Util.filesWritten s' = Util.filesWritten s
  ∧ Util.dirsWritten s' = Util.dirsWritten s
  ∧ ∀ l n, nodes (Util.disk s') !! l = Some n →
           nodes (Util.disk s) !! l = Some n.

(** [s] contains no [./]. *)
Fixpoint no_dot_slash (s : string) : bool :=
  match s with
  | EmptyString => true
  | String _ r => negb (JsString.startsWith "./" s) && no_dot_slash r
  end.

(** No node of [d] lies at or below [p]. *)
Definition nothing_below (d : disk) (p : loc) : bool :=
  forallb (λ l, negb (bool_decide (p `prefix_of` l)))
          (map fst (map_to_list (nodes d))).

(** The directory at [p] has at least one entry. *)
Definition has_entry (d : disk) (p : loc) : bool :=
  match entries d p with
  | [] => false
  | _ :: _ => true
  end.

(** The directories [take k segs], [k = 1 .. j], all exist. *)
Definition dirs_down_to (d : disk) (segs : loc) (j : nat) : bool :=
  forallb (λ k, bool_decide (nodes d !! take k segs = Some Dir)) (seq 1 j).

(** The shape of the chain of directories [parts] below the working
    directory, as [chain_above] has it for an absolute path: below
    depth [r] the chain is bare, and the directory at depth [r], if
    that is not the working directory itself ([r = 0]), exists and
    has some other entry.  Of the working directory nothing is
    asked. *)
Definition chain_below (d : disk) (parts : list string) (r : nat) : bool :=
  forallb
    (λ k, bool_decide (nodes d !! (cwd d ++ take k parts)%list = Some Dir)
          && forallb (λ l, (k <? List.length parts)%nat
                           && bool_decide
                                (l = (cwd d ++ take (S k) parts)%list))
                     (entries d (cwd d ++ take k parts)))
    (seq (S r) (List.length parts - r))
  && match r with
     | O => true
     | S _ =>
         bool_decide (nodes d !! (cwd d ++ take r parts)%list = Some Dir)
         && existsb (λ l, negb (bool_decide
                                  (l = (cwd d ++ take (S r) parts)%list)))
                    (entries d (cwd d ++ take r parts))
     end.

(** Following [path] down the overlay [src], the walk leaves the
    overlay before the path ends: a field is missing or [undefined]. *)
Fixpoint leaves (path : list string) (src : Lodash.value) : bool :=
  match src with
  | Lodash.Undefined => true
  | Lodash.Obj fields =>
      match path with
      | [] => false
      | k :: rest =>
          match Lodash.get k fields with
          | None => true
          | Some v => leaves rest v
          end
      end
  | _ => false
  end.

(** The field names of an object. *)
Definition keys (fields : list (string * Lodash.value)) : list string :=
  map fst fields.

(** How often [c] occurs in [s]. *)
Fixpoint count_char (c : ascii) (s : string) : nat :=
  match s with
  | EmptyString => O
  | String x r => ((if Ascii.eqb x c then 1 else 0) + count_char c r)%nat
  end.

(** A label key or value as the help text shows them: not empty and
    without [,] or [=]. *)
Definition label_word (x : string) : bool :=
  JsString.truthy x && negb (has_char "," x) && negb (has_char "=" x).

(** [k=v,k=v,...]. *)
Definition render_labels (l : list (string * string)) : string :=
  JsString.join "," (map (λ kv, kv.1 +:+ "=" +:+ kv.2) l).

(** A state of the ledgered utility module as the older one sees it. *)
Definition forget (s : Util.state) : UtilOld.state :=
  UtilOld.State (Util.disk s) (Util.trace s).

Definition forget_outcome {A} (r : Js.outcome Util.state A)
    : Js.outcome UtilOld.state A :=
  match r with
  | Js.Return v s => Js.Return v (forget s)
  | Js.Throw e s => Js.Throw e (forget s)
  | Js.Exit s => Js.Exit (forget s)
  | Js.Pending s => Js.Pending (forget s)
  end.

(** [s'] continues [s] with [DNA_DEBUG] set and the ledgers
    untouched. *)
Definition same_ledger (s s' : Util.state) : Prop :=
  Util.debugOn s' = true
  ∧ Util.filesWritten s' = Util.filesWritten s
  ∧ Util.dirsWritten s' = Util.dirsWritten s.

(** The file [buildKustomize] looks for, and the base it adds. *)
Definition kustomization (name : string) : string :=
  "./node_modules/" +:+ name +:+ "/kustomization.yaml".
Definition base_of (name : string) : string := "../node_modules/" +:+ name.

(** The object a manifest holds at [path]; no fields when there is
    none. *)
Definition fields_at (path : list string) (v : Lodash.value)
    : list (string * Lodash.value) :=
  match Lodash.get_path path v with
  | Some (Lodash.Obj fields) => fields
  | _ => []
  end.

(** Every label the selector names is among [labels], with the same
    value: the selector matches a pod with these labels. *)
Definition selects (selector labels : list (string * Lodash.value)) : Prop :=
  Forall (λ kv, Lodash.get kv.1 labels = Some kv.2) selector.

(** The labels of the pods of a deployment, the selector of a
    deployment and the selector of a service. *)
Definition pod_labels (deployment : Lodash.value) :=
  fields_at ["spec"; "template"; "metadata"; "labels"] deployment.
Definition deployment_selector (deployment : Lodash.value) :=
  fields_at ["spec"; "selector"; "matchLabels"] deployment.
Definition service_selector (service : Lodash.value) :=
  fields_at ["spec"; "selector"] service.

End MoreProps.

(* ===================================================================== *)
(** ** Concrete projects used as test inputs *)
(* ===================================================================== *)

Module Scenario.
Import Fs Js.

(** A project at [/tmp/proj] that already contains [a.txt]. *)
Definition project_disk : disk :=
  Disk ["tmp"; "proj"]
    (<[ ["tmp"; "proj"; "a.txt"] := File "old" ]>
       (<[ ["tmp"; "proj"] := Dir ]> (<[ ["tmp"] := Dir ]> ∅))).

(** An empty project directory at [/tmp/proj]. *)
Definition empty_project_disk : disk :=
  Disk ["tmp"; "proj"]
    (<[ ["tmp"; "proj"] := Dir ]> (<[ ["tmp"] := Dir ]> ∅)).

(** A project whose [inf] directory is already there. *)
Definition inf_project_disk : disk :=
  Disk ["tmp"; "proj"]
    (<[ ["tmp"; "proj"; "inf"] := Dir ]>
       (<[ ["tmp"; "proj"] := Dir ]> (<[ ["tmp"] := Dir ]> ∅))).

Definition fresh (d : disk) : Util.state := Util.State d [] [] false [].

Definition interactive : Util.options := Util.Options true false false "/tmp/proj".
Definition forceOnly : Util.options := Util.Options false true false "/tmp/proj".

(** A run on [project_disk]: provision [inf/k8s], then write a new
    manifest into it. *)
Definition after_mkdir : Util.state :=
  final (Util.mkdir "inf/k8s" interactive (fresh project_disk)).
Definition after_write : Util.state :=
  final (Util.confirmWriteFile [] "inf/k8s/app.yaml" "kind: Deployment"
           interactive after_mkdir).1.

(** A ledger naming two files of which the first is no longer there. *)
Definition stale_ledger : Util.state :=
  Util.State project_disk ["/tmp/proj/gone.txt"; "/tmp/proj/a.txt"] [] false [].

(** A run on [empty_project_disk] that only provisions [inf]. *)
Definition after_mkdir_inf : Util.state :=
  final (Util.mkdir "inf" interactive (fresh empty_project_disk)).

(** The same project seen by [deployNodeApp], whose own directory
    [/dna] holds the default [Dockerfile] template. *)
Definition deploy_disk : disk :=
  Disk ["tmp"; "proj"]
    (<[ ["dna"; "defaults"; "Dockerfile"] := File "FROM node" ]>
       (<[ ["dna"; "defaults"] := Dir ]>
          (<[ ["dna"] := Dir ]> (nodes project_disk)))).

Definition deploy_fresh : Deploy.state := Deploy.State deploy_disk [].

(** The scenarios below use no [.yaml] template, so the YAML codec is
    never consulted; these stand for a codec that rejects everything. *)
Definition no_yaml_load : string → option Lodash.value := λ _, None.
Definition no_yaml_dump : Lodash.value → option string := λ _, None.
Definition no_length : Lodash.value → Js.error + nat :=
  λ _, inl Lodash.range_error.

Definition deploy (o : Deploy.opts) :=
  Deploy.confirmWriteFile "/tmp/proj" "/dna"
    no_yaml_load no_yaml_dump no_length o.

Definition dryRun : Deploy.opts := Deploy.Opts (Some "-") false false.
Definition overwriting : Deploy.opts := Deploy.Opts None false true.
Definition prompting : Deploy.opts := Deploy.Opts None false false.

(** The template and overlay of the merge-precedence example. *)
Definition spec_template : Lodash.value :=
  Lodash.Obj [("spec", Lodash.Obj [("replicas", Lodash.Num 1);
                                   ("tags", Lodash.Arr [Lodash.Str "x"])])].
Definition spec_overlay : list (string * Lodash.value) :=
  [("spec", Lodash.Obj [("replicas", Lodash.Num 3);
                        ("tags", Lodash.Arr [Lodash.Str "y"; Lodash.Str "z"])])].

(** A template with a longer array than its overlay. *)
Definition long_template : Lodash.value :=
  Lodash.Obj [("tags", Lodash.Arr [Lodash.Str "a"; Lodash.Str "b"])].
Definition short_overlay : list (string * Lodash.value) :=
  [("tags", Lodash.Arr [Lodash.Str "y"])].

(** A pod template with two containers, and an overlay that names
    the image of the first. *)
Definition container_template : Lodash.value :=
  Lodash.Obj
    [("spec",
      Lodash.Obj
        [("containers",
          Lodash.Arr [Lodash.Obj [("name", Lodash.Str "app");
                                  ("image", Lodash.Str "old")];
                      Lodash.Obj [("name", Lodash.Str "sidecar")]])])].
Definition container_overlay : list (string * Lodash.value) :=
  [("spec",
    Lodash.Obj
      [("containers",
        Lodash.Arr [Lodash.Obj [("image", Lodash.Str "new")]])])].

End Scenario.

(* ===================================================================== *)
(** ** Further test inputs *)
(* ===================================================================== *)

Module MoreScenario.
Import Fs Js.

(** The tool is started in [/tmp/work] for the project [../proj]. *)
Definition sibling_disk : disk :=
  Disk ["tmp"; "work"]
    (<[ ["tmp"; "proj"; "package.json"] := File "{}" ]>
       (<[ ["tmp"; "proj"] := Dir ]>
          (<[ ["tmp"; "work"] := Dir ]> (<[ ["tmp"] := Dir ]> ∅)))).

Definition sibling_options : Util.options :=
  Util.Options false false false "../proj".

Definition after_sibling_mkdir : Util.state :=
  final (Util.mkdir "inf" sibling_options (Scenario.fresh sibling_disk)).

(** A run with [--confirm]: nobody is there to answer. *)
Definition confirming : Deploy.opts := Deploy.Opts None true false.

(** A project whose [.env] file is there but empty. *)
Definition env_disk : disk :=
  Disk ["tmp"; "proj"]
    (<[ ["tmp"; "proj"; ".env"] := File "" ]>
       (nodes Scenario.empty_project_disk)).

Definition env_fresh : Deploy.state := Deploy.State env_disk [].

(** A call with a literal content, and one with nothing to write. *)
Definition literal (c : string) : Deploy.args :=
  Deploy.Args (Some c) None None None.

(** A deployment template, and properties whose [name] is
    [undefined] (a [package.json] without a name). *)
Definition deployment_template : Lodash.value :=
  Lodash.Obj [("kind", Lodash.Str "Deployment");
              ("metadata", Lodash.Obj [("name", Lodash.Str "app");
                                       ("namespace", Lodash.Str "default")])].
Definition nameless_properties : list (string * Lodash.value) :=
  [("metadata", Lodash.Obj [("name", Lodash.Undefined);
                            ("labels", Lodash.Obj [("app", Lodash.Undefined)])])].

(** The interactive policy with pruning switched off, and a run
    started with [DNA_DEBUG] set. *)
Definition interactiveUnledgered : Util.options :=
  Util.Options true false true "/tmp/proj".
Definition debugging (d : disk) : Util.state := Util.State d [] [] true [].

(** A project with two meta-modules of which only [redis] ships a
    [kustomization.yaml]. *)
Definition modules_disk : disk :=
  Disk ["tmp"; "proj"]
    (<[ ["tmp"; "proj"; "node_modules"; "redis"; "kustomization.yaml"]
          := File "resources: []" ]>
       (<[ ["tmp"; "proj"; "node_modules"; "redis"] := Dir ]>
          (<[ ["tmp"; "proj"; "node_modules"; "mongo"] := Dir ]>
             (<[ ["tmp"; "proj"; "node_modules"] := Dir ]>
                (nodes Scenario.empty_project_disk))))).

Definition modules_fresh : Deploy.state := Deploy.State modules_disk [].

(** A warning that would print its first argument. *)
Definition print_warning (name : string) (s : Deploy.state)
    : outcome Deploy.state unit :=
  Return tt (Deploy.emit (EvStdout "Warning:") s).

(** The default project directory. *)
Definition in_place : Util.options := Util.Options true false false ".".

(** A run started in the empty project [/tmp/proj] with the default
    [-d .] that only provisions [inf]. *)
Definition after_in_place_mkdir : Util.state :=
  final (Util.mkdir "inf" in_place
           (Scenario.fresh Scenario.empty_project_disk)).

(** Properties with an own [__proto__] field, as [JSON.parse]
    produces them. *)
Definition polluting_properties : list (string * Lodash.value) :=
  [("__proto__", Lodash.Obj [("polluted", Lodash.Bool true)]);
   ("replicas", Lodash.Num 2)].

End MoreScenario.

(* ===================================================================== *)
(** ** Facts about the file system model *)
(* ===================================================================== *)

Module FsFacts.
Import Fs.

Lemma resolve_with_nodes d m p : resolve (with_nodes d m) p = resolve d p.
Proof. reflexivity. Qed.

Lemma lookup_nonroot d l : l ≠ [] → lookup d l = nodes d !! l.
Proof. destruct l; [congruence | reflexivity]. Qed.

Lemma lookup_file_nonroot d l c : lookup d l = Some (File c) → l ≠ [].
Proof. intros H ->. discriminate. Qed.

(** Looking a location up after one node was deleted. *)
Lemma lookup_delete_node d l k :
  l ≠ [] →
  lookup (with_nodes d (delete l (nodes d))) k
  = if decide (l = k) then None else lookup d k.
Proof.
  intros Hl. destruct k as [|x k].
  - simpl. destruct (decide (l = [])); [contradiction | reflexivity].
  - simpl. rewrite lookup_delete. reflexivity.
Qed.

(** Looking a location up after one node was stored. *)
Lemma lookup_insert_node d l n k :
  l ≠ [] →
  lookup (with_nodes d (<[l := n]> (nodes d))) k
  = if decide (l = k) then Some n else lookup d k.
Proof.
  intros Hl. destruct k as [|x k].
  - simpl. destruct (decide (l = [])); [contradiction | reflexivity].
  - simpl. rewrite lookup_insert. reflexivity.
Qed.

Lemma is_entry_spec l k :
  is_entry l k = true ↔
  List.length k = S (List.length l) ∧ take (List.length l) k = l.
Proof. unfold is_entry. rewrite bool_decide_eq_true. reflexivity. Qed.

(** The next location on the way from [l] down to [q] is an entry
    of [l]. *)
Lemma is_entry_take (q : list string) (n : nat) :
  (n < List.length q)%nat → is_entry (take n q) (take (S n) q) = true.
Proof.
  intros Hn. apply is_entry_spec.
  rewrite !length_take. split; [lia |].
  replace (n `min` List.length q)%nat with n by lia.
  rewrite take_take. f_equal. lia.
Qed.

Lemma elem_of_entries d l k :
  k ∈ entries d l ↔ is_Some (nodes d !! k) ∧ is_entry l k = true.
Proof.
  unfold entries. rewrite list_elem_of_In, filter_In, <- list_elem_of_In.
  rewrite list_elem_of_fmap. split.
  - intros [[[k' n] [-> Hin]] He]. apply elem_of_map_to_list in Hin.
    simpl in *. eauto.
  - intros [[n Hn] He]. split; [| exact He].
    exists (k, n). split; [reflexivity |]. by apply elem_of_map_to_list.
Qed.

(** A directory without entries has no node directly below it. *)
Lemma entries_nil d l k :
  entries d l = [] → is_entry l k = true → nodes d !! k = None.
Proof.
  intros He Hk. destruct (nodes d !! k) eqn:E; [| reflexivity].
  assert (k ∈ entries d l) as Hin by (apply elem_of_entries; eauto).
  rewrite He in Hin. by apply not_elem_of_nil in Hin.
Qed.

Lemma entries_nil_iff d l :
  entries d l = [] ↔ ∀ k, is_entry l k = true → nodes d !! k = None.
Proof.
  split; [intros H k; by apply entries_nil |].
  intros H. destruct (entries d l) as [|k r] eqn:E; [reflexivity |].
  assert (k ∈ entries d l) as Hin by (rewrite E; left).
  apply elem_of_entries in Hin as [[n Hn] Hk].
  rewrite (H k Hk) in Hn. discriminate.
Qed.

Lemma unlinkSync_Ok d p d' :
  unlinkSync d p = Ok d' →
  resolve d p ≠ [] ∧
  (∃ c, lookup d (resolve d p) = Some (File c)) ∧
  d' = with_nodes d (delete (resolve d p) (nodes d)).
Proof.
  unfold unlinkSync. destruct (resolve d p) as [|x l] eqn:E; [discriminate |].
  destruct (lookup d (x :: l)) as [[c|]|] eqn:L; try discriminate.
  intros [= <-]. split; [discriminate |]. split; [eauto | reflexivity].
Qed.

Lemma rmdirSync_Ok d p d' :
  rmdirSync d p = Ok d' →
  resolve d p ≠ [] ∧
  lookup d (resolve d p) = Some Dir ∧
  entries d (resolve d p) = [] ∧
  d' = with_nodes d (delete (resolve d p) (nodes d)).
Proof.
  unfold rmdirSync. destruct (resolve d p) as [|x l] eqn:E; [discriminate |].
  destruct (lookup d (x :: l)) as [[c|]|] eqn:L; try discriminate.
  destruct (entries d (x :: l)) eqn:En; [| discriminate].
  intros [= <-]. repeat split; try done.
Qed.

Lemma writeFile_Ok d p data d' :
  writeFile d p data = Ok d' →
  resolve d p ≠ [] ∧
  lookup d (resolve d p) ≠ Some Dir ∧
  d' = with_nodes d (<[resolve d p := File data]> (nodes d)).
Proof.
  unfold writeFile. destruct (resolve d p) as [|x l] eqn:E; [discriminate |].
  destruct (lookup d (parent (x :: l))) as [[c|]|]; try discriminate.
  destruct (lookup d (x :: l)) as [[c|]|] eqn:L; try discriminate;
    intros [= <-]; repeat split; try done.
Qed.

Lemma existsSync_true d p :
  existsSync d p = true ↔ is_Some (lookup d (resolve d p)).
Proof.
  unfold existsSync. destruct (lookup d (resolve d p)); split; intros H;
    try done; try eauto; by destruct H.
Qed.

Lemma existsSync_false d p :
  existsSync d p = false ↔ lookup d (resolve d p) = None.
Proof.
  unfold existsSync. destruct (lookup d (resolve d p)); split; intros H; done.
Qed.

(** [mkdirp] never replaces a node that is already there. *)
Lemma mkdirp_from_keeps m made done todo made' m' k n :
  mkdirp_from m made done todo = Ok (made', m') →
  m !! k = Some n → m' !! k = Some n.
Proof.
  revert m made done. induction todo as [|seg rest IH]; intros m made done.
  - simpl. intros [= <- <-]. done.
  - simpl. destruct (m !! (done ++ [seg])%list) as [[c|]|] eqn:E.
    + discriminate.
    + apply IH.
    + intros Hrec Hk. eapply IH; [exact Hrec |].
      rewrite lookup_insert_ne; [done |]. intros <-. congruence.
Qed.

(** When every directory on the way already exists, [mkdirp] creates
    nothing and reports nothing. *)
Lemma mkdirp_from_present m done todo :
  (∀ i, (0 < i ≤ List.length todo)%nat →
        m !! (done ++ take i todo)%list = Some Dir) →
  mkdirp_from m None done todo = Ok (None, m).
Proof.
  revert done. induction todo as [|seg rest IH]; intros done H; [reflexivity |].
  simpl. specialize (H 1%nat) as H1. simpl in H1.
  rewrite take_0 in H1. rewrite H1 by lia.
  apply IH. intros i Hi. specialize (H (S i)). simpl in H.
  rewrite <- app_assoc. simpl. apply H. lia.
Qed.

(** When something is missing, [mkdirp] reports a created location. *)
Lemma mkdirp_from_made m x done todo made' m' :
  mkdirp_from m (Some x) done todo = Ok (made', m') → made' = Some x.
Proof.
  revert m done. induction todo as [|seg rest IH]; intros m done; simpl.
  - by intros [= <- <-].
  - destruct (m !! (done ++ [seg])%list) as [[c|]|]; [discriminate | |]; apply IH.
Qed.

Lemma mkdirp_from_missing m done todo made' m' :
  mkdirp_from m None done todo = Ok (made', m') →
  (∃ i, (0 < i ≤ List.length todo)%nat ∧
        m !! (done ++ take i todo)%list = None) →
  is_Some made'.
Proof.
  revert m done. induction todo as [|seg rest IH]; intros m done; simpl.
  - intros _ [i [Hi _]]. simpl in Hi. lia.
  - destruct (m !! (done ++ [seg])%list) as [[c|]|] eqn:E; [discriminate | |].
    + intros Hrec [i [Hi Hm]]. eapply IH; [exact Hrec |].
      destruct i as [|[|i]]; [lia | |].
      * simpl in Hm. rewrite take_0 in Hm. congruence.
      * exists (S i). split; [simpl in Hi; lia |].
        rewrite <- app_assoc. exact Hm.
    + intros Hrec _. apply mkdirp_from_made in Hrec. rewrite Hrec. eauto.
Qed.

Lemma rmdirSync_empty d p :
  resolve d p ≠ [] → lookup d (resolve d p) = Some Dir →
  entries d (resolve d p) = [] →
  rmdirSync d p = Ok (with_nodes d (delete (resolve d p) (nodes d))).
Proof.
  intros Hne Hdir Hempty. unfold rmdirSync.
  destruct (resolve d p) as [|x l]; [done |]. by rewrite Hdir, Hempty.
Qed.

Lemma readdirSync_dir d p :
  lookup d (resolve d p) = Some Dir →
  readdirSync d p = Ok (entries d (resolve d p)).
Proof. intros H. unfold readdirSync. by rewrite H. Qed.

Lemma unlinkSync_file d p c :
  lookup d (resolve d p) = Some (File c) →
  unlinkSync d p = Ok (with_nodes d (delete (resolve d p) (nodes d))).
Proof.
  intros H. unfold unlinkSync.
  destruct (resolve d p) as [|x l]; [done |]. by rewrite H.
Qed.

Lemma readFile_file d p c :
  lookup d (resolve d p) = Some (File c) → readFile d p = Ok c.
Proof. intros H. unfold readFile. by rewrite H. Qed.

Lemma writeFile_over d p data :
  resolve d p ≠ [] →
  lookup d (parent (resolve d p)) = Some Dir →
  lookup d (resolve d p) ≠ Some Dir →
  writeFile d p data
  = Ok (with_nodes d (<[resolve d p := File data]> (nodes d))).
Proof.
  intros Hne Hpar Hnd. unfold writeFile.
  destruct (resolve d p) as [|x l] eqn:E; [done |]. rewrite Hpar.
  destruct (lookup d (x :: l)) as [[c|]|]; done.
Qed.

End FsFacts.

(* ===================================================================== *)
(** ** Rollback *)
(* ===================================================================== *)

Module RollbackFacts.
Import Fs Js Util Props FsFacts.

Lemma pruned_refl d : pruned d d.
Proof.
  split; [done |]. intros l [n Hn] Hnone. congruence.
Qed.

(** Removing one more empty directory keeps the relation. *)
Lemma pruned_rmdir d d1 d2 p :
  pruned d d1 → rmdirSync d1 p = Ok d2 → pruned d d2.
Proof.
  intros [Hsub Hrem] Hrm.
  apply rmdirSync_Ok in Hrm as (Hne & Hdir & Hempty & ->).
  rewrite lookup_nonroot in Hdir by done.
  split; simpl.
  - intros l n. rewrite lookup_delete. case_decide; [done | apply Hsub].
  - intros l Hl. rewrite lookup_delete. case_decide as Heq.
    + subst l. intros _. split; [by apply Hsub |].
      intros k Hk. rewrite lookup_delete. case_decide; [done |].
      by eapply entries_nil.
    + intros Hnone. destruct (Hrem l Hl Hnone) as [Hd Hk].
      split; [done |]. intros k Hek. rewrite lookup_delete.
      case_decide; [done | by apply Hk].
Qed.

Lemma disk_debug msg s : disk (debug msg s) = disk s.
Proof. unfold debug. by destruct (debugOn s). Qed.

Lemma filesWritten_debug msg s : filesWritten (debug msg s) = filesWritten s.
Proof. unfold debug. by destruct (debugOn s). Qed.

Lemma dirsWritten_debug msg s : dirsWritten (debug msg s) = dirsWritten s.
Proof. unfold debug. by destruct (debugOn s). Qed.

(** The five ways one iteration of the inner loop can go. *)
Lemma removeChain_cases dirParts i s :
  let dirPart := chain_dirPart dirParts i in
  (JsString.truthy dirPart = false ∧
   removeChain dirParts i s = chain_next dirParts i s)
  ∨ (JsString.truthy dirPart = true ∧
     existsSync (disk s) dirPart = false ∧
     removeChain dirParts i s = Return tt s)
  ∨ (JsString.truthy dirPart = true ∧
     (∃ e, readdirSync (disk s) dirPart = Err e ∧
           removeChain dirParts i s = Throw (IoError e) s))
  ∨ (JsString.truthy dirPart = true ∧
     (∃ names, readdirSync (disk s) dirPart = Ok names ∧ names ≠ [] ∧
               removeChain dirParts i s = Return tt s))
  ∨ (JsString.truthy dirPart = true ∧
     readdirSync (disk s) dirPart = Ok [] ∧
     ((∃ e, rmdirSync (disk s) dirPart = Err e ∧
            removeChain dirParts i s
            = Throw (IoError e)
                (debug ("Removing directory " +:+ quoted dirPart) s))
      ∨ (∃ d', rmdirSync (disk s) dirPart = Ok d' ∧
               removeChain dirParts i s
               = chain_next dirParts i
                   (set_disk d'
                      (debug ("Removing directory " +:+ quoted dirPart) s))))).
Proof.
  intros dirPart.
  assert (removeChain dirParts i s =
          if negb (JsString.truthy dirPart) then chain_next dirParts i s
          else if existsSync (disk s) dirPart then
            match readdirSync (disk s) dirPart with
            | Err e => Throw (IoError e) s
            | Ok names =>
                if (List.length names =? 0)%nat then
                  let s1 := debug ("Removing directory " +:+ quoted dirPart) s in
                  match rmdirSync (disk s1) dirPart with
                  | Ok d' => chain_next dirParts i (set_disk d' s1)
                  | Err e => Throw (IoError e) s1
                  end
                else Return tt s
            end
          else Return tt s) as -> by (destruct i; reflexivity).
  destruct (JsString.truthy dirPart) eqn:Ht; simpl; [| by left].
  right. destruct (existsSync (disk s) dirPart) eqn:Hex; [| by left].
  right. destruct (readdirSync (disk s) dirPart) as [names|e] eqn:Hrd;
    [| left; eauto].
  right. destruct names as [|n names]; simpl.
  - right. split; [done |]. split; [done |].
    rewrite disk_debug.
    destruct (rmdirSync (disk s) dirPart) as [d'|e]; [right | left]; eauto.
  - left. split; [done |]. eexists; eauto.
Qed.

Lemma pruned_removeChain d dirParts i s :
  pruned d (disk s) → pruned d (disk (final (removeChain dirParts i s))).
Proof.
  revert s. induction i as [|j IH]; intros s Hp;
    match goal with
    | |- context [removeChain ?p ?i ?s] =>
        destruct (removeChain_cases p i s)
          as [[_ ->]|[(_ & _ & ->)|[(_ & e & _ & ->)|[(_ & ns & _ & _ & ->)
              |(_ & _ & [(e & _ & ->)|(d' & Hrm & ->)])]]]]
    end;
    simpl; rewrite ?disk_debug; try done; try (by apply IH);
    try (by eapply pruned_rmdir).
  apply IH. simpl. by eapply pruned_rmdir.
Qed.

Lemma pruned_removeDirs d dirs s :
  pruned d (disk s) → pruned d (disk (final (removeDirs dirs s))).
Proof.
  revert s. induction dirs as [|dir rest IH]; intros s Hp; [done |].
  simpl.
  pose proof (pruned_removeChain d
    (JsString.split NodePath.sep_char (JsString.replace "./" "" dir))
    (List.length (JsString.split NodePath.sep_char (JsString.replace "./" "" dir)))
    s Hp) as H.
  destruct (removeChain _ _ s) as [v s'|e s'|s'|s']; simpl in *; auto.
Qed.

(** *** Files that are not in the ledger survive *)

Lemma holds_file_nonroot d q : holds_file d q → q ≠ [].
Proof. intros [[c Hc] _]. by eapply lookup_file_nonroot. Qed.

Lemma holds_file_rmdir d q p d' :
  holds_file d q → rmdirSync d p = Ok d' → holds_file d' q.
Proof.
  intros [[c Hc] Hdirs] Hrm.
  apply rmdirSync_Ok in Hrm as (Hne & Hdir & Hempty & ->).
  assert (resolve d p ≠ q) as Hq by congruence.
  assert (∀ k, (k < List.length q)%nat → resolve d p ≠ take k q) as Hanc.
  { intros k Hk Heq.
    pose proof (is_entry_take q k Hk) as He. rewrite <- Heq in He.
    pose proof (entries_nil _ _ _ Hempty He) as Hnone.
    assert (lookup d (take (S k) q) = None) as Hl.
    { rewrite lookup_nonroot; [done |].
      destruct q; simpl in *; [lia | done]. }
    destruct (decide (S k = List.length q)) as [Hlen|Hlen].
    - rewrite Hlen, firstn_all in Hl. congruence.
    - rewrite Hdirs in Hl by lia. discriminate. }
  split.
  - exists c. rewrite lookup_delete_node by done. by case_decide.
  - intros k Hk. rewrite lookup_delete_node by done.
    case_decide as Heq; [by apply Hanc in Heq | by apply Hdirs].
Qed.

Lemma holds_file_unlink d q p d' :
  holds_file d q → resolve d p ≠ q → unlinkSync d p = Ok d' →
  holds_file d' q.
Proof.
  intros [[c Hc] Hdirs] Hq Hun.
  apply unlinkSync_Ok in Hun as (Hne & [c' Hfile] & ->).
  split.
  - exists c. rewrite lookup_delete_node by done. by case_decide.
  - intros k Hk. rewrite lookup_delete_node by done.
    case_decide as Heq; [| by apply Hdirs].
    rewrite Heq, Hdirs in Hfile by done. discriminate.
Qed.

Lemma holds_file_write d q p data d' :
  holds_file d q → writeFile d p data = Ok d' → holds_file d' q.
Proof.
  intros [[c Hc] Hdirs] Hw.
  apply writeFile_Ok in Hw as (Hne & Hnodir & ->).
  split.
  - rewrite lookup_insert_node by done. case_decide; eauto.
  - intros k Hk. rewrite lookup_insert_node by done.
    case_decide as Heq; [| by apply Hdirs].
    rewrite Heq, Hdirs in Hnodir by done. done.
Qed.

Lemma holds_file_mkdirp d q p made d' :
  holds_file d q → mkdirp d p = Ok (made, d') → holds_file d' q.
Proof.
  intros [[c Hc] Hdirs]. unfold mkdirp.
  destruct (mkdirp_from _ _ _ _) as [[made' m']|e] eqn:Hm; [| discriminate].
  intros [= <- <-].
  assert (∀ l n, lookup d l = Some n → lookup (with_nodes d m') l = Some n)
    as Hkeep.
  { intros [|x l] n; [done |]. simpl. by eapply mkdirp_from_keeps. }
  split; [eauto |]. intros k Hk. by apply Hkeep, Hdirs.
Qed.

Lemma cwd_rmdir d p d' : rmdirSync d p = Ok d' → cwd d' = cwd d.
Proof. intros H. by apply rmdirSync_Ok in H as (_ & _ & _ & ->). Qed.

Lemma cwd_unlink d p d' : unlinkSync d p = Ok d' → cwd d' = cwd d.
Proof. intros H. by apply unlinkSync_Ok in H as (_ & _ & ->). Qed.

Lemma cwd_write d p data d' : writeFile d p data = Ok d' → cwd d' = cwd d.
Proof. intros H. by apply writeFile_Ok in H as (_ & _ & ->). Qed.

Lemma cwd_mkdirp d p made d' : mkdirp d p = Ok (made, d') → cwd d' = cwd d.
Proof.
  unfold mkdirp. destruct (mkdirp_from _ _ _ _) as [[? ?]|?]; [| done].
  by intros [= <- <-].
Qed.

Lemma resolve_cwd d d' p : cwd d' = cwd d → resolve d' p = resolve d p.
Proof. unfold resolve. by intros ->. Qed.

Lemma holds_file_removeChain q dirParts i s :
  holds_file (disk s) q →
  holds_file (disk (final (removeChain dirParts i s))) q.
Proof.
  revert s. induction i as [|j IH]; intros s Hp;
    match goal with
    | |- context [removeChain ?p ?i ?s] =>
        destruct (removeChain_cases p i s)
          as [[_ ->]|[(_ & _ & ->)|[(_ & e & _ & ->)|[(_ & ns & _ & _ & ->)
              |(_ & _ & [(e & _ & ->)|(d' & Hrm & ->)])]]]]
    end;
    simpl; rewrite ?disk_debug; try done; try (by apply IH);
    try (by eapply holds_file_rmdir).
  apply IH. simpl. by eapply holds_file_rmdir.
Qed.

Lemma holds_file_removeDirs q dirs s :
  holds_file (disk s) q → holds_file (disk (final (removeDirs dirs s))) q.
Proof.
  revert s. induction dirs as [|dir rest IH]; intros s Hp; [done |].
  simpl.
  pose proof (holds_file_removeChain q
    (JsString.split NodePath.sep_char (JsString.replace "./" "" dir))
    (List.length (JsString.split NodePath.sep_char (JsString.replace "./" "" dir)))
    s Hp) as H.
  destruct (removeChain _ _ s) as [v s'|e s'|s'|s']; simpl in *; auto.
Qed.

Lemma holds_file_removeFiles q files s :
  holds_file (disk s) q →
  (∀ f, f ∈ files → resolve (disk s) f ≠ q) →
  holds_file (disk (final (removeFiles files s))) q.
Proof.
  revert s. induction files as [|file rest IH]; intros s Hp Hled; [done |].
  simpl. rewrite disk_debug.
  destruct (unlinkSync (disk s) file) as [d'|e] eqn:Hun.
  - apply IH; simpl.
    + eapply holds_file_unlink; [exact Hp | | exact Hun].
      apply Hled. left.
    + intros f Hf. rewrite (resolve_cwd (disk s)) by by eapply cwd_unlink.
      apply Hled. by right.
  - simpl. by rewrite disk_debug.
Qed.

Lemma removeFiles_ledger files s :
  dirsWritten (final (removeFiles files s)) = dirsWritten s.
Proof.
  revert s. induction files as [|file rest IH]; intros s; [done |].
  simpl. destruct (unlinkSync _ _) as [d'|e].
  - rewrite IH. simpl. apply dirsWritten_debug.
  - simpl. apply dirsWritten_debug.
Qed.

(** Rollback never removes a file that is not in the ledger, nor any
    directory above it. *)
Lemma holds_file_cleanup q s :
  holds_file (disk s) q →
  (∀ f, f ∈ filesWritten s → resolve (disk s) f ≠ q) →
  holds_file (disk (final (cleanupWrittenFiles s))) q.
Proof.
  intros Hp Hled. unfold cleanupWrittenFiles.
  pose proof (holds_file_removeFiles q (filesWritten s) s Hp Hled) as H.
  destruct (removeFiles (filesWritten s) s) as [v s1|e s1|s1|s1];
    simpl in *; try done.
  by apply holds_file_removeDirs.
Qed.

(** *** What a run can put into the ledger *)

Lemma unledgered_emit q e s : unledgered q s → unledgered q (emit e s).
Proof. done. Qed.

Lemma unledgered_debug q msg s : unledgered q s → unledgered q (debug msg s).
Proof. unfold debug. by destruct (debugOn s). Qed.

Lemma unledgered_push_dir q p s : unledgered q s → unledgered q (push_dir p s).
Proof. done. Qed.

Lemma unledgered_write_tail q doWrite filePath fullPath content o s :
  unledgered q s →
  unledgered q (final (write_tail doWrite filePath fullPath content o s)).
Proof.
  intros Hinv. unfold write_tail. destruct doWrite; [| done].
  set (s1 := if negb (dontPrune o) && negb (existsSync (disk s) fullPath)
             then push_file fullPath s else s).
  assert (unledgered q s1) as [Hq Hled].
  { subst s1. destruct (negb (dontPrune o)); simpl; [| done].
    destruct (existsSync (disk s) fullPath) eqn:Hex; simpl; [done |].
    destruct Hinv as [Hq Hled]. split; [done |]. simpl.
    intros f [Hf| ->%list_elem_of_singleton]%elem_of_app; [by apply Hled |].
    apply existsSync_false in Hex. destruct Hq as [[c Hc] _]. congruence. }
  destruct (writeFile (disk s1) fullPath content) as [d'|e] eqn:Hw; simpl.
  - apply unledgered_debug. split; simpl.
    + by eapply holds_file_write.
    + intros f Hf. rewrite (resolve_cwd (disk s1)) by by eapply cwd_write.
      by apply Hled.
  - done.
Qed.

(** The body of [confirmWriteFile], one call deep. *)
Lemma util_confirmWriteFile_eq answers filePath content o s :
  confirmWriteFile answers filePath content o s =
  let fullPath := NodePath.join (directory o) filePath in
  let exists_ := Fs.existsSync (disk s) fullPath in
  if negb (update o) && exists_ then (Return JFalse s, answers)
  else if exists_ && update o && negb (force o) then
    match Fs.readFile (disk s) fullPath with
    | Fs.Err e => (Throw (IoError e) s, answers)
    | Fs.Ok existingData =>
        if String.eqb content existingData then (Return JFalse s, answers)
        else
          let s1 := emit (EvPrompt (promptText filePath)) s in
          match answers with
          | [] => (Pending s1, [])
          | Yes :: rest =>
              (write_tail true filePath fullPath content o s1, rest)
          | No :: rest =>
              (write_tail (negb exists_) filePath fullPath content o s1, rest)
          | ShowDiff :: rest =>
              match confirmWriteFile rest filePath content o
                      (tryDiff content existingData s1) with
              | (Return _ s3, rest') =>
                  (write_tail (negb exists_) filePath fullPath content o s3,
                   rest')
              | other => other
              end
          end
    end
  else if force o then
    (write_tail true filePath fullPath content o s, answers)
  else (write_tail (negb exists_) filePath fullPath content o s, answers).
Proof. destruct answers; reflexivity. Qed.

Lemma unledgered_confirmWriteFile q answers filePath content o s :
  unledgered q s →
  unledgered q (final (confirmWriteFile answers filePath content o s).1).
Proof.
  revert s. induction answers as [|a rest IH]; intros s Hinv;
    rewrite util_confirmWriteFile_eq; cbv zeta;
    (destruct (negb (update o) && _); [done |]);
    (destruct (_ && update o && negb (force o));
     [| destruct (force o); by apply unledgered_write_tail]);
    (destruct (readFile _ _) as [existing|e]; [| done]);
    (destruct (String.eqb content existing); [done |]).
  - done.
  - destruct a; cbn [fst final]; try (by apply unledgered_write_tail).
    specialize (IH (tryDiff content existing
                      (emit (EvPrompt (promptText filePath)) s)) Hinv).
    destruct (confirmWriteFile rest filePath content o _)
      as [[v s3|e s3|s3|s3] r]; cbn [fst final] in *; try done.
    by apply unledgered_write_tail.
Qed.

Lemma unledgered_push_parts q dir dirParts i s :
  unledgered q s → unledgered q (push_parts dir dirParts i s).
Proof.
  revert s. induction i as [|j IH]; intros s H; [done |].
  simpl. by apply IH, unledgered_push_dir.
Qed.

Lemma unledgered_mkdir q filePath o s :
  unledgered q s → unledgered q (final (mkdir filePath o s)).
Proof.
  intros [Hq Hled]. unfold mkdir.
  destruct (mkdirp (disk s) _) as [[created d']|e] eqn:Hm; [| done].
  assert (unledgered q (set_disk d' s)) as H.
  { split; simpl; [by eapply holds_file_mkdirp |].
    intros f Hf. rewrite (resolve_cwd (disk s)) by by eapply cwd_mkdirp.
    by apply Hled. }
  destruct created; simpl; [by apply unledgered_push_parts | done].
Qed.

(** Whatever a run does, a file that was there before it started stays
    out of the ledger. *)
Lemma unledgered_run q s0 s :
  run s0 s → unledgered q s0 → unledgered q s.
Proof.
  induction 1 as [|s1 s2 s3 Hcall _ IH]; [done |].
  intros H. apply IH. destruct Hcall.
  - by apply unledgered_confirmWriteFile.
  - by apply unledgered_mkdir.
Qed.

(** *** The inner loop stops at a directory that has entries *)

Lemma removeChain_stops dirParts i s names :
  JsString.truthy (chain_dirPart dirParts i) = true →
  readdirSync (disk s) (chain_dirPart dirParts i) = Ok names →
  names ≠ [] →
  removeChain dirParts i s = Return tt s.
Proof.
  intros Ht Hrd Hne.
  destruct (removeChain_cases dirParts i s)
    as [[Hf _]|[(_ & Hex & _)|[(_ & e & He & _)|[(_ & ns & _ & _ & ->)
        |(_ & Hnil & _)]]]]; try done; try congruence.
  unfold readdirSync in Hrd. unfold existsSync in Hex.
  destruct (lookup (disk s) _) as [[c|]|]; done.
Qed.

Lemma pruned_cleanup s s1 :
  removeFiles (filesWritten s) s = Return tt s1 →
  pruned (disk s1) (disk (final (cleanupWrittenFiles s))).
Proof.
  intros H. unfold cleanupWrittenFiles. rewrite H.
  apply pruned_removeDirs, pruned_refl.
Qed.

End RollbackFacts.

(* ===================================================================== *)
(** ** Rollback safety *)
(* ===================================================================== *)

Module RollbackSafety.
Import Fs Js Util Props FsFacts RollbackFacts.

(** C1. Rollback safety: take any run that starts with an empty ledger
    on a disk holding a file at [q].  After [cleanupWrittenFiles] -
    however it ends - the file is still there and so is every directory
    above it.  Moreover phase 2 only ever removes directories all of
    whose entries are gone ([pruned]), and the upward walk of a chain
    ends, removing nothing more, at the first directory that has an
    entry. *)
Theorem rollback_keeps_user_files (s0 s : state) (q : loc) :
  filesWritten s0 = [] →
  run s0 s →
  holds_file (disk s0) q →
  let s' := final (cleanupWrittenFiles s) in
  holds_file (disk s') q
  ∧ (∀ k, (k < List.length q)%nat → lookup (disk s') (take k q) = Some Dir)
  ∧ (∀ s1, removeFiles (filesWritten s) s = Return tt s1 →
           pruned (disk s1) (disk s'))
  ∧ (∀ dirParts i st names,
        JsString.truthy (chain_dirPart dirParts i) = true →
        readdirSync (disk st) (chain_dirPart dirParts i) = Ok names →
        names ≠ [] →
        removeChain dirParts i st = Return tt st).
Proof.
  intros Hledger Hrun Hq s'.
  assert (unledgered q s) as [Hq' Hled].
  { eapply unledgered_run; [exact Hrun |]. split; [exact Hq |].
    rewrite Hledger. intros f Hf. by apply not_elem_of_nil in Hf. }
  assert (holds_file (disk s') q) as Hfinal by by apply holds_file_cleanup.
  split; [exact Hfinal |]. split; [by destruct Hfinal |].
  split; [intros s1; apply pruned_cleanup |].
  intros dirParts i st names. apply removeChain_stops.
Qed.

(** On the sample run ([mkdir inf/k8s], then a new manifest): [a.txt]
    outlives the rollback. *)
Lemma rollback_keeps_user_files_witness :
  holds_file
    (disk (final (cleanupWrittenFiles Scenario.after_write)))
    ["tmp"; "proj"; "a.txt"].
Proof.
  refine (proj1 (rollback_keeps_user_files
                   (Scenario.fresh Scenario.project_disk)
                   Scenario.after_write ["tmp"; "proj"; "a.txt"] _ _ _)).
  - reflexivity.
  - eapply rtc_l; [apply call_mkdir |].
    eapply rtc_l; [apply call_confirmWriteFile |]. apply rtc_refl.
  - split.
    + exists "old". vm_compute. reflexivity.
    + intros k Hk. destruct k as [|[|[|k]]];
        [vm_compute; reflexivity .. | simpl in Hk; lia].
Defined.

End RollbackSafety.

(* ===================================================================== *)
(** ** Rollback and failing deletions *)
(* ===================================================================== *)

Module RollbackErrors.
Import Fs Js Util Props FsFacts RollbackFacts.

Lemma removeFiles_app pre rest s :
  removeFiles (pre ++ rest) s =
  match removeFiles pre s with
  | Return _ s1 => removeFiles rest s1
  | other => other
  end.
Proof.
  revert s. induction pre as [|f pre IH]; intros s; [done |].
  simpl. destruct (unlinkSync _ f) as [d'|e]; [apply IH | done].
Qed.

(** Phase 1 on a ledger all of whose entries are distinct existing
    regular files: every one of them is deleted, nothing else changes. *)
Lemma removeFiles_all files s :
  NoDup (map (resolve (disk s)) files) →
  (∀ f, f ∈ files → ∃ c, lookup (disk s) (resolve (disk s) f) = Some (File c)) →
  ∃ s1, removeFiles files s = Return tt s1
        ∧ cwd (disk s1) = cwd (disk s)
        ∧ filesWritten s1 = filesWritten s
        ∧ dirsWritten s1 = dirsWritten s
        ∧ (∀ f, f ∈ files → lookup (disk s1) (resolve (disk s) f) = None)
        ∧ (∀ l, l ∉ map (resolve (disk s)) files →
                lookup (disk s1) l = lookup (disk s) l).
Proof.
  revert s. induction files as [|f rest IH]; intros s Hnd Hex.
  - exists s. repeat split; try done. intros f Hf. by apply not_elem_of_nil in Hf.
  - simpl in Hnd. apply NoDup_cons in Hnd as [Hnotin Hnd].
    destruct (Hex f) as [c Hc]; [left |].
    simpl. rewrite disk_debug.
    assert (resolve (disk s) f ≠ []) as Hne by by eapply lookup_file_nonroot.
    assert (unlinkSync (disk s) f
            = Ok (with_nodes (disk s) (delete (resolve (disk s) f) (nodes (disk s)))))
      as Hun.
    { unfold unlinkSync. destruct (resolve (disk s) f) eqn:E; [done |].
      by rewrite Hc. }
    rewrite Hun.
    set (s' := set_disk _ (debug _ s)).
    assert (∀ p, resolve (disk s') p = resolve (disk s) p) as Hres by done.
    destruct (IH s') as (s1 & Hrun & Hcwd & Hfw & Hdw & Hgone & Hsame).
    { erewrite map_ext; [exact Hnd | done]. }
    { intros g Hg. rewrite Hres. destruct (Hex g) as [c' Hc']; [by right |].
      exists c'. subst s'. simpl. rewrite lookup_delete_node by done.
      case_decide as Heq; [| done]. exfalso. apply Hnotin.
      rewrite Heq. apply list_elem_of_fmap. eauto. }
    exists s1. split; [exact Hrun |].
    split; [by rewrite Hcwd |].
    split; [rewrite Hfw; subst s'; simpl; apply filesWritten_debug |].
    split; [rewrite Hdw; subst s'; simpl; apply dirsWritten_debug |].
    split.
    + intros g [-> | Hg]%elem_of_cons.
      * rewrite Hsame.
        -- subst s'. simpl. rewrite lookup_delete_node by done.
           by case_decide.
        -- erewrite map_ext; [exact Hnotin | done].
      * rewrite <- Hres. by apply Hgone.
    + intros l Hl. apply not_elem_of_cons in Hl as [Hl1 Hl2].
      rewrite Hsame.
      * subst s'. simpl. rewrite lookup_delete_node by done.
        case_decide; [congruence | done].
      * erewrite map_ext; [exact Hl2 | done].
Qed.

(** C3, as the code has it.  [cleanupWrittenFiles] does not catch
    anything.  (1) When the ledgered files are distinct existing regular
    files, phase 1 deletes every one of them and rollback goes on with
    phase 2.  (2) The first [unlinkSync] that fails raises its error to
    the caller: the entries after it and all ledgered directories are
    left as they are. *)
Theorem cleanup_has_no_error_handling (s : state) :
  (NoDup (map (resolve (disk s)) (filesWritten s)) →
   (∀ f, f ∈ filesWritten s →
         ∃ c, lookup (disk s) (resolve (disk s) f) = Some (File c)) →
   ∃ s1, removeFiles (filesWritten s) s = Return tt s1
         ∧ (∀ f, f ∈ filesWritten s →
                 lookup (disk s1) (resolve (disk s) f) = None)
         ∧ cleanupWrittenFiles s
           = removeDirs (dirsToRemove (dirsWritten s)) s1)
  ∧ (∀ pre f post s1 e,
        filesWritten s = (pre ++ f :: post)%list →
        removeFiles pre s = Return tt s1 →
        unlinkSync (disk s1) f = Err e →
        cleanupWrittenFiles s
        = Throw (IoError e) (debug ("Removing file " +:+ quoted f) s1)).
Proof.
  split.
  - intros Hnd Hex.
    destruct (removeFiles_all _ s Hnd Hex)
      as (s1 & Hrun & _ & _ & Hdw & Hgone & _).
    exists s1. split; [done |]. split; [done |].
    unfold cleanupWrittenFiles. by rewrite Hrun, Hdw.
  - intros pre f post s1 e Hled Hpre Hun.
    unfold cleanupWrittenFiles. rewrite Hled, removeFiles_app, Hpre.
    simpl. rewrite disk_debug, Hun. reflexivity.
Qed.

(** Both cases on sample ledgers: every ledgered file present, and a
    ledgered file that is gone. *)
Lemma cleanup_has_no_error_handling_witness :
  (∃ s1, removeFiles (filesWritten Scenario.after_write) Scenario.after_write
         = Return tt s1
         ∧ (∀ f, f ∈ filesWritten Scenario.after_write →
                 lookup (disk s1) (resolve (disk Scenario.after_write) f) = None)
         ∧ cleanupWrittenFiles Scenario.after_write
           = removeDirs (dirsToRemove (dirsWritten Scenario.after_write)) s1)
  ∧ cleanupWrittenFiles Scenario.stale_ledger
    = Throw (IoError ENOENT)
        (debug ("Removing file " +:+ quoted "/tmp/proj/gone.txt")
           Scenario.stale_ledger).
Proof.
  split.
  - apply (proj1 (cleanup_has_no_error_handling Scenario.after_write)).
    + vm_compute. apply NoDup_cons. split; [apply not_elem_of_nil | apply NoDup_nil_2].
    + intros f Hf. vm_compute in Hf.
      apply list_elem_of_singleton in Hf as ->.
      eexists. vm_compute. reflexivity.
  - apply (proj2 (cleanup_has_no_error_handling Scenario.stale_ledger)
             [] "/tmp/proj/gone.txt" ["/tmp/proj/a.txt"]);
      vm_compute; reflexivity.
Defined.

(** C3, as stated, fails: with a ledgered file that is no longer on
    disk, rollback raises [ENOENT] to its caller, and the ledgered file
    after it is never deleted. *)
Lemma cleanup_raises_and_skips_the_rest :
  ∃ s', cleanupWrittenFiles Scenario.stale_ledger = Throw (IoError ENOENT) s'
        ∧ In "/tmp/proj/a.txt" (filesWritten Scenario.stale_ledger)
        ∧ lookup (disk s') ["tmp"; "proj"; "a.txt"] = Some (File "old").
Proof.
  eexists. split; [vm_compute; reflexivity |].
  split; [right; left; reflexivity | vm_compute; reflexivity].
Qed.

End RollbackErrors.

(* ===================================================================== *)
(** ** Directory provisioning *)
(* ===================================================================== *)

Module MkdirFacts.
Import Fs Js Util Props FsFacts RollbackFacts.

Lemma with_nodes_id d : with_nodes d (nodes d) = d.
Proof. by destruct d. Qed.

Lemma set_disk_id s : set_disk (disk s) s = s.
Proof. by destruct s. Qed.

(** The loop of [mkdir] appends one entry per index, from the longest
    prefix down to the first segment, and touches nothing else. *)
Lemma push_parts_spec dir dirParts i s :
  push_parts dir dirParts i s
  = State (disk s) (filesWritten s)
      (dirsWritten s
       ++ map (λ j, NodePath.join dir
                      (JsString.join NodePath.sep (take j dirParts)))
              (rev (seq 1 i)))%list
      (debugOn s) (trace s).
Proof.
  revert s. induction i as [|j IH]; intros s.
  - simpl. rewrite app_nil_r. by destruct s.
  - cbn [push_parts]. rewrite IH. unfold push_dir.
    cbn [disk filesWritten dirsWritten debugOn trace].
    rewrite seq_S, rev_app_distr. cbn [rev app map Nat.add].
    by rewrite <- app_assoc.
Qed.

(** C6, as the code has it.  [mkdir] does not look at the segments one
    by one.  (1) When the whole path is already there, nothing is
    created and nothing is recorded.  (2) As soon as [mkdirp] had to
    create something, one entry is recorded for every segment of the
    given path - the ones that existed before included - from the full
    path down to its first segment. *)
Theorem mkdir_records_all_or_nothing (filePath : string) (o : options)
    (s : state) :
  let fullPath := NodePath.join (directory o) filePath in
  let dirParts :=
    JsString.split NodePath.sep_char (JsString.replace "./" "" filePath) in
  ((∀ i, (0 < i ≤ List.length (resolve (disk s) fullPath))%nat →
         nodes (disk s) !! take i (resolve (disk s) fullPath) = Some Dir) →
   mkdir filePath o s = Return None s)
  ∧ (∀ made d',
        mkdirp (disk s) fullPath = Ok (made, d') →
        (∃ i, (0 < i ≤ List.length (resolve (disk s) fullPath))%nat ∧
              nodes (disk s) !! take i (resolve (disk s) fullPath) = None) →
        ∃ first,
          made = Some first ∧
          mkdir filePath o s
          = Return (Some first)
              (State d' (filesWritten s)
                 (dirsWritten s ++ dir_entries (directory o) dirParts)%list
                 (debugOn s) (trace s))).
Proof.
  intros fullPath dirParts. split.
  - intros Hall. unfold mkdir, mkdirp. fold fullPath.
    rewrite (mkdirp_from_present (nodes (disk s)) [] _ Hall).
    by rewrite with_nodes_id, set_disk_id.
  - intros made d' Hm Hmiss.
    assert (is_Some made) as [first ->].
    { unfold mkdirp in Hm.
      destruct (mkdirp_from _ _ _ _) as [[made' m']|e] eqn:E; [| done].
      injection Hm as <- <-. eapply mkdirp_from_missing; [exact E | exact Hmiss]. }
    exists first. split; [done |].
    unfold mkdir. fold fullPath. rewrite Hm. fold dirParts.
    by rewrite push_parts_spec.
Qed.

(** Both cases on the project that already has [inf]: the second
    [mkdir] of the same path records nothing, the first one records
    both segments. *)
Lemma mkdir_records_all_or_nothing_witness :
  mkdir "inf/k8s" Scenario.interactive
    (final (mkdir "inf/k8s" Scenario.interactive
              (Scenario.fresh Scenario.inf_project_disk)))
  = Return None
      (final (mkdir "inf/k8s" Scenario.interactive
                (Scenario.fresh Scenario.inf_project_disk)))
  ∧ ∃ first d',
      mkdir "inf/k8s" Scenario.interactive
        (Scenario.fresh Scenario.inf_project_disk)
      = Return (Some first)
          (State d' [] ["/tmp/proj/inf/k8s"; "/tmp/proj/inf"] false []).
Proof.
  split.
  - apply (proj1 (mkdir_records_all_or_nothing "inf/k8s" Scenario.interactive
                    (final (mkdir "inf/k8s" Scenario.interactive
                              (Scenario.fresh Scenario.inf_project_disk))))).
    intros i Hi. vm_compute in Hi.
    destruct i as [|[|[|[|[|i]]]]]; try lia; vm_compute; reflexivity.
  - destruct (mkdirp (disk (Scenario.fresh Scenario.inf_project_disk))
                (NodePath.join (directory Scenario.interactive) "inf/k8s"))
      as [[made d']|e] eqn:Hm; [| vm_compute in Hm; discriminate].
    destruct (proj2 (mkdir_records_all_or_nothing "inf/k8s"
                       Scenario.interactive
                       (Scenario.fresh Scenario.inf_project_disk))
                made d' Hm) as (first & _ & Heq).
    + exists 4%nat. split; [vm_compute; lia | vm_compute; reflexivity].
    + exists first, d'. exact Heq.
Defined.

(** C6, as stated, fails: [/tmp/proj/inf] exists before the call
    [mkdir("inf/k8s")], and is recorded in the ledger all the same. *)
Lemma mkdir_records_existing_directory :
  lookup Scenario.inf_project_disk
    (resolve Scenario.inf_project_disk "/tmp/proj/inf") = Some Dir
  ∧ In "/tmp/proj/inf"
       (dirsWritten (final (mkdir "inf/k8s" Scenario.interactive
                              (Scenario.fresh Scenario.inf_project_disk)))).
Proof.
  split; [vm_compute; reflexivity |]. vm_compute. right. left. reflexivity.
Qed.

End MkdirFacts.

(* ===================================================================== *)
(** ** Paths as strings *)
(* ===================================================================== *)

Module PathFacts.
Import Fs Props.

Lemma split_no_sep c s :
  has_char c s = false → JsString.split c s = [s].
Proof.
  induction s as [|x r IH]; [done |]. simpl.
  intros [Hx Hr]%orb_false_iff. rewrite Hx, (IH Hr). done.
Qed.

Lemma split_app_sep c a b :
  has_char c a = false →
  JsString.split c (a +:+ String c b) = a :: JsString.split c b.
Proof.
  induction a as [|x r IH]; simpl.
  - intros _. by rewrite Ascii.eqb_refl.
  - intros [Hx Hr]%orb_false_iff. rewrite Hx, (IH Hr). done.
Qed.

Lemma simple_no_sep seg : simple seg = true → has_char NodePath.sep_char seg = false.
Proof.
  unfold simple. intros H. apply andb_prop in H as [_ H].
  by apply negb_true_iff in H.
Qed.

Lemma split_join segs :
  Forall (λ x, simple x = true) segs → segs ≠ [] →
  JsString.split NodePath.sep_char (JsString.join NodePath.sep segs) = segs.
Proof.
  induction 1 as [|x r Hx Hr IH]; [done |]. intros _.
  destruct r as [|y r].
  - simpl. by apply split_no_sep, simple_no_sep.
  - change (JsString.join NodePath.sep (x :: y :: r))
      with (x +:+ String NodePath.sep_char (JsString.join NodePath.sep (y :: r))).
    rewrite split_app_sep by by apply simple_no_sep.
    by rewrite IH.
Qed.

Lemma walk_segments_simple acc segs :
  Forall (λ x, simple x = true) segs →
  walk_segments acc segs = (acc ++ segs)%list.
Proof.
  intros H. revert acc. induction H as [|x r Hx Hr IH]; intros acc.
  - by rewrite app_nil_r.
  - simpl. unfold simple in Hx.
    apply andb_prop in Hx as [Hx _]. apply andb_prop in Hx as [Hx H3].
    apply andb_prop in Hx as [H1 H2].
    apply negb_true_iff in H1, H2, H3. rewrite H1, H2, H3. simpl.
    rewrite IH. by rewrite <- app_assoc.
Qed.

(** An absolute path of ordinary names resolves to its segments. *)
Lemma resolve_absolute d segs :
  Forall (λ x, simple x = true) segs → segs ≠ [] →
  resolve d (absolute segs) = segs.
Proof.
  intros Hs Hne. unfold resolve, absolute.
  change (NodePath.isAbsolute ("/" +:+ JsString.join NodePath.sep segs))
    with true.
  change (JsString.split NodePath.sep_char ("/" +:+ JsString.join NodePath.sep segs))
    with ("" :: JsString.split NodePath.sep_char (JsString.join NodePath.sep segs)).
  rewrite split_join by done. simpl. by apply walk_segments_simple.
Qed.

Lemma split_absolute segs :
  Forall (λ x, simple x = true) segs → segs ≠ [] →
  JsString.split NodePath.sep_char (absolute segs) = "" :: segs.
Proof.
  intros Hs Hne. unfold absolute.
  change (JsString.split NodePath.sep_char ("/" +:+ JsString.join NodePath.sep segs))
    with ("" :: JsString.split NodePath.sep_char (JsString.join NodePath.sep segs)).
  by rewrite split_join.
Qed.

(** The directory the inner loop of rollback tries at index [S (S k)]. *)
Lemma chain_dirPart_absolute segs k :
  (k < List.length segs)%nat →
  chain_dirPart ("" :: segs) (S (S k)) = absolute (take (S k) segs).
Proof.
  intros Hk. unfold chain_dirPart, absolute.
  destruct segs as [|x r]; [simpl in Hk; lia |]. reflexivity.
Qed.

End PathFacts.

(* ===================================================================== *)
(** ** How far the rollback walk climbs *)
(* ===================================================================== *)

Module RollbackReach.
Import Fs Js Util Props FsFacts RollbackFacts PathFacts.

Lemma removeChain_eq dirParts i s :
  removeChain dirParts i s =
  let dirPart := chain_dirPart dirParts i in
  if negb (JsString.truthy dirPart) then chain_next dirParts i s
  else if existsSync (disk s) dirPart then
    match readdirSync (disk s) dirPart with
    | Err e => Throw (IoError e) s
    | Ok names =>
        if (List.length names =? 0)%nat then
          let s1 := debug ("Removing directory " +:+ quoted dirPart) s in
          match rmdirSync (disk s1) dirPart with
          | Ok d' => chain_next dirParts i (set_disk d' s1)
          | Err e => Throw (IoError e) s1
          end
        else Return tt s
    end
  else Return tt s.
Proof. destruct i; reflexivity. Qed.

Lemma chain_above_dir d segs j k :
  chain_above d segs j = true → (j < k ≤ List.length segs)%nat →
  nodes d !! take k segs = Some Dir.
Proof.
  unfold chain_above. intros [H _]%andb_prop Hk.
  rewrite forallb_forall in H. specialize (H k). rewrite in_seq in H.
  destruct (andb_prop _ _ (H ltac:(lia))) as [Hd _].
  by apply bool_decide_eq_true in Hd.
Qed.

Lemma chain_above_entry d segs j k l :
  chain_above d segs j = true → (j < k ≤ List.length segs)%nat →
  is_entry (take k segs) l = true → is_Some (nodes d !! l) →
  (k < List.length segs)%nat ∧ l = take (S k) segs.
Proof.
  unfold chain_above. intros [H _]%andb_prop Hk He Hl.
  rewrite forallb_forall in H. specialize (H k). rewrite in_seq in H.
  destruct (andb_prop _ _ (H ltac:(lia))) as [_ Hall].
  rewrite forallb_forall in Hall. specialize (Hall l).
  destruct (andb_prop _ _ (Hall ltac:(apply list_elem_of_In, elem_of_entries; done)))
    as [H1 H2].
  apply Nat.ltb_lt in H1. by apply bool_decide_eq_true in H2.
Qed.

Lemma chain_above_floor d segs j :
  chain_above d segs (S j) = true →
  nodes d !! take (S j) segs = Some Dir
  ∧ ∃ l, is_entry (take (S j) segs) l = true ∧ is_Some (nodes d !! l)
         ∧ l ≠ take (S (S j)) segs.
Proof.
  unfold chain_above. intros [_ H]%andb_prop.
  apply andb_prop in H as [Hd He]. apply bool_decide_eq_true in Hd.
  split; [done |]. apply existsb_exists in He as (l & Hin & Hl).
  apply list_elem_of_In, elem_of_entries in Hin as [Hsome Hentry].
  exists l. repeat split; try done.
  apply negb_true_iff, bool_decide_eq_false in Hl. done.
Qed.

Lemma take_inj_length (segs : list string) (a b : nat) :
  (a ≤ List.length segs)%nat → (b ≤ List.length segs)%nat →
  take a segs = take b segs → a = b.
Proof.
  intros Ha Hb H. apply (f_equal List.length) in H.
  rewrite !length_take in H. lia.
Qed.

(** The walk over an absolute chain, started at depth [m] once that
    directory is empty: it removes the directories from depth [m] up
    to depth [j + 1] and ends at depth [j], which is either the
    filesystem root ([j = 0]) or a directory that has another entry. *)
Lemma removeChain_until segs j m s :
  Forall (λ x, simple x = true) segs →
  (j ≤ m ≤ List.length segs)%nat →
  (∀ k, (j < k ≤ m)%nat → nodes (disk s) !! take k segs = Some Dir) →
  ((j < m)%nat → entries (disk s) (take m segs) = []) →
  (∀ k l, (j < k < m)%nat → is_entry (take k segs) l = true →
          is_Some (nodes (disk s) !! l) → l = take (S k) segs) →
  (j = 0%nat ∨
   (nodes (disk s) !! take j segs = Some Dir
    ∧ ∃ l, is_entry (take j segs) l = true ∧ is_Some (nodes (disk s) !! l)
           ∧ ∀ k, (j < k ≤ m)%nat → l ≠ take k segs)) →
  ∃ s', removeChain ("" :: segs) (S m) s = Return tt s'
        ∧ (∀ k, (j < k ≤ m)%nat → nodes (disk s') !! take k segs = None)
        ∧ (∀ l, (∀ k, (j < k ≤ m)%nat → l ≠ take k segs) →
                nodes (disk s') !! l = nodes (disk s) !! l).
Proof.
  intros Hs. revert s. induction m as [|m' IH];
    intros s Hm Hdirs Hempty Honly Hfloor.
  - exists s. split; [reflexivity |]. split; [intros; lia | done].
  - destruct (decide (j = S m')) as [-> | Hjm].
    + (* the walk starts at the floor: it ends at once *)
      destruct Hfloor as [? | (Hdir & l & Hl & Hsome & _)]; [lia |].
      exists s. split; [| split; [intros; lia | done]].
      assert (take (S m') segs ≠ []) as Hne.
      { destruct segs; [simpl in Hm; lia | done]. }
      assert (resolve (disk s) (absolute (take (S m') segs)) = take (S m') segs)
        as Hres by (apply resolve_absolute; [by apply Forall_take | done]).
      eapply (removeChain_stops _ _ _ (entries (disk s) (take (S m') segs))).
      * by rewrite chain_dirPart_absolute by lia.
      * rewrite chain_dirPart_absolute by lia.
        rewrite readdirSync_dir; rewrite Hres; [done |].
        by rewrite lookup_nonroot.
      * intros Hnil. pose proof (entries_nil _ _ _ Hnil Hl) as Hnone.
        rewrite Hnone in Hsome. by destruct Hsome.
    + rewrite removeChain_eq. cbv zeta.
      rewrite chain_dirPart_absolute by lia.
      set (here := take (S m') segs).
      assert (here ≠ []) as Hne.
      { subst here. destruct segs; [simpl in Hm; lia | done]. }
      assert (resolve (disk s) (absolute here) = here) as Hres.
      { apply resolve_absolute; [| done]. by apply Forall_take. }
      change (JsString.truthy (absolute here)) with true. cbn [negb].
      assert (lookup (disk s) here = Some Dir) as Hdir.
      { rewrite lookup_nonroot by done. apply Hdirs. lia. }
      assert (entries (disk s) here = []) as Hent by (apply Hempty; lia).
      assert (existsSync (disk s) (absolute here) = true) as ->.
      { apply existsSync_true. rewrite Hres, Hdir. eauto. }
      rewrite readdirSync_dir by by rewrite Hres.
      rewrite Hres, Hent. cbn [List.length Nat.eqb]. rewrite disk_debug.
      rewrite rmdirSync_empty by by rewrite Hres.
      rewrite Hres. cbn [chain_next].
      set (s2 := set_disk _ _).
      assert (nodes (disk s2) = delete here (nodes (disk s))) as Hnodes by done.
      destruct (IH s2) as (s' & Hrun & Hgone & Hsame).
      * lia.
      * intros k Hk. rewrite Hnodes, lookup_delete_ne; [apply Hdirs; lia |].
        subst here. intros Heq. apply take_inj_length in Heq; lia.
      * intros Hj. apply entries_nil_iff. intros l Hl. rewrite Hnodes.
        rewrite lookup_delete. case_decide; [done |].
        destruct (nodes (disk s) !! l) eqn:E; [| done].
        exfalso. assert (l = here) by (apply (Honly m' l); eauto; lia). done.
      * intros k l Hk Hl [n Hn]. rewrite Hnodes in Hn.
        apply lookup_delete_Some in Hn as [_ Hn]. apply (Honly k l); eauto. lia.
      * destruct Hfloor as [-> | (Hdj & l & Hl & [n Hn] & Hoff)]; [by left |].
        right. rewrite Hnodes. split.
        -- rewrite lookup_delete_ne; [done |]. subst here.
           intros Heq. apply take_inj_length in Heq; lia.
        -- exists l. split; [done |]. split.
           ++ exists n. rewrite lookup_delete_ne; [done |].
              intros Heq. by apply (Hoff (S m') ltac:(lia)).
           ++ intros k Hk. apply Hoff. lia.
      * exists s'. split; [exact Hrun |]. split.
        -- intros k Hk. destruct (decide (k = S m')) as [-> | Hkj].
           ++ rewrite Hsame, Hnodes; [apply lookup_delete_eq |].
              intros k Hk' Heq. apply take_inj_length in Heq; lia.
           ++ apply Hgone. lia.
        -- intros l Hl. rewrite Hsame by (intros k Hk; apply Hl; lia).
           rewrite Hnodes. apply lookup_delete_ne.
           intros Heq. by apply (Hl (S m') ltac:(lia)).
Qed.

Lemma dirsToRemove_single dir : dirsToRemove [dir] = [dir].
Proof.
  unfold dirsToRemove. simpl. rewrite String.eqb_refl.
  by rewrite bool_decide_eq_true_2.
Qed.

(** Phase 2 on an absolute entry.  For a ledgered directory
    [/s1/.../sn] whose chain is bare below depth [j], the iteration
    for it removes the directories of depth [j + 1 .. n] - ledgered
    or not - and nothing else; it stops at depth [j], which is the
    filesystem root ([j = 0]) or the first directory that has
    another entry, and phase 2 goes on with the remaining entries.
    The project directory plays no part in it. *)
Lemma absolute_chain_is_climbed (s : state) (segs : list string)
    (j : nat) :
  Forall (λ x, simple x = true) segs →
  (j < List.length segs)%nat →
  JsString.replace "./" "" (absolute segs) = absolute segs →
  chain_above (disk s) segs j = true →
  ∃ s', (∀ rest, removeDirs (absolute segs :: rest) s = removeDirs rest s')
        ∧ (∀ k, (j < k ≤ List.length segs)%nat →
                lookup (disk s') (take k segs) = None)
        ∧ (∀ l, (∀ k, (j < k ≤ List.length segs)%nat → l ≠ take k segs) →
                lookup (disk s') l = lookup (disk s) l)
        ∧ (filesWritten s = [] → dirsWritten s = [absolute segs] →
           cleanupWrittenFiles s = Return tt s').
Proof.
  intros Hs Hj Hrep Hchain.
  assert (segs ≠ []) as Hne by (destruct segs; [simpl in Hj; lia | done]).
  destruct (removeChain_until segs j (List.length segs) s Hs)
    as (s' & Hrun & Hgone & Hsame).
  - lia.
  - intros k Hk. by eapply chain_above_dir.
  - intros _. apply entries_nil_iff. intros l Hl.
    destruct (nodes (disk s) !! l) eqn:E; [| done]. exfalso.
    destruct (chain_above_entry (disk s) segs j (List.length segs) l Hchain
                ltac:(split; [exact Hj | reflexivity]) Hl);
      [eauto | lia].
  - intros k l Hk Hl Hsome.
    by destruct (chain_above_entry (disk s) segs j k l Hchain ltac:(lia) Hl Hsome).
  - destruct j as [|j']; [by left | right].
    destruct (chain_above_floor _ _ _ Hchain) as (Hd & l & Hl & Hsome & Hnext).
    split; [done |]. exists l. repeat split; try done.
    intros k Hk Heq. apply is_entry_spec in Hl as [Hlen _].
    rewrite Heq, !length_take in Hlen.
    assert (k = S (S j')) as -> by lia. done.
  - assert (∀ rest, removeDirs (absolute segs :: rest) s = removeDirs rest s')
      as Hiter.
    { intros rest. cbn [removeDirs].
      rewrite Hrep, split_absolute by done. cbn [List.length].
      by rewrite Hrun. }
    exists s'. split; [exact Hiter |]. split; [| split].
    + intros k Hk. rewrite lookup_nonroot; [by apply Hgone |].
      destruct segs, k; simpl in *; try done; lia.
    + intros [|x l] Hl; [done |]. simpl. by apply Hsame.
    + intros Hfw Hdw. unfold cleanupWrittenFiles. rewrite Hfw.
      cbn [removeFiles]. rewrite Hdw, dirsToRemove_single. apply Hiter.
Qed.

End RollbackReach.

(* ===================================================================== *)
(** ** Reconciliation in the utility module *)
(* ===================================================================== *)

Module ReconcileFacts.
Import Fs Js Util Props FsFacts RollbackFacts.

Lemma disk_ledgered fullPath o s : disk (ledgered fullPath o s) = disk s.
Proof. unfold ledgered. by destruct (_ && _). Qed.

Lemma write_tail_true filePath fullPath content o s :
  write_tail true filePath fullPath content o s =
  match writeFile (disk s) fullPath content with
  | Ok d' =>
      Return JTrue (debug (wroteText filePath)
                      (set_disk d' (ledgered fullPath o s)))
  | Err _ => fatal ("Error writing " +:+ filePath) (ledgered fullPath o s)
  end.
Proof.
  unfold write_tail. fold (ledgered fullPath o s).
  by rewrite disk_ledgered.
Qed.

(** A write that returns has stored the desired content. *)
Lemma write_tail_true_Return filePath fullPath content o s v s' :
  write_tail true filePath fullPath content o s = Return v s' →
  v = JTrue
  ∧ lookup (disk s') (resolve (disk s') fullPath) = Some (File content).
Proof.
  rewrite write_tail_true.
  destruct (writeFile (disk s) fullPath content) as [d'|e] eqn:Hw; [| done].
  intros [= <- <-]. split; [done |]. rewrite disk_debug. simpl.
  apply writeFile_Ok in Hw as (Hne & _ & ->).
  rewrite resolve_with_nodes, lookup_insert_node by done.
  by rewrite decide_True.
Qed.

(** With [force] off, a target that already holds the desired content
    is left alone: no prompt, no write, [false]. *)
Lemma confirmWriteFile_same answers filePath content o s :
  force o = false →
  lookup (disk s) (resolve (disk s) (NodePath.join (directory o) filePath))
  = Some (File content) →
  confirmWriteFile answers filePath content o s = (Return JFalse s, answers).
Proof.
  intros Hf Hl. rewrite util_confirmWriteFile_eq. cbv zeta.
  assert (existsSync (disk s) (NodePath.join (directory o) filePath) = true)
    as -> by (apply existsSync_true; eauto).
  rewrite Hf, (readFile_file _ _ _ Hl), String.eqb_refl.
  by destruct (update o).
Qed.

(** C10. The user answers "Show diff" and then "Yes": the recursive
    call writes the file and resolves to [true], but its result is
    dropped and the outer call, whose [doWrite] is still [false],
    resolves to [undefined]. *)
Theorem showdiff_then_accept_resolves_undefined
    (filePath content : string) (o : options) (s : state)
    (existing : string) (rest : list answer) :
  let fullPath := NodePath.join (directory o) filePath in
  update o = true →
  force o = false →
  lookup (disk s) (resolve (disk s) fullPath) = Some (File existing) →
  lookup (disk s) (parent (resolve (disk s) fullPath)) = Some Dir →
  content ≠ existing →
  ∃ s',
    confirmWriteFile (ShowDiff :: Yes :: rest) filePath content o s
    = (Return JUndefined s', rest)
    ∧ confirmWriteFile (Yes :: rest) filePath content o
        (tryDiff content existing (emit (EvPrompt (promptText filePath)) s))
      = (Return JTrue s', rest)
    ∧ readFile (disk s') fullPath = Ok content
    ∧ filesWritten s' = filesWritten s.
Proof.
  intros fullPath Hu Hf Hfile Hpar Hneq.
  assert (resolve (disk s) fullPath ≠ []) as Hne
    by by eapply lookup_file_nonroot.
  set (s2 := tryDiff content existing (emit (EvPrompt (promptText filePath)) s)).
  assert (existsSync (disk s) fullPath = true) as Hex
    by (apply existsSync_true; eauto).
  assert (String.eqb content existing = false) as Hneqb
    by by apply String.eqb_neq.
  set (d' := with_nodes (disk s)
               (<[resolve (disk s) fullPath := File content]> (nodes (disk s)))).
  set (s3 := emit (EvPrompt (promptText filePath)) s2).
  set (s' := debug (wroteText filePath) (set_disk d' s3)).
  assert (confirmWriteFile (Yes :: rest) filePath content o s2
          = (Return JTrue s', rest)) as Hinner.
  { rewrite util_confirmWriteFile_eq. cbv zeta. fold fullPath.
    change (disk s2) with (disk s).
    rewrite Hex, Hu, Hf, (readFile_file _ _ _ Hfile), Hneqb. cbn [negb andb].
    rewrite write_tail_true. fold s3. change (disk s3) with (disk s).
    rewrite writeFile_over; [| done | done | by rewrite Hfile].
    unfold ledgered. change (disk s3) with (disk s).
    rewrite Hex, andb_false_r. reflexivity. }
  exists s'. split; [| split; [exact Hinner | split]].
  - rewrite util_confirmWriteFile_eq. cbv zeta. fold fullPath.
    rewrite Hex, Hu, Hf, (readFile_file _ _ _ Hfile), Hneqb. cbn [negb andb].
    fold s2. rewrite Hinner. reflexivity.
  - subst s'. rewrite disk_debug. cbn [disk set_disk].
    apply readFile_file. subst d'.
    rewrite resolve_with_nodes, lookup_insert_node by done.
    by rewrite decide_True.
  - subst s'. by rewrite filesWritten_debug.
Qed.

(** On the sample project, for [a.txt]. *)
Lemma showdiff_then_accept_resolves_undefined_witness :
  ∃ s',
    confirmWriteFile [ShowDiff; Yes] "a.txt" "new" Scenario.interactive
      (Scenario.fresh Scenario.project_disk)
    = (Return JUndefined s', [])
    ∧ readFile (disk s') "/tmp/proj/a.txt" = Ok "new".
Proof.
  destruct (showdiff_then_accept_resolves_undefined "a.txt" "new"
              Scenario.interactive (Scenario.fresh Scenario.project_disk)
              "old" [])
    as (s' & H1 & _ & H3 & _).
  - reflexivity.
  - reflexivity.
  - vm_compute. reflexivity.
  - vm_compute. reflexivity.
  - discriminate.
  - exists s'. split; [exact H1 | exact H3].
Defined.

End ReconcileFacts.

(* ===================================================================== *)
(** ** Reconciliation inside [deployNodeApp] *)
(* ===================================================================== *)

Module DeployFacts.
Import Fs Js Deploy Props FsFacts.

Section Reconciler.

Variables cwd dirname : string.
Variable safeLoad : string -> option Lodash.value.
Variable safeDump : Lodash.value -> option string.
Variable toLength : Lodash.value -> Js.error + nat.
Variable o : opts.

(** The body of [confirmWriteFile], one call deep. *)
Lemma deploy_confirmWriteFile_eq answers filePath a s :
  Deploy.confirmWriteFile cwd dirname safeLoad safeDump toLength
      o answers filePath a s =
  let fullPath := NodePath.join cwd filePath in
  match Deploy.loadTemplate dirname safeLoad safeDump toLength a s with
  | (inl e, s1) => (Throw e s1, answers)
  | (inr template, s1) =>
      if JsString.truthy_opt (content a)
         && JsString.truthy_opt (templatePath a) then
        (Throw (Error "Provide only one of content, templatePath") s1,
         answers)
      else
        let desired := JsString.or_else (content a) template in
        let '(r, s2) := read fullPath s1 in
        let existingContent :=
          match r with Fs.Ok c => Some c | Fs.Err _ => None end in
        if opt_overwrite o then
          (Deploy.finish o true filePath fullPath a desired s2, answers)
        else if negb (bool_decide (output a = Some "-"))
                && bool_decide (existingContent = desired) then
          (Return JFalse s2, answers)
        else if JsString.truthy_opt existingContent && prompts o
                && negb (silence o) then
          let s3 :=
            emit (EvPrompt ("Would you like to overwrite "
                            +:+ quoted filePath +:+ "?")) s2 in
          match answers with
          | [] => (Pending s3, [])
          | Yes :: rest =>
              (Deploy.finish o true filePath fullPath a desired s3, rest)
          | No :: rest =>
              (Deploy.finish o false filePath fullPath a desired s3, rest)
          | ShowDiff :: rest =>
              match read fullPath s3 with
              | (Fs.Err e, s4) => (Throw (IoError e) s4, rest)
              | (Fs.Ok existing, s4) =>
                  match desired with
                  | None => (Throw (Error "TypeError") s4, rest)
                  | Some shown =>
                      let s5 := emit (EvDiff existing shown) s4 in
                      match Deploy.confirmWriteFile cwd dirname safeLoad safeDump toLength
                          o rest filePath
                              (Args (content a) (templatePath a) None
                                    (properties a)) s5 with
                      | (Return _ s6, rest') =>
                          (Deploy.finish o false filePath fullPath a desired s6,
                           rest')
                      | other => other
                      end
                  end
              end
          end
        else if JsString.truthy_opt existingContent && negb (prompts o) then
          (Deploy.finish o false filePath fullPath a desired
             (log o ("Refusing to overwrite " +:+ quoted filePath
                   +:+ "... Continuing... (Use --overwrite to ignore this check)")
                  s2),
           answers)
        else if negb (JsString.truthy_opt existingContent) then
          (Deploy.finish o true filePath fullPath a desired s2, answers)
        else (Deploy.finish o false filePath fullPath a desired s2, answers)
  end.
Proof. destruct answers; reflexivity. Qed.

(** Loading the template reads at most the template file: the disk
    is untouched and the trace grows by that single read. *)
Lemma loadTemplate_state a s r s1 :
  Deploy.loadTemplate dirname safeLoad safeDump toLength a s = (r, s1) →
  disk s1 = disk s
  ∧ (s1 = s ∨ ∃ tp, templatePath a = Some tp ∧ JsString.truthy tp = true
                    ∧ s1 = emit (EvRead (NodePath.join dirname tp)) s).
Proof.
  unfold Deploy.loadTemplate.
  destruct (templatePath a) as [tp|]; [| intros [= <- <-]; auto].
  destruct (JsString.truthy tp) eqn:Ht; [| intros [= <- <-]; auto].
  unfold read.
  assert (∀ x, x = emit (EvRead (NodePath.join dirname tp)) s →
               disk x = disk s
               ∧ (x = s ∨ ∃ tp0, Some tp = Some tp0
                                 ∧ JsString.truthy tp0 = true
                                 ∧ x = emit (EvRead (NodePath.join dirname tp0)) s))
    as Hgoal by (intros x ->; split; [done | right; eauto]).
  destruct (readFile (disk s) (NodePath.join dirname tp)) as [text|e];
    [| intros [= <- <-]; by apply Hgoal].
  destruct (properties a) as [props|]; [| intros [= <- <-]; by apply Hgoal].
  destruct (JsString.endsWith ".yaml" tp); [| intros [= <- <-]; by apply Hgoal].
  destruct (safeLoad text) as [doc|]; [| intros [= <- <-]; by apply Hgoal].
  destruct (Lodash.merge _ _ _) as [e|merged];
    [intros [= <- <-]; by apply Hgoal |].
  destruct (safeDump _) as [dumped|]; intros [= <- <-]; by apply Hgoal.
Qed.

Lemma loadTemplate_none a s :
  JsString.truthy_opt (templatePath a) = false →
  Deploy.loadTemplate dirname safeLoad safeDump toLength
      a s = (inr None, s).
Proof.
  unfold Deploy.loadTemplate. destruct (templatePath a) as [tp|]; [| done].
  simpl. by intros ->.
Qed.

Lemma log_silent msg s : silence o = true → log o msg s = s.
Proof. unfold log. by intros ->. Qed.

(** What the last block does when the content goes to stdout. *)
Lemma finish_stdout doWrite filePath fullPath a text s :
  output a = Some "-" → silence o = true → JsString.truthy text = true →
  Deploy.finish o doWrite filePath fullPath a (Some text) s
  = Return JTrue (emit (EvStdout (text +:+ newline)) s).
Proof.
  intros Hout Hsil Ht. unfold Deploy.finish.
  rewrite Hout, bool_decide_eq_true_2 by done.
  rewrite andb_false_r, Ht. by rewrite log_silent.
Qed.

(** What the last block does when it writes to disk. *)
Lemma finish_disk filePath fullPath a text s d' :
  output a ≠ Some "-" → JsString.truthy text = true →
  writeFile (disk s) fullPath text = Ok d' →
  Deploy.finish o true filePath fullPath a (Some text) s
  = Return JTrue
      (log o ("Successfully "
              +:+ (if JsString.truthy_opt (content a)
                   then "wrote" else "wrote from template")
              +:+ " " +:+ quoted filePath) (set_disk d' s)).
Proof.
  intros Hout Ht Hw. unfold Deploy.finish.
  rewrite bool_decide_eq_false_2 by done. cbn [negb andb].
  by rewrite Ht, Hw.
Qed.

(** With [overwrite] set, the desired content is written whatever
    the target holds. *)
Lemma overwrite_writes answers filePath a s template s1 text d' :
  opt_overwrite o = true →
  Deploy.loadTemplate dirname safeLoad safeDump toLength
      a s = (inr template, s1) →
  JsString.truthy_opt (content a) && JsString.truthy_opt (templatePath a)
  = false →
  JsString.or_else (content a) template = Some text →
  JsString.truthy text = true →
  output a ≠ Some "-" →
  writeFile (disk s1) (NodePath.join cwd filePath) text = Ok d' →
  Deploy.confirmWriteFile cwd dirname safeLoad safeDump toLength
      o answers filePath a s
  = (Return JTrue
       (log o ("Successfully "
               +:+ (if JsString.truthy_opt (content a)
                    then "wrote" else "wrote from template")
               +:+ " " +:+ quoted filePath)
          (set_disk d' (emit (EvRead (NodePath.join cwd filePath)) s1))),
     answers).
Proof.
  intros Hov Hload Hboth Hdes Ht Hout Hw.
  rewrite deploy_confirmWriteFile_eq. cbv zeta. rewrite Hload, Hboth, Hdes.
  unfold read. rewrite Hov. by erewrite finish_disk.
Qed.

(** Without [overwrite] and away from stdout, a target that already
    holds the desired content ends the call: no prompt, no write. *)
Lemma same_content_skips answers filePath a s template s1 text :
  opt_overwrite o = false →
  Deploy.loadTemplate dirname safeLoad safeDump toLength
      a s = (inr template, s1) →
  JsString.truthy_opt (content a) && JsString.truthy_opt (templatePath a)
  = false →
  JsString.or_else (content a) template = Some text →
  output a ≠ Some "-" →
  readFile (disk s1) (NodePath.join cwd filePath) = Ok text →
  Deploy.confirmWriteFile cwd dirname safeLoad safeDump toLength
      o answers filePath a s
  = (Return JFalse (emit (EvRead (NodePath.join cwd filePath)) s1), answers).
Proof.
  intros Hov Hload Hboth Hdes Hout Hr.
  rewrite deploy_confirmWriteFile_eq. cbv zeta. rewrite Hload, Hboth, Hdes.
  unfold read. rewrite Hov, Hr.
  rewrite (bool_decide_eq_false_2 _ Hout). cbn [negb andb].
  by rewrite bool_decide_eq_true_2.
Qed.

(** With a template path given, the template file is read, whatever
    comes of it. *)
Lemma loadTemplate_read a s tp r s1 :
  templatePath a = Some tp → JsString.truthy tp = true →
  Deploy.loadTemplate dirname safeLoad safeDump toLength a s = (r, s1) →
  s1 = emit (EvRead (NodePath.join dirname tp)) s.
Proof.
  intros Htp Ht. unfold Deploy.loadTemplate. rewrite Htp, Ht. unfold read.
  destruct (readFile _ _) as [text|e]; [| by intros [= <- <-]].
  destruct (properties a) as [props|]; [| by intros [= <- <-]].
  destruct (JsString.endsWith ".yaml" tp); [| by intros [= <- <-]].
  destruct (safeLoad text) as [doc|]; [| by intros [= <- <-]].
  destruct (Lodash.merge _ _ _) as [e|merged]; [by intros [= <- <-] |].
  destruct (safeDump _) as [dumped|]; by intros [= <- <-].
Qed.

Lemma loadTemplate_output a out s :
  Deploy.loadTemplate dirname safeLoad safeDump toLength
      (Args (content a) (templatePath a) out (properties a)) s
  = Deploy.loadTemplate dirname safeLoad safeDump toLength a s.
Proof. by destruct a. Qed.

(** An empty [content] is falsy wherever the body looks at it: the
    call runs as if no content had been given. *)
Lemma empty_content_is_no_content answers filePath tp out props s :
  Deploy.confirmWriteFile cwd dirname safeLoad safeDump toLength o
    answers filePath (Args (Some "") tp out props) s
  = Deploy.confirmWriteFile cwd dirname safeLoad safeDump toLength o
      answers filePath (Args None tp out props) s.
Proof.
  assert (∀ out s,
             Deploy.loadTemplate dirname safeLoad safeDump toLength
               (Args (Some "") tp out props) s
             = Deploy.loadTemplate dirname safeLoad safeDump toLength
                 (Args None tp out props) s) as Hload by reflexivity.
  assert (∀ b fullPath out desired s,
             Deploy.finish o b filePath fullPath
               (Args (Some "") tp out props) desired s
             = Deploy.finish o b filePath fullPath
                 (Args None tp out props) desired s) as Hfin by reflexivity.
  revert out s. induction answers as [|x rest IH]; intros out s;
    match goal with
    | |- Deploy.confirmWriteFile _ _ _ _ _ _ ?l _ ?a1 _
         = Deploy.confirmWriteFile _ _ _ _ _ _ _ _ ?a2 _ =>
        rewrite (deploy_confirmWriteFile_eq l filePath a1),
                (deploy_confirmWriteFile_eq l filePath a2)
    end; cbv zeta; rewrite Hload;
    (destruct (Deploy.loadTemplate _ _ _ _ _ _) as [[e|template] s1];
     [reflexivity |]);
    unfold JsString.or_else;
    cbn [content templatePath output properties JsString.truthy_opt];
    change (JsString.truthy "") with false; cbn [andb];
    destruct (read _ s1) as [r s2]; rewrite !Hfin; [reflexivity |].
  repeat match goal with
         | |- (if ?b then _ else _) = _ => destruct b; [reflexivity |]
         end; try reflexivity.
  repeat match goal with
         | |- (if ?b then _ else _) = _ => destruct b; try reflexivity
         end.
  destruct x; try reflexivity.
  destruct (read _ _) as [[existing|e] s4]; [| reflexivity].
  destruct template as [shown|]; [| reflexivity].
  by rewrite IH.
Qed.

(** And so is an empty [templatePath]. *)
Lemma empty_template_is_no_template answers filePath c out props s :
  Deploy.confirmWriteFile cwd dirname safeLoad safeDump toLength o
    answers filePath (Args c (Some "") out props) s
  = Deploy.confirmWriteFile cwd dirname safeLoad safeDump toLength o
      answers filePath (Args c None out props) s.
Proof.
  assert (∀ out s,
             Deploy.loadTemplate dirname safeLoad safeDump toLength
               (Args c (Some "") out props) s
             = Deploy.loadTemplate dirname safeLoad safeDump toLength
                 (Args c None out props) s) as Hload by reflexivity.
  assert (∀ b fullPath out desired s,
             Deploy.finish o b filePath fullPath
               (Args c (Some "") out props) desired s
             = Deploy.finish o b filePath fullPath
                 (Args c None out props) desired s) as Hfin by reflexivity.
  revert out s. induction answers as [|x rest IH]; intros out s;
    match goal with
    | |- Deploy.confirmWriteFile _ _ _ _ _ _ ?l _ ?a1 _
         = Deploy.confirmWriteFile _ _ _ _ _ _ _ _ ?a2 _ =>
        rewrite (deploy_confirmWriteFile_eq l filePath a1),
                (deploy_confirmWriteFile_eq l filePath a2)
    end; cbv zeta; rewrite Hload;
    (destruct (Deploy.loadTemplate _ _ _ _ _ _) as [[e|template] s1];
     [reflexivity |]);
    cbn [content templatePath output properties JsString.truthy_opt];
    change (JsString.truthy "") with false; rewrite andb_false_r;
    destruct (read _ s1) as [r s2]; rewrite !Hfin; [reflexivity |].
  repeat match goal with
         | |- (if ?b then _ else _) = _ => destruct b; [reflexivity |]
         end; try reflexivity.
  repeat match goal with
         | |- (if ?b then _ else _) = _ => destruct b; try reflexivity
         end.
  destruct x; try reflexivity.
  destruct (read _ _) as [[existing|e] s4]; [| reflexivity].
  destruct (JsString.or_else c template) as [shown|]; [| reflexivity].
  by rewrite IH.
Qed.

End Reconciler.

End DeployFacts.

Module Deploy2Facts.
Import Js Deploy2.

Lemma finish_with_content cwd dirname o doWrite a s c :
  content a = Some c → JsString.truthy c = true →
  ∃ v s', finish cwd dirname o doWrite a s = Return v s'.
Proof.
  intros Hc Ht. unfold finish. destruct doWrite; cbn [negb]; [| eauto].
  rewrite Hc. cbn [JsString.truthy_opt]. rewrite Ht. cbn [orb]. eauto.
Qed.

(** The body of this [confirmWriteFile], one call deep. *)
Lemma deploy2_confirmWriteFile_eq cwd dirname o answers a s :
  confirmWriteFile cwd dirname o answers a s =
  let fullPath := cwd +:+ "/" +:+ path a in
  if Deploy.opt_overwrite o then (finish cwd dirname o true a s, answers)
  else
    let exists_ := stat fullPath s in
    if exists_ && prompts o && negb (noPrompts a) then
      let s1 :=
        Deploy.emit (EvPrompt ("Would you like to overwrite "
                               +:+ quoted (path a) +:+ "?")) s in
      match answers with
      | [] => (Pending s1, [])
      | Yes :: rest => (finish cwd dirname o true a s1, rest)
      | No :: rest => (finish cwd dirname o false a s1, rest)
      | ShowDiff :: rest =>
          let s2 :=
            if JsString.truthy_opt (copySource a)
            then Deploy.emit (EvStdout "git diff") s1
            else Deploy.emit (EvLog "Not supported yet") s1 in
          match confirmWriteFile cwd dirname o rest a s2 with
          | (Return _ s3, rest') => (finish cwd dirname o false a s3, rest')
          | other => other
          end
      end
    else if exists_ && negb (prompts o) then
      (finish cwd dirname o false a
         (log o ("Refusing to overwrite " +:+ quoted (path a)
               +:+ "... Continuing... (Use --overwrite to ignore this check)")
              s),
       answers)
    else if negb exists_ then (finish cwd dirname o true a s, answers)
    else (finish cwd dirname o false a s, answers).
Proof. destruct answers; reflexivity. Qed.

(** With a literal content, this reconciler never throws, whether a
    [copySource] is given as well or not. *)
Lemma content_is_never_rejected cwd dirname o answers a s c :
  content a = Some c → JsString.truthy c = true →
  ∀ e s', (confirmWriteFile cwd dirname o answers a s).1 ≠ Throw e s'.
Proof.
  intros Hc Ht. revert s.
  assert (∀ b s e s', finish cwd dirname o b a s ≠ Throw e s') as Hfin.
  { intros b s e s' H.
    destruct (finish_with_content cwd dirname o b a s c Hc Ht) as (v & s2 & E).
    congruence. }
  induction answers as [|x rest IH]; intros s e s';
    rewrite deploy2_confirmWriteFile_eq; cbv zeta;
    (destruct (Deploy.opt_overwrite o); [apply Hfin |]);
    destruct (stat _ s), (prompts o), (noPrompts a);
    cbn [andb negb fst]; try apply Hfin; try done.
  destruct x; cbn [fst]; try apply Hfin.
  match goal with
  | |- context [confirmWriteFile cwd dirname o rest a ?s2] =>
      specialize (IH s2);
      destruct (confirmWriteFile cwd dirname o rest a s2)
        as [[v3 s3|e3 s3|s3|s3] r3]
  end; cbn [fst] in *; try done; try apply Hfin; apply IH.
Qed.

End Deploy2Facts.

Module DeployClaims.
Import Fs Js Deploy Props FsFacts DeployFacts.

(** C7, as the code has it.  When the output goes to stdout
    ([opts.output] and the call's [output] are both ["-"]) and the
    artifact has one non-empty content source, the call asks nothing,
    leaves the disk alone, resolves to [true] and prints the desired
    content followed by one line feed.  A writing policy stores the
    desired content itself for the same artifact: what is printed is
    what would be on disk plus a final line feed. *)
Theorem dry_run_prints_content_then_newline
    (cwd dirname : string)
    (safeLoad : string → option Lodash.value)
    (safeDump : Lodash.value → option string)
    (toLength : Lodash.value → Js.error + nat)
    (o : opts) (answers : list answer) (filePath : string) (a : args)
    (s s1 : state) (template : option string) (text : string) :
  let fullPath := NodePath.join cwd filePath in
  opt_output o = Some "-" →
  output a = Some "-" →
  loadTemplate dirname safeLoad safeDump toLength a s = (inr template, s1) →
  JsString.truthy_opt (content a) && JsString.truthy_opt (templatePath a)
  = false →
  JsString.or_else (content a) template = Some text →
  JsString.truthy text = true →
  confirmWriteFile cwd dirname safeLoad safeDump toLength
      o answers filePath a s
  = (Return JTrue
       (emit (EvStdout (text +:+ newline)) (emit (EvRead fullPath) s1)),
     answers)
  ∧ disk s1 = disk s
  ∧ (∀ o' d',
        opt_overwrite o' = true →
        writeFile (disk s1) fullPath text = Ok d' →
        ∃ s',
          confirmWriteFile cwd dirname safeLoad safeDump toLength
              o' answers filePath
            (Args (content a) (templatePath a) None (properties a)) s
          = (Return JTrue s', answers)
          ∧ readFile (disk s') fullPath = Ok text).
Proof.
  intros fullPath Hsil Hout Hload Hboth Hdes Ht.
  assert (silence o = true) as Hs
    by (unfold silence; by rewrite bool_decide_eq_true_2).
  split; [| split].
  - rewrite deploy_confirmWriteFile_eq. cbv zeta. rewrite Hload, Hboth, Hdes.
    unfold read. fold fullPath.
    rewrite Hs, (bool_decide_eq_true_2 _ Hout). cbn [negb andb].
    rewrite !andb_false_r, log_silent by done.
    repeat match goal with
           | |- context [if ?b then _ else _] => destruct b
           end; by rewrite finish_stdout.
  - by destruct (loadTemplate_state _ _ _ _ _ _ _ _ Hload).
  - intros o' d' Hov Hw. eexists. split.
    + eapply overwrite_writes; try done; by rewrite loadTemplate_output.
    + unfold log. destruct (silence o'); cbn [disk emit set_disk];
        apply writeFile_Ok in Hw as (Hne & _ & ->);
        apply readFile_file with (c := text);
        rewrite resolve_with_nodes, lookup_insert_node by done;
        by rewrite decide_True.
Qed.

(** A literal content sent to stdout. *)
Lemma dry_run_prints_content_then_newline_witness :
  Scenario.deploy Scenario.dryRun [] "b.txt"
    (Args (Some "new") None (Some "-") None) Scenario.deploy_fresh
  = (Return JTrue
       (emit (EvStdout ("new" +:+ newline))
          (emit (EvRead "/tmp/proj/b.txt") Scenario.deploy_fresh)),
     []).
Proof.
  refine (proj1 (dry_run_prints_content_then_newline "/tmp/proj" "/dna"
                   Scenario.no_yaml_load Scenario.no_yaml_dump Scenario.no_length
                   Scenario.dryRun [] "b.txt"
                   (Args (Some "new") None (Some "-") None)
                   Scenario.deploy_fresh Scenario.deploy_fresh None "new"
                   _ _ _ _ _ _)); reflexivity.
Defined.

(** C7, as stated, fails on the bytes: for the same artifact the dry
    run prints the content with a line feed appended, while the
    overwriting run stores the content as it is. *)
Lemma dry_run_output_differs_from_disk :
  let artifact out := Args (Some "new") None out None in
  let dry := Scenario.deploy Scenario.dryRun [] "b.txt" (artifact (Some "-"))
               Scenario.deploy_fresh in
  let wet := Scenario.deploy Scenario.overwriting [] "b.txt" (artifact None)
               Scenario.deploy_fresh in
  ∃ printed written,
    stdout_text (trace (final dry.1)) = [printed]
    ∧ readFile (disk (final wet.1)) "/tmp/proj/b.txt" = Ok written
    ∧ printed ≠ written.
Proof.
  exists ("new" +:+ newline), "new".
  split; [vm_compute; reflexivity |].
  split; [vm_compute; reflexivity | discriminate].
Qed.

(** A call that does not pass [output] writes to disk even when
    [opts.output] is ["-"]. *)
Lemma dry_run_without_call_output_writes :
  readFile
    (disk (final (Scenario.deploy Scenario.dryRun [] "b.txt"
                    (Args (Some "new") None None None)
                    Scenario.deploy_fresh).1))
    "/tmp/proj/b.txt"
  = Ok "new".
Proof. vm_compute. reflexivity. Qed.

(** C8, as the code has it.  In the template-aware reconciler, a call
    with both a non-empty literal content and a non-empty template
    path always throws, never touching the target, the prompt or the
    answers - but only after the template file has been read: that
    read is the single event of the call.  When the template loads,
    the error is the "Provide only one" one; when it does not, the
    load error is thrown instead.  An empty content, or an empty
    template path, is no second source: the call runs as if it had
    not been given.  The earlier reconciler has no such check: given
    a non-empty content it never throws, whatever else it is
    given. *)
Theorem both_sources_throw_after_template_read
    (cwd dirname : string)
    (safeLoad : string → option Lodash.value)
    (safeDump : Lodash.value → option string)
    (toLength : Lodash.value → Js.error + nat)
    (o : opts) (answers : list answer) (filePath : string) (a : args)
    (s : state) (c tp : string) :
  content a = Some c → JsString.truthy c = true →
  templatePath a = Some tp → JsString.truthy tp = true →
  (∃ e,
    confirmWriteFile cwd dirname safeLoad safeDump toLength o answers
      filePath a s
    = (Throw e (emit (EvRead (NodePath.join dirname tp)) s), answers)
    ∧ (∀ template s1,
          loadTemplate dirname safeLoad safeDump toLength a s
          = (inr template, s1) →
          e = Error "Provide only one of content, templatePath")
    ∧ (∀ e0 s1,
          loadTemplate dirname safeLoad safeDump toLength a s
          = (inl e0, s1) →
          e = e0))
  ∧ (∀ answers0 path0 tp0 out props s0,
        confirmWriteFile cwd dirname safeLoad safeDump toLength o answers0
          path0 (Args (Some "") tp0 out props) s0
        = confirmWriteFile cwd dirname safeLoad safeDump toLength o answers0
            path0 (Args None tp0 out props) s0)
  ∧ (∀ answers0 path0 c0 out props s0,
        confirmWriteFile cwd dirname safeLoad safeDump toLength o answers0
          path0 (Args c0 (Some "") out props) s0
        = confirmWriteFile cwd dirname safeLoad safeDump toLength o answers0
            path0 (Args c0 None out props) s0)
  ∧ (∀ (a2 : Deploy2.args) e s',
        Deploy2.content a2 = Some c →
        (Deploy2.confirmWriteFile cwd dirname o answers a2 s).1 ≠ Throw e s').
Proof.
  intros Hc Htc Htp Htt. split; [| split; [| split]].
  - rewrite deploy_confirmWriteFile_eq. cbv zeta.
    destruct (loadTemplate dirname safeLoad safeDump toLength a s)
      as [[e|template] s1] eqn:Hload;
      pose proof (loadTemplate_read _ _ _ _ _ _ _ _ _ Htp Htt Hload) as ->.
    + exists e. split; [done |]. split; [intros ? ? [=] |].
      by intros ? ? [= <- _].
    + rewrite Hc, Htp. cbn [JsString.truthy_opt]. rewrite Htc, Htt.
      cbn [andb]. eexists. split; [reflexivity |]. split; [done |].
      intros ? ? [=].
  - intros. apply empty_content_is_no_content.
  - intros. apply empty_template_is_no_template.
  - intros a2 e s' Hc2. by eapply Deploy2Facts.content_is_never_rejected.
Qed.

(** A [Dockerfile] given both as content and as template. *)
Lemma both_sources_throw_after_template_read_witness :
  ∃ e,
    Scenario.deploy Scenario.prompting [] "Dockerfile"
      (Args (Some "FROM scratch") (Some "defaults/Dockerfile") None None)
      Scenario.deploy_fresh
    = (Throw e (emit (EvRead "/dna/defaults/Dockerfile") Scenario.deploy_fresh),
       []).
Proof.
  destruct (both_sources_throw_after_template_read "/tmp/proj" "/dna"
              Scenario.no_yaml_load Scenario.no_yaml_dump Scenario.no_length
              Scenario.prompting [] "Dockerfile"
              (Args (Some "FROM scratch") (Some "defaults/Dockerfile")
                    None None)
              Scenario.deploy_fresh "FROM scratch" "defaults/Dockerfile")
    as ((e & He & _) & _); try reflexivity.
  exists e. exact He.
Defined.

(** C8, as stated, fails: when both sources are given, the template
    file is read before the call is rejected. *)
Lemma template_is_read_before_rejection :
  ∃ s',
    (Scenario.deploy Scenario.prompting [] "Dockerfile"
       (Args (Some "FROM scratch") (Some "defaults/Dockerfile") None None)
       Scenario.deploy_fresh).1
    = Throw (Error "Provide only one of content, templatePath") s'
    ∧ trace Scenario.deploy_fresh = []
    ∧ trace s' = [EvRead "/dna/defaults/Dockerfile"].
Proof.
  eexists. split; [vm_compute; reflexivity |].
  split; vm_compute; reflexivity.
Qed.

End DeployClaims.

(* ===================================================================== *)
(** ** Forced writes and repeated reconciliation *)
(* ===================================================================== *)

Module ReconcileClaims.
Import Fs Js Util Props FsFacts RollbackFacts ReconcileFacts.




(** C5, as the code has it.  With [force] off, once a first call has
    returned, a second call for the same path and content asks
    nothing, writes nothing and returns [false] - when [update] is off,
    or when the first call resolved to [true] or [false].  (A first
    call that resolved to [undefined] is one the user declined.)  In
    particular, (2) a target that already holds the desired content is
    skipped without a prompt and without a write, here and (3) in the
    template-aware reconciler. *)
Theorem second_reconcile_skips
    (filePath content : string) (o : options) (s s1 : state)
    (answers rest : list answer) (v : value) :
  force o = false →
  confirmWriteFile answers filePath content o s = (Return v s1, rest) →
  update o = false ∨ v ≠ JUndefined →
  confirmWriteFile rest filePath content o s1 = (Return JFalse s1, rest)
  ∧ (∀ answers' s',
        lookup (disk s')
          (resolve (disk s') (NodePath.join (directory o) filePath))
        = Some (File content) →
        confirmWriteFile answers' filePath content o s'
        = (Return JFalse s', answers'))
  ∧ (∀ cwd dirname safeLoad safeDump toLength
      (o' : Deploy.opts) (a : Deploy.args)
       (st : Deploy.state) answers',
        Deploy.opt_overwrite o' = false →
        Deploy.content a = Some content → JsString.truthy content = true →
        JsString.truthy_opt (Deploy.templatePath a) = false →
        Deploy.output a ≠ Some "-" →
        readFile (Deploy.disk st) (NodePath.join cwd filePath) = Ok content →
        Deploy.confirmWriteFile cwd dirname safeLoad safeDump toLength
            o' answers'
          filePath a st
        = (Return JFalse
             (Deploy.emit (EvRead (NodePath.join cwd filePath)) st),
           answers')).
Proof.
  intros Hf Hfirst Hv. split; [| split].
  - set (fullPath := NodePath.join (directory o) filePath).
    rewrite util_confirmWriteFile_eq in Hfirst. cbv zeta in Hfirst.
    fold fullPath in Hfirst. rewrite Hf in Hfirst.
    destruct (existsSync (disk s) fullPath) eqn:Hex;
      destruct (update o) eqn:Hu; cbn [negb andb] in Hfirst.
    + (* the target exists, interactive *)
      destruct (readFile (disk s) fullPath) as [existing|e] eqn:Hr;
        [| done].
      destruct (String.eqb content existing) eqn:Heq.
      * apply pair_equal_spec in Hfirst as [[= <- <-] <-].
        rewrite util_confirmWriteFile_eq. cbv zeta. fold fullPath.
        by rewrite Hex, Hu, Hf, Hr, Heq.
      * destruct answers as [|[| |] more]; [done | | |].
        -- apply pair_equal_spec in Hfirst as [Hw <-].
           apply write_tail_true_Return in Hw as [-> Hl].
           by apply confirmWriteFile_same.
        -- apply pair_equal_spec in Hfirst as [Hw <-].
           injection Hw as <- <-. by destruct Hv.
        -- destruct (confirmWriteFile more filePath content o _)
             as [[v3 s3|e3 s3|s3|s3] r3]; try done.
           apply pair_equal_spec in Hfirst as [Hw <-]. cbn in Hw. injection Hw as <- <-.
           by destruct Hv.
    + (* the target exists, non-interactive *)
      apply pair_equal_spec in Hfirst as [[= <- <-] <-].
      rewrite util_confirmWriteFile_eq. cbv zeta. fold fullPath.
      by rewrite Hex, Hu.
    + (* no target yet *)
      apply pair_equal_spec in Hfirst as [Hw <-].
      apply write_tail_true_Return in Hw as [-> Hl].
      by apply confirmWriteFile_same.
    + apply pair_equal_spec in Hfirst as [Hw <-].
      apply write_tail_true_Return in Hw as [-> Hl].
      by apply confirmWriteFile_same.
  - intros answers' s' Hl. by apply confirmWriteFile_same.
  - intros cwd dirname safeLoad safeDump toLength o' a st answers'
      Hov Hc Ht Htp Hout Hr.
    eapply DeployFacts.same_content_skips; try done.
    + by apply DeployFacts.loadTemplate_none.
    + by rewrite Htp, andb_false_r.
    + unfold JsString.or_else. rewrite Hc. cbn. by rewrite Ht.
Qed.

(** The update of [a.txt] is accepted; the second call skips. *)
Lemma second_reconcile_skips_witness :
  ∃ s1,
    confirmWriteFile [Yes] "a.txt" "new" Scenario.interactive
      (Scenario.fresh Scenario.project_disk)
    = (Return JTrue s1, [])
    ∧ confirmWriteFile [] "a.txt" "new" Scenario.interactive s1
      = (Return JFalse s1, []).
Proof.
  destruct (confirmWriteFile [Yes] "a.txt" "new" Scenario.interactive
              (Scenario.fresh Scenario.project_disk)) as [r rest] eqn:Hfirst.
  assert (rest = [] ∧ ∃ s1, r = Return JTrue s1) as [-> [s1 ->]].
  { vm_compute in Hfirst. injection Hfirst as <- <-. eauto. }
  exists s1. split; [reflexivity |].
  refine (proj1 (second_reconcile_skips "a.txt" "new" Scenario.interactive
                   (Scenario.fresh Scenario.project_disk) s1 [Yes] []
                   JTrue _ Hfirst _)); [reflexivity | right; discriminate].
Defined.

(** C5, as stated, fails: after the user declined the update, the
    disk is as it was, and a second call for the same path and content
    shows the prompt again and does not return [false]. *)
Lemma declined_update_prompts_again :
  ∃ s1 s2,
    confirmWriteFile [No; Yes] "a.txt" "new" Scenario.interactive
      (Scenario.fresh Scenario.project_disk)
    = (Return JUndefined s1, [Yes])
    ∧ disk s1 = Scenario.project_disk
    ∧ confirmWriteFile [Yes] "a.txt" "new" Scenario.interactive s1
      = (Return JTrue s2, [])
    ∧ prompts_shown (trace s1) = 1%nat
    ∧ prompts_shown (trace s2) = 2%nat.
Proof.
  eexists. eexists. split; [vm_compute; reflexivity |].
  repeat split; vm_compute; reflexivity.
Qed.

End ReconcileClaims.

(* ===================================================================== *)
(** ** Template and overlay *)
(* ===================================================================== *)

Module MergeFacts.
Import Lodash Props.

(** Induction over plain data, with the hypothesis for every element
    of an array and every field of an object. *)
Lemma value_induction (P : value → Prop) :
  P Undefined → P Null → (∀ b, P (Bool b)) → (∀ n, P (Num n)) →
  (∀ s, P (Str s)) →
  (∀ items, Forall P items → P (Arr items)) →
  (∀ fields, Forall (λ kv, P kv.2) fields → P (Obj fields)) →
  ∀ v, P v.
Proof.
  intros HU HN HB HZ HS HA HO.
  fix IH 1. intros [| | b | n | s | items | fields];
    [exact HU | exact HN | apply HB | apply HZ | apply HS | |].
  - apply HA. induction items as [|x r IHr]; constructor; [apply IH | exact IHr].
  - apply HO. induction fields as [|[k x] r IHr]; constructor;
      [apply IH | exact IHr].
Qed.

(** An array index has one name. *)
Lemma array_index_name k i :
  array_index k = Some i → k = index_name (N.of_nat i).
Proof.
  unfold array_index. destruct k as [|c r]; [done |].
  destruct (digits 0 (String c r)) as [n|]; [| done].
  destruct (String.eqb (index_name n) (String c r)) eqn:E; [| done].
  apply String.eqb_eq in E. destruct (n <? 4294967295)%N; [| done].
  intros [= <-]. by rewrite N2Nat.id.
Qed.

Lemma array_index_inj k k' i :
  array_index k = Some i → array_index k' = Some i → k = k'.
Proof. intros ->%array_index_name ->%array_index_name. done. Qed.

Lemma get_update k v fields k' :
  get k' (update k v fields)
  = if String.eqb k k'
    then match get k fields with Some _ => Some v | None => None end
    else get k' fields.
Proof.
  induction fields as [|[k0 v0] rest IH]; cbn [update get].
  - by destruct (String.eqb k k').
  - destruct (String.eqb k0 k) eqn:E0.
    + apply String.eqb_eq in E0 as ->. cbn [get].
      by destruct (String.eqb k k').
    + cbn [get]. destruct (String.eqb k0 k') eqn:E1.
      * apply String.eqb_eq in E1 as ->.
        rewrite String.eqb_sym in E0. by rewrite E0.
      * exact IH.
Qed.

Lemma get_app k l1 l2 :
  get k (l1 ++ l2) = match get k l1 with Some v => Some v | None => get k l2 end.
Proof.
  induction l1 as [|[k0 v0] rest IH]; [done |]. cbn [app get].
  by destruct (String.eqb k0 k).
Qed.

Lemma get_add_field k v fields k' :
  get k fields = None →
  get k' (add_field k v fields)
  = if String.eqb k k' then Some v else get k' fields.
Proof.
  intros Hk.
  assert (∀ fields, get k' ((k, v) :: fields)
          = if String.eqb k k' then Some v else get k' fields) as Hcons
    by reflexivity.
  destruct (array_index k) as [i|] eqn:Hi.
  - induction fields as [|[k0 v0] rest IH]; cbn [add_field]; rewrite Hi;
      [apply Hcons |].
    cbn [get] in Hk. destruct (String.eqb k0 k) eqn:E0; [done |].
    destruct (array_index k0) as [j|]; [| apply Hcons].
    destruct (j <? i)%nat; [| apply Hcons].
    cbn [get]. destruct (String.eqb k0 k') eqn:E1.
    + apply String.eqb_eq in E1 as ->.
      rewrite String.eqb_sym in E0. by rewrite E0.
    + by apply IH.
  - assert (add_field k v fields = (fields ++ [(k, v)])%list) as ->
      by (destruct fields; cbn [add_field]; by rewrite Hi).
    rewrite get_app. cbn [get]. destruct (String.eqb k k') eqn:E.
    + apply String.eqb_eq in E as <-. by rewrite Hk.
    + by destruct (get k' fields).
Qed.

Lemma get_assign k v fields k' :
  get k' (assign k v fields)
  = if String.eqb k k' then Some v else get k' fields.
Proof.
  unfold assign. destruct (get k fields) as [x|] eqn:Hk.
  - by rewrite get_update, Hk.
  - by apply get_add_field.
Qed.

Lemma get_None_notin k fields : k ∉ map fst fields → get k fields = None.
Proof.
  induction fields as [|[k0 v0] rest IH]; [done |]. simpl.
  intros [Hne Hrest]%not_elem_of_cons.
  destruct (String.eqb k0 k) eqn:E; [| by apply IH].
  apply String.eqb_eq in E. congruence.
Qed.

Lemma skipped_assign k v k0 m base :
  k0 ≠ k → skipped k v (assign k0 m base) = skipped k v base.
Proof.
  intros Hne. unfold skipped. rewrite get_assign.
  apply String.eqb_neq in Hne. by rewrite Hne.
Qed.

Lemma distinct_keys_Obj fields :
  distinct_keys (Obj fields) = true →
  NoDup (map fst fields)
  ∧ ∀ k x, get k fields = Some x → distinct_keys x = true.
Proof.
  simpl. intros [Hnd Hall]%andb_prop. apply bool_decide_eq_true in Hnd.
  split; [done |]. clear Hnd.
  induction fields as [|[k0 v0] rest IH]; intros k x; [done |].
  apply andb_prop in Hall as [H0 Hrest]. simpl.
  destruct (String.eqb k0 k); [by intros [= <-] | by apply IH].
Qed.

Lemma distinct_keys_Arr items i x :
  distinct_keys (Arr items) = true → items !! i = Some x →
  distinct_keys x = true.
Proof.
  revert i. induction items as [|y r IH]; intros i; [done |].
  cbn [distinct_keys]. intros [Hy Hr]%andb_prop.
  destruct i as [|i]; [by intros [= <-] | by apply IH].
Qed.

(** [set_item] at one index leaves the others, a hole apart. *)
Lemma lookup_set_item i v l :
  set_item i v l !! i = Some v.
Proof.
  unfold set_item. destruct (i <? List.length l)%nat eqn:E.
  - apply Nat.ltb_lt in E. by apply list_lookup_insert_eq.
  - apply Nat.ltb_ge in E. rewrite lookup_app_r by lia.
    rewrite lookup_app_r by (rewrite length_replicate; lia).
    rewrite length_replicate.
    by replace (i - List.length l - (i - List.length l))%nat with 0%nat by lia.
Qed.

Lemma lookup_set_item_ne i j v l :
  i ≠ j →
  set_item j v l !! i = l !! i
  ∨ (l !! i = None ∧ set_item j v l !! i = Some Undefined).
Proof.
  intros Hne. unfold set_item. destruct (j <? List.length l)%nat eqn:E.
  - left. by apply list_lookup_insert_ne.
  - apply Nat.ltb_ge in E.
    destruct (decide (i < List.length l)%nat) as [Hi|Hi].
    + left. by rewrite lookup_app_l.
    + destruct (decide (i < j)%nat) as [Hij|Hij].
      * right. split; [apply lookup_ge_None; lia |].
        rewrite lookup_app_r by lia.
        rewrite lookup_app_l by (rewrite length_replicate; lia).
        apply lookup_replicate. split; [done | lia].
      * left. rewrite (proj2 (lookup_ge_None l i)) by lia.
        apply lookup_ge_None.
        rewrite !length_app, length_replicate. simpl. lia.
Qed.

Lemma lookup_set_item_Some i j v l x :
  i ≠ j → l !! i = Some x → set_item j v l !! i = Some x.
Proof.
  intros Hne Hx. destruct (lookup_set_item_ne i j v l Hne) as [->|[H _]];
    congruence.
Qed.

Lemma lengthless_Obj fields :
  lengthless (Obj fields) = true
  ↔ Forall (λ kv, kv.1 ≠ "length" ∧ lengthless kv.2 = true) fields.
Proof.
  cbn [lengthless]. induction fields as [|[k x] r IH].
  - split; [constructor | done].
  - rewrite Forall_cons, <- IH, !andb_true_iff, negb_true_iff.
    cbn [fst snd]. by rewrite String.eqb_neq.
Qed.

Lemma lengthless_Arr items :
  lengthless (Arr items) = true ↔ Forall (λ x, lengthless x = true) items.
Proof.
  cbn [lengthless]. induction items as [|x r IH].
  - split; [constructor | done].
  - by rewrite Forall_cons, <- IH, andb_true_iff.
Qed.

Lemma lengthless_get fields :
  Forall (λ kv, kv.1 ≠ "length" ∧ lengthless kv.2 = true) fields →
  get "length" fields = None
  ∧ ∀ k x, get k fields = Some x → lengthless x = true.
Proof.
  intros Hall. induction Hall as [|[k0 x0] r [Hk Hv] _ [IH1 IH2]]; [done |].
  cbn [fst snd] in *. split.
  - cbn [get]. apply String.eqb_neq in Hk. by rewrite Hk.
  - intros k x. cbn [get]. destruct (String.eqb k0 k); [| apply IH2].
    by intros [= <-].
Qed.

Lemma update_keys k v fields : map fst (update k v fields) = map fst fields.
Proof.
  induction fields as [|[k0 v0] r IH]; [done |]. cbn [update].
  destruct (String.eqb k0 k) eqn:E; cbn [map fst]; [| by rewrite IH].
  by apply String.eqb_eq in E as ->.
Qed.

Lemma add_field_keys k v fields :
  map fst (add_field k v fields) ≡ₚ k :: map fst fields.
Proof.
  destruct (array_index k) as [i|] eqn:Hi.
  - induction fields as [|[k0 v0] r IH]; cbn [add_field]; rewrite Hi; [done |].
    destruct (array_index k0) as [j|]; [| done].
    destruct (j <? i)%nat; [| done].
    cbn [map fst]. rewrite IH. apply Permutation_swap.
  - assert (add_field k v fields = (fields ++ [(k, v)])%list) as ->
      by (destruct fields; cbn [add_field]; by rewrite Hi).
    rewrite map_app. cbn [map fst]. by rewrite Permutation_app_comm.
Qed.

Lemma get_Some_in k fields x : get k fields = Some x → (k, x) ∈ fields.
Proof.
  induction fields as [|[k0 v0] r IH]; [done |]. cbn [get].
  destruct (String.eqb k0 k) eqn:E.
  - apply String.eqb_eq in E as ->. intros [= ->]. by left.
  - intros H. right. by apply IH.
Qed.

Lemma get_is_Some k fields : k ∈ map fst fields → is_Some (get k fields).
Proof.
  induction fields as [|[k0 v0] r IH]; [by intros ?%not_elem_of_nil |].
  cbn [map fst get]. intros [->|H]%elem_of_cons.
  - by rewrite String.eqb_refl.
  - destruct (String.eqb k0 k); [done | by apply IH].
Qed.

Lemma assign_keys k v fields :
  (∀ k', k' ∈ map fst (assign k v fields) ↔ k' = k ∨ k' ∈ map fst fields)
  ∧ (NoDup (map fst fields) → NoDup (map fst (assign k v fields))).
Proof.
  unfold assign. destruct (get k fields) as [x|] eqn:Hk.
  - rewrite update_keys. split; [| done]. intros k'. split; [by right |].
    intros [->|H]; [| done].
    apply get_Some_in in Hk. apply list_elem_of_fmap. by exists (k, x).
  - split.
    + intros k'. by rewrite add_field_keys, elem_of_cons.
    + intros Hnd. rewrite add_field_keys. apply NoDup_cons. split; [| done].
      intros Hin%get_is_Some. rewrite Hk in Hin. by destruct Hin.
Qed.

Lemma Forall_assign (P : string * value → Prop) k v fields :
  P (k, v) → Forall P fields → Forall P (assign k v fields).
Proof.
  intros Hkv Hall. unfold assign. destruct (get k fields) as [?|].
  - induction Hall as [|[k0 x0] r H0 Hr IH]; [constructor |].
    cbn [update]. destruct (String.eqb k0 k); by constructor.
  - destruct (array_index k) as [i|] eqn:Hi.
    + induction Hall as [|[k0 x0] r H0 Hr IH]; cbn [add_field]; rewrite Hi;
        [by repeat constructor |].
      destruct (array_index k0) as [j|]; [| by repeat constructor].
      destruct (j <? i)%nat; by repeat constructor.
    + assert (add_field k v fields = (fields ++ [(k, v)])%list) as ->
        by (destruct fields; cbn [add_field]; by rewrite Hi).
      apply Forall_app. split; [done | by repeat constructor].
Qed.

Lemma Forall_set_item (P : value → Prop) i v l :
  P Undefined → P v → Forall P l → Forall P (set_item i v l).
Proof.
  intros HU Hv Hl. unfold set_item. destruct (i <? List.length l)%nat.
  - by apply Forall_insert.
  - apply Forall_app. split; [done |]. apply Forall_app.
    split; [by apply Forall_replicate | by repeat constructor].
Qed.

Lemma array_or_not (obj : option value) :
  (∃ l, obj = Some (Arr l)) ∨ (∀ l, obj ≠ Some (Arr l)).
Proof. destruct obj as [[]|]; eauto. Qed.

Section Merge.

Variable toLength : value → Js.error + nat.

Local Abbreviation mergeDeep := (mergeDeep toLength).
Local Abbreviation mergeItems := (mergeItems toLength).
Local Abbreviation mergeFields := (mergeFields toLength).
Local Abbreviation putFields := (putFields toLength).
Local Abbreviation merge := (merge toLength).

Lemma mergeDeep_scalar o v : is_scalar v = true → mergeDeep o v = inr v.
Proof. by destruct v. Qed.

Lemma mergeDeep_Arr o items :
  mergeDeep o (Arr items)
  = match array_base o with
    | inl e => inl e
    | inr base =>
        match mergeItems base items with
        | inl e => inl e
        | inr r => inr (Arr r)
        end
    end.
Proof. reflexivity. Qed.

Lemma mergeDeep_Obj_Arr l fields :
  mergeDeep (Some (Arr l)) (Obj fields)
  = match putFields l fields with
    | inl e => inl e
    | inr r => inr (Arr r)
    end.
Proof. reflexivity. Qed.

Lemma mergeDeep_Obj o fields :
  (∀ l, o ≠ Some (Arr l)) →
  mergeDeep o (Obj fields)
  = match mergeFields (match o with Some (Obj fs) => fs | _ => [] end)
            fields with
    | inl e => inl e
    | inr r => inr (Obj r)
    end.
Proof.
  intros Hna. destruct o as [[]|]; try reflexivity. by destruct (Hna items).
Qed.

(** A hole is no destination. *)
Lemma mergeDeep_hole v : mergeDeep (Some Undefined) v = mergeDeep None v.
Proof. by destruct v. Qed.

Lemma mergeDeep_slot o o' v :
  o' = o ∨ (o = None ∧ o' = Some Undefined) →
  mergeDeep o' v = mergeDeep o v.
Proof. intros [->|[-> ->]]; [done | apply mergeDeep_hole]. Qed.

(** After the key-wise loop a key of the source holds the merge of
    the two values, unless the field is skipped; any other key
    holds what it held. *)
Lemma get_mergeFields k base fields r :
  NoDup (map fst fields) →
  mergeFields base fields = inr r →
  match get k fields with
  | Some v =>
      if skipped k v base then get k r = get k base
      else ∃ m, mergeDeep (get k base) v = inr m ∧ get k r = Some m
  | None => get k r = get k base
  end.
Proof.
  revert base. induction fields as [|[k0 v0] rest IH]; intros base Hnd Hr.
  - by injection Hr as <-.
  - cbn [map fst] in Hnd. apply NoDup_cons in Hnd as [Hnotin Hnd].
    cbn [Lodash.mergeFields] in Hr. cbn [get].
    destruct (String.eqb k0 k) eqn:E.
    + apply String.eqb_eq in E as ->.
      assert (∀ b, mergeFields b rest = inr r → get k r = get k b) as IH'.
      { intros b Hb. specialize (IH b Hnd Hb).
        by rewrite (get_None_notin _ _ Hnotin) in IH. }
      destruct (skipped k v0 base); [by apply IH' |].
      destruct (mergeDeep (get k base) v0) as [e|m]; [done |].
      exists m. split; [done |].
      rewrite (IH' _ Hr), get_assign. by rewrite String.eqb_refl.
    + assert (k0 ≠ k) as Hne by by apply String.eqb_neq.
      destruct (skipped k0 v0 base); [by apply IH |].
      destruct (mergeDeep (get k0 base) v0) as [e|m]; [done |].
      specialize (IH _ Hnd Hr).
      rewrite get_assign, E in IH.
      destruct (get k rest) as [v|]; [| done].
      by rewrite skipped_assign in IH.
Qed.

(** The same for the fields of an object laid over an array that
    are named by an index, when no field is named [length]. *)
Lemma putFields_keeps i l fields r m :
  get "length" fields = None →
  (∀ k, array_index k = Some i → get k fields = None) →
  putFields l fields = inr r → l !! i = Some m →
  r !! i = Some m.
Proof.
  revert l. induction fields as [|[k0 v0] rest IH]; intros l Hlen Hk Hr Hm.
  - by injection Hr as <-.
  - cbn [get] in Hlen. cbn [Lodash.putFields] in Hr.
    destruct (String.eqb k0 "length"); [done |].
    assert (∀ k, array_index k = Some i → get k rest = None) as Hk'.
    { intros k Hi. specialize (Hk k Hi). cbn [get] in Hk.
      by destruct (String.eqb k0 k). }
    destruct (array_index k0) as [j|] eqn:Hj; [| by eapply IH].
    destruct (mergeDeep (l !! j) v0) as [e|m0]; [done |].
    eapply IH; try done. apply lookup_set_item_Some; [| done].
    intros ->. specialize (Hk k0 Hj). cbn [get] in Hk.
    by rewrite String.eqb_refl in Hk.
Qed.

Lemma lookup_putFields k i l fields r x :
  NoDup (map fst fields) →
  get "length" fields = None →
  putFields l fields = inr r →
  array_index k = Some i →
  get k fields = Some x →
  ∃ m, mergeDeep (l !! i) x = inr m ∧ r !! i = Some m.
Proof.
  intros Hnd Hlen Hr Hi Hx. revert l Hnd Hlen Hr Hx.
  induction fields as [|[k0 v0] rest IH]; intros l Hnd Hlen Hr Hx; [done |].
  cbn [map fst] in Hnd. apply NoDup_cons in Hnd as [Hnotin Hnd].
  cbn [get] in Hlen, Hx. cbn [Lodash.putFields] in Hr.
  destruct (String.eqb k0 "length"); [done |].
  destruct (String.eqb k0 k) eqn:E.
  - apply String.eqb_eq in E as ->. injection Hx as ->. rewrite Hi in Hr.
    destruct (mergeDeep (l !! i) x) as [e|m]; [done |].
    exists m. split; [done |].
    eapply putFields_keeps; [done | | done | apply lookup_set_item].
    intros k' Hi'. rewrite (array_index_inj _ _ _ Hi' Hi).
    by apply get_None_notin.
  - destruct (array_index k0) as [j|] eqn:Hj; [| by eapply IH].
    destruct (mergeDeep (l !! j) v0) as [e|m0]; [done |].
    destruct (IH _ Hnd Hlen Hr Hx) as (m & Hm & Hrm).
    exists m. split; [| done]. rewrite <- Hm. symmetry.
    apply mergeDeep_slot. apply lookup_set_item_ne.
    intros ->. apply String.eqb_neq in E. apply E.
    by eapply array_index_inj.
Qed.

(** The index-wise loop: the result is as long as the longer array,
    element [i] is the merge of the two elements [i], and what the
    destination holds beyond the source stays. *)
Lemma mergeItems_spec base items r :
  mergeItems base items = inr r →
  List.length r = (List.length base `max` List.length items)%nat
  ∧ (∀ i v, items !! i = Some v →
            ∃ m, mergeDeep (base !! i) v = inr m ∧ r !! i = Some m)
  ∧ (∀ i, (List.length items ≤ i)%nat → r !! i = base !! i).
Proof.
  revert base r. induction items as [|v rest IH]; intros base r Hr.
  - injection Hr as <-. split; [simpl; lia |]. split; [done | done].
  - cbn [Lodash.mergeItems] in Hr.
    destruct (mergeDeep (head base) v) as [e|m] eqn:Hm; [done |].
    destruct (Lodash.mergeItems toLength (tail base) rest) as [e|r'] eqn:Hr';
      [done |].
    injection Hr as <-. destruct (IH _ _ Hr') as (Hlen & Hel & Hbeyond).
    split; [destruct base; simpl in *; lia |]. split.
    + intros [|i] x Hx.
      * injection Hx as <-. exists m. by destruct base.
      * destruct (Hel i x Hx) as (m' & Hm' & Hri).
        exists m'. by destruct base.
    + intros [|i] Hi; [simpl in Hi; lia |].
      cbn [lookup list_lookup]. rewrite Hbeyond by (simpl in Hi; lia).
      by destruct base.
Qed.

(** Scalars of a source array take the leading positions. *)
Lemma mergeItems_scalars base items :
  forallb is_scalar items = true →
  mergeItems base items
  = inr (items ++ drop (List.length items) base)%list.
Proof.
  revert base. induction items as [|v rest IH]; intros base H; [done |].
  simpl in H. apply andb_prop in H as [Hv Hrest].
  cbn [Lodash.mergeItems]. rewrite mergeDeep_scalar, IH by done.
  destruct base; cbn [tail]; [by rewrite !drop_nil | done].
Qed.

(** A scalar the overlay holds at a path is what the merged
    document holds at that path. *)
Lemma get_in_mergeDeep path src obj c m :
  distinct_keys src = true →
  get_in path src = Some c → is_scalar c = true →
  fits path obj src = true →
  mergeDeep obj src = inr m →
  get_in path m = Some c.
Proof.
  revert src obj m.
  induction path as [|k rest IH]; intros src obj m Hd Hget Hc Hfit Hm.
  - injection Hget as ->. rewrite mergeDeep_scalar in Hm by done.
    by injection Hm as <-.
  - destruct src as [| | | | |items|fields]; try done.
    + (* an overlay array *)
      cbn [get_in] in Hget. cbn [fits] in Hfit.
      destruct (array_index k) as [i|] eqn:Hi; [| done].
      destruct (items !! i) as [x|] eqn:Hx; [| done].
      rewrite mergeDeep_Arr in Hm.
      destruct (array_base obj) as [e|base]; [done |].
      destruct (mergeItems base items) as [e|r] eqn:Hr; [done |].
      injection Hm as <-.
      destruct (mergeItems_spec _ _ _ Hr) as (_ & Hel & _).
      destruct (Hel i x Hx) as (m' & Hm' & Hri).
      cbn [get_in]. rewrite Hi, Hri.
      eapply IH; [by eapply distinct_keys_Arr | done ..].
    + (* an overlay object *)
      cbn [get_in] in Hget. cbn [fits] in Hfit.
      destruct (get k fields) as [x|] eqn:Hk; [| done].
      destruct (distinct_keys_Obj _ Hd) as [Hnd Hsub].
      destruct (array_or_not obj) as [[l ->]|Hna].
      * destruct (array_index k) as [i|] eqn:Hi; [| done].
        destruct (get "length" fields) eqn:Hlen; [done |].
        rewrite mergeDeep_Obj_Arr in Hm.
        destruct (putFields l fields) as [e|r] eqn:Hr; [done |].
        injection Hm as <-.
        destruct (lookup_putFields _ _ _ _ _ _ Hnd Hlen Hr Hi Hk)
          as (m' & Hm' & Hri).
        cbn [get_in]. rewrite Hi, Hri.
        eapply IH; [by eapply Hsub | done ..].
      * rewrite mergeDeep_Obj in Hm by done.
        set (base := match obj with Some (Obj fs) => fs | _ => [] end) in *.
        assert (negb (skipped k x base) && fits rest (get k base) x = true)
          as [Hskip Hfit']%andb_prop.
        { destruct obj as [[]|]; try done. by destruct (Hna items). }
        apply negb_true_iff in Hskip.
        destruct (mergeFields base fields) as [e|r] eqn:Hr; [done |].
        injection Hm as <-.
        pose proof (get_mergeFields k _ _ _ Hnd Hr) as Hg.
        rewrite Hk, Hskip in Hg. destruct Hg as (m' & Hm' & Hrk).
        cbn [get_in]. rewrite Hrk.
        eapply IH; [by eapply Hsub | done ..].
Qed.

(** [merge] returns when no field is named [length]. *)
Lemma mergeDeep_returns src :
  ∀ obj,
    lengthless src = true →
    (∀ o, obj = Some o → lengthless o = true) →
    ∃ m, mergeDeep obj src = inr m ∧ lengthless m = true.
Proof.
  induction src as [| | b | n | s | items IH | fields IH]
    using value_induction; intros obj Hsrc Hobj.
  - destruct obj as [o|]; [| by exists Undefined]. exists o. eauto.
  - by exists Null.
  - by exists (Bool b).
  - by exists (Num n).
  - by exists (Str s).
  - rewrite mergeDeep_Arr.
    assert (∃ base, array_base obj = inr base
                    ∧ Forall (λ x, lengthless x = true) base)
      as (base & -> & Hbase).
    { destruct obj as [[| | | | |l|fs]|]; try (by exists []).
      - exists l. split; [done |]. by apply lengthless_Arr, Hobj.
      - exists []. split; [| done]. unfold array_base, array_like.
        specialize (Hobj _ eq_refl). apply lengthless_Obj in Hobj.
        by rewrite (proj1 (lengthless_get _ Hobj)). }
    apply lengthless_Arr in Hsrc.
    assert (∃ r, mergeItems base items = inr r
                 ∧ Forall (λ x, lengthless x = true) r)
      as (r & -> & Hr).
    { clear Hobj. revert base Hbase.
      induction IH as [|v rest IHv _ IHrest]; intros base Hbase;
        [by exists base |].
      apply Forall_cons in Hsrc as [Hv Hrest].
      cbn [Lodash.mergeItems].
      destruct (IHv (head base) Hv) as (m & -> & Hm).
      { intros o Ho. destruct Hbase; [done |]. by injection Ho as <-. }
      destruct (IHrest Hrest (tail base)) as (r & -> & Hr).
      { destruct Hbase; [constructor | done]. }
      exists (m :: r). split; [done | by constructor]. }
    exists (Arr r). split; [done | by apply lengthless_Arr].
  - apply lengthless_Obj in Hsrc.
    destruct (array_or_not obj) as [[l ->]|Hna].
    + rewrite mergeDeep_Obj_Arr.
      specialize (Hobj _ eq_refl). apply lengthless_Arr in Hobj.
      assert (∃ r, putFields l fields = inr r
                   ∧ Forall (λ x, lengthless x = true) r)
        as (r & -> & Hr).
      { revert l Hobj.
        induction IH as [|[k v] rest IHv _ IHrest]; intros l Hl;
          [by exists l |].
        apply Forall_cons in Hsrc as [[Hk Hv] Hrest].
        cbn [fst snd] in *. cbn [Lodash.putFields].
        apply String.eqb_neq in Hk. rewrite Hk.
        destruct (array_index k) as [i|]; [| by apply IHrest].
        destruct (IHv (l !! i) Hv) as (m & -> & Hm).
        { intros o Ho. by eapply (proj1 (Forall_lookup _ _) Hl). }
        apply IHrest; [done |]. by apply Forall_set_item. }
      exists (Arr r). split; [done | by apply lengthless_Arr].
    + rewrite mergeDeep_Obj by done.
      set (base := match obj with Some (Obj fs) => fs | _ => [] end).
      assert (Forall (λ kv, kv.1 ≠ "length" ∧ lengthless kv.2 = true) base)
        as Hbase.
      { subst base. destruct obj as [[]|]; try constructor.
        by apply lengthless_Obj, Hobj. }
      clearbody base.
      assert (∃ r, mergeFields base fields = inr r
                   ∧ Forall (λ kv, kv.1 ≠ "length" ∧ lengthless kv.2 = true) r)
        as (r & -> & Hr).
      { revert base Hbase.
        induction IH as [|[k v] rest IHv _ IHrest]; intros base Hbase;
          [by exists base |].
        apply Forall_cons in Hsrc as [[Hk Hv] Hrest].
        cbn [fst snd] in *. cbn [Lodash.mergeFields].
        destruct (skipped k v base); [by apply IHrest |].
        destruct (IHv (get k base) Hv) as (m & -> & Hm).
        { intros o Ho. by eapply (proj2 (lengthless_get _ Hbase)). }
        apply IHrest; [done |]. by apply Forall_assign. }
      exists (Obj r). split; [done | by apply lengthless_Obj].
Qed.

End Merge.

(** C4, as the code has it.  [merge] is lodash's, which can raise
    [RangeError] on an array length; whenever it returns:
    (1) the merge-precedence example comes out as stated;
    (2) a scalar the overlay holds at any path of field names and
    array indices is what the merged document holds at that path,
    provided no object or array on the path is named [__proto__]
    and, where an overlay object is laid over a template array, the
    step is an array index and that object has no [length] field
    ([fits]);
    (3) an overlay array does not replace the template array: it is
    merged into it index by index, so the result is as long as the
    longer of the two, element [i] is the merge of the two elements
    [i], and the template elements beyond the overlay's length
    remain; the result can be the overlay array only when the
    template array is not longer;
    (4) scalars of an overlay array take the leading positions, so
    for them the result is the overlay array when the template
    array is not longer;
    (5) the merge returns when no field of either document is named
    [length]. *)
Theorem merge_overrides_scalars_and_merges_arrays
    (toLength : value → Js.error + nat)
    (template : value) (overlay : list (string * value))
    (path : list string) (c merged : value) :
  is_object template = true →
  distinct_keys (Obj overlay) = true →
  get_in path (Obj overlay) = Some c →
  is_scalar c = true →
  fits path (Some template) (Obj overlay) = true →
  merge toLength template overlay = inr merged →
  merge toLength Scenario.spec_template Scenario.spec_overlay
  = inr (Obj Scenario.spec_overlay)
  ∧ get_in path merged = Some c
  ∧ (∀ base items m,
        mergeDeep toLength (Some (Arr base)) (Arr items) = inr m →
        ∃ r, m = Arr r
             ∧ List.length r = (List.length base `max` List.length items)%nat
             ∧ (∀ i v, items !! i = Some v →
                       ∃ x, mergeDeep toLength (base !! i) v = inr x
                            ∧ r !! i = Some x)
             ∧ (∀ i, (List.length items ≤ i)%nat → r !! i = base !! i)
             ∧ (r = items → (List.length base ≤ List.length items)%nat))
  ∧ (∀ base items,
        forallb is_scalar items = true →
        mergeDeep toLength (Some (Arr base)) (Arr items)
        = inr (Arr (items ++ drop (List.length items) base))%list
        ∧ ((List.length base ≤ List.length items)%nat →
           mergeDeep toLength (Some (Arr base)) (Arr items)
           = inr (Arr items)))
  ∧ (∀ t o,
        lengthless t = true → lengthless (Obj o) = true →
        ∃ m, merge toLength t o = inr m).
Proof.
  intros Hobj Hd Hget Hc Hfit Hm. split; [reflexivity |]. split; [| split; [| split]].
  - eapply get_in_mergeDeep; try done.
    unfold merge in Hm. by destruct template.
  - intros base items m. rewrite mergeDeep_Arr. cbn [array_base].
    destruct (mergeItems toLength base items) as [e|r] eqn:Hr; [done |].
    intros [= <-]. exists r. split; [done |].
    destruct (mergeItems_spec _ _ _ _ Hr) as (Hlen & Hel & Hbeyond).
    repeat split; try done. intros ->. lia.
  - intros base items Hs.
    rewrite mergeDeep_Arr. cbn [array_base].
    rewrite mergeItems_scalars by done. split; [done |].
    intros Hlen. by rewrite drop_ge, app_nil_r.
  - intros t o Ht Ho. unfold merge.
    destruct t; try (by eexists);
      (edestruct (mergeDeep_returns toLength (Obj o)) as (m & Hm' & _);
       [exact Ho | | exists m; exact Hm']); by intros ? [= <-].
Qed.

(** The [image] of the first container. *)
Lemma merge_overrides_scalars_and_merges_arrays_witness :
  get_in ["spec"; "containers"; "0"; "image"]
    (Obj [("spec",
           Obj [("containers",
                 Arr [Obj [("name", Str "app"); ("image", Str "new")];
                      Obj [("name", Str "sidecar")]])])])
  = Some (Str "new").
Proof.
  refine (proj1 (proj2 (merge_overrides_scalars_and_merges_arrays
                          Scenario.no_length
                          Scenario.container_template
                          Scenario.container_overlay
                          ["spec"; "containers"; "0"; "image"] (Str "new")
                          _ _ _ _ _ _ _))); reflexivity.
Defined.

(** C4, as stated, fails: the overlay's array [["y"]] does not replace
    the template's [["a", "b"]]; the merged array is [["y", "b"]]. *)
Lemma overlay_array_is_not_taken_wholesale :
  get "tags" Scenario.short_overlay = Some (Arr [Str "y"])
  ∧ merge Scenario.no_length Scenario.long_template Scenario.short_overlay
    = inr (Obj [("tags", Arr [Str "y"; Str "b"])])
  ∧ Arr [Str "y"; Str "b"] ≠ Arr [Str "y"].
Proof. repeat split; try reflexivity. discriminate. Qed.

End MergeFacts.

(* ===================================================================== *)
(** ** Provisioning twice, and the ledgers over a run *)
(* ===================================================================== *)

Module LedgerFacts.
Import Fs Js Util Props MoreProps FsFacts RollbackFacts MkdirFacts.

#[local] Set Warnings "-clear-no-such-hyp".

(** After [mkdirp], every directory on the way to the target is
    there. *)
Lemma mkdirp_from_all m made done todo made' m' :
  mkdirp_from m made done todo = Ok (made', m') →
  ∀ i, (0 < i ≤ List.length todo)%nat →
       m' !! (done ++ take i todo)%list = Some Dir.
Proof.
  revert m made done. induction todo as [|seg rest IH]; intros m made done.
  - simpl. intros _ i Hi. lia.
  - simpl. destruct (m !! (done ++ [seg])%list) as [[c|]|] eqn:E;
      [discriminate | |]; intros Hrec i Hi.
    + destruct i as [|[|i]]; [lia | |].
      * simpl. rewrite take_0. by eapply mkdirp_from_keeps.
      * simpl. specialize (IH _ _ _ Hrec (S i) ltac:(simpl in Hi; lia)).
        by rewrite <- app_assoc in IH.
    + destruct i as [|[|i]]; [lia | |].
      * simpl. rewrite take_0. eapply mkdirp_from_keeps; [exact Hrec |].
        apply lookup_insert_eq.
      * simpl. specialize (IH _ _ _ Hrec (S i) ltac:(simpl in Hi; lia)).
        by rewrite <- app_assoc in IH.
Qed.

Lemma disk_push_parts dir dirParts i s :
  disk (push_parts dir dirParts i s) = disk s.
Proof. by rewrite push_parts_spec. Qed.

(** X1. A [mkdir] that returns leaves every directory of the path in
    place, and calling it again with the same path creates nothing,
    records nothing and resolves to [undefined]. *)
Theorem mkdir_twice_records_once (filePath : string) (o : options)
    (s s1 : state) (created : option (list string)) :
  let l := resolve (disk s) (NodePath.join (directory o) filePath) in
  mkdir filePath o s = Return created s1 →
  (∀ i, (0 < i ≤ List.length l)%nat → lookup (disk s1) (take i l) = Some Dir)
  ∧ mkdir filePath o s1 = Return None s1.
Proof.
  intros l Hm. unfold mkdir in Hm.
  destruct (mkdirp (disk s) _) as [[made d']|e] eqn:Hmk; [| done].
  assert (disk s1 = d') as Hd.
  { destruct made; injection Hm as _ <-;
      [by rewrite disk_push_parts | done]. }
  unfold mkdirp in Hmk.
  destruct (mkdirp_from _ _ _ _) as [[made' m']|e] eqn:Hfrom; [| done].
  injection Hmk as -> <-.
  assert (∀ i, (0 < i ≤ List.length l)%nat → m' !! take i l = Some Dir)
    as Hall by (intros i Hi; by apply (mkdirp_from_all _ _ _ _ _ _ Hfrom i)).
  split.
  - intros i Hi. rewrite Hd. rewrite lookup_nonroot; [by apply Hall |].
    destruct l, i; simpl in *; try done; lia.
  - assert (resolve (disk s1) (NodePath.join (directory o) filePath) = l)
      as Hres by by rewrite Hd.
    assert (nodes (disk s1) = m') as Hnodes by by rewrite Hd.
    unfold mkdir, mkdirp. rewrite Hres, Hnodes.
    rewrite (mkdirp_from_present m' [] l Hall).
    by rewrite <- Hnodes, with_nodes_id, set_disk_id.
Qed.

(** On the sample project: [inf/k8s] is provisioned once. *)
Lemma mkdir_twice_records_once_witness :
  mkdir "inf/k8s" Scenario.interactive Scenario.after_mkdir
  = Return None Scenario.after_mkdir.
Proof.
  destruct (mkdir "inf/k8s" Scenario.interactive
              (Scenario.fresh Scenario.project_disk))
    as [created s1|e s1|s1|s1] eqn:Hm;
    try (vm_compute in Hm; discriminate).
  assert (Scenario.after_mkdir = s1) as ->
    by (unfold Scenario.after_mkdir; by rewrite Hm).
  exact (proj2 (mkdir_twice_records_once "inf/k8s" Scenario.interactive
                  (Scenario.fresh Scenario.project_disk) s1 created Hm)).
Defined.

(** *** The de-duplication of [dirsWritten] *)

Lemma indexOf_bound v l i : indexOf v l = Some i → (i < List.length l)%nat.
Proof.
  revert i. induction l as [|x r IH]; intros i; simpl; [done |].
  destruct (String.eqb x v); [intros [= <-]; lia |].
  destruct (indexOf v r) as [j|]; [| done]. intros [= <-].
  specialize (IH j eq_refl). lia.
Qed.

Lemma indexOf_app_in v pre l :
  v ∈ pre → indexOf v (pre ++ l) = indexOf v pre.
Proof.
  induction pre as [|x r IH]; intros Hin; [by apply not_elem_of_nil in Hin |].
  simpl. destruct (String.eqb x v) eqn:E; [done |].
  apply elem_of_cons in Hin as [-> | Hin]; [by rewrite String.eqb_refl in E |].
  by rewrite IH.
Qed.

Lemma indexOf_app_notin v pre l :
  v ∉ pre → indexOf v (pre ++ v :: l) = Some (List.length pre).
Proof.
  induction pre as [|x r IH]; intros Hin; simpl.
  - by rewrite String.eqb_refl.
  - apply not_elem_of_cons in Hin as [Hne Hin].
    destruct (String.eqb x v) eqn:E; [apply String.eqb_eq in E; congruence |].
    by rewrite IH.
Qed.

Lemma first_occurrences_spec pre l :
  let kept := first_occurrences (pre ++ l) (List.length pre) l in
  (∀ x, x ∈ kept ↔ x ∈ l ∧ x ∉ pre)
  ∧ NoDup kept
  ∧ kept `sublist_of` l.
Proof.
  revert pre. induction l as [|v r IH]; intros pre; cbn zeta.
  - simpl. split; [| split; [constructor | done]].
    intros x. split; [by intros ?%not_elem_of_nil | by intros [?%not_elem_of_nil _]].
  - specialize (IH (pre ++ [v])%list). cbn zeta in IH.
    rewrite <- app_assoc, length_app in IH. cbn [app List.length] in IH.
    replace (List.length pre + 1)%nat with (S (List.length pre)) in IH by lia.
    destruct IH as (Hmem & Hnd & Hsub).
    cbn [first_occurrences].
    destruct (decide (v ∈ pre)) as [Hin | Hnotin].
    + rewrite indexOf_app_in by done.
      rewrite bool_decide_eq_false_2.
      2:{ intros Hi. apply indexOf_bound in Hi. lia. }
      split; [| split; [done | by apply sublist_cons]].
      intros x. rewrite Hmem, elem_of_cons, not_elem_of_app, list_elem_of_singleton.
      split; [naive_solver |]. intros [[-> | Hx] Hp]; [done |].
      split; [done |]. split; [done |]. intros ->. done.
    + rewrite indexOf_app_notin by done.
      rewrite bool_decide_eq_true_2 by done.
      split; [| split].
      * intros x. rewrite !elem_of_cons, Hmem, not_elem_of_app,
          list_elem_of_singleton.
        destruct (decide (x = v)) as [-> | Hne]; naive_solver.
      * apply NoDup_cons. split; [| done].
        rewrite Hmem, not_elem_of_app, list_elem_of_singleton. naive_solver.
      * by apply sublist_skip.
Qed.

(** What is kept of [l] does not depend on what follows it. *)
Lemma first_occurrences_more pre l post :
  first_occurrences (pre ++ l ++ post) (List.length pre) l
  = first_occurrences (pre ++ l) (List.length pre) l.
Proof.
  revert pre. induction l as [|v r IH]; intros pre; [done |].
  cbn [first_occurrences].
  assert (indexOf v (pre ++ (v :: r) ++ post) = indexOf v (pre ++ v :: r))
    as ->.
  { destruct (decide (v ∈ pre)) as [Hin|Hout].
    - by rewrite !indexOf_app_in.
    - cbn [app]. by rewrite !indexOf_app_notin. }
  specialize (IH (pre ++ [v])%list).
  rewrite <- !app_assoc, length_app in IH. cbn [app List.length] in IH.
  replace (List.length pre + 1)%nat with (S (List.length pre)) in IH by lia.
  cbn [app]. by rewrite IH.
Qed.

Lemma first_occurrences_snoc whole i l x :
  first_occurrences whole i (l ++ [x])
  = (first_occurrences whole i l
     ++ (if bool_decide (indexOf x whole = Some (i + List.length l)%nat)
         then [x] else []))%list.
Proof.
  revert i. induction l as [|v r IH]; intros i.
  - cbn [app first_occurrences List.length]. rewrite Nat.add_0_r.
    by case_bool_decide.
  - cbn [app first_occurrences List.length]. rewrite IH.
    replace (S i + List.length r)%nat with (i + S (List.length r))%nat by lia.
    by case_bool_decide.
Qed.

Lemma dirsToRemove_snoc dirs x :
  dirsToRemove (dirs ++ [x])
  = if bool_decide (x ∈ dirs) then dirsToRemove dirs
    else (dirsToRemove dirs ++ [x])%list.
Proof.
  unfold dirsToRemove. rewrite first_occurrences_snoc.
  pose proof (first_occurrences_more [] dirs [x]) as Hmore.
  cbn [app List.length] in Hmore. rewrite Hmore. cbn [Nat.add].
  destruct (decide (x ∈ dirs)) as [Hin|Hout].
  - rewrite (bool_decide_eq_true_2 _ Hin), indexOf_app_in by done.
    rewrite bool_decide_eq_false_2; [by rewrite app_nil_r |].
    intros Hi. apply indexOf_bound in Hi. lia.
  - rewrite (bool_decide_eq_false_2 _ Hout), indexOf_app_notin by done.
    by rewrite bool_decide_eq_true_2.
Qed.

(** X2. The directories rollback visits are the ledgered ones, each
    exactly once, in the order of their first appearance: an entry
    appended to the ledger is appended to the list when it is new,
    and changes nothing when the ledger already has it. *)
Theorem dirsToRemove_is_the_ledger_without_repeats (dirs : list string) :
  (∀ x, x ∈ dirsToRemove dirs ↔ x ∈ dirs)
  ∧ NoDup (dirsToRemove dirs)
  ∧ dirsToRemove dirs `sublist_of` dirs
  ∧ dirsToRemove [] = []
  ∧ ∀ x, dirsToRemove (dirs ++ [x])
         = if bool_decide (x ∈ dirs) then dirsToRemove dirs
           else (dirsToRemove dirs ++ [x])%list.
Proof.
  destruct (first_occurrences_spec [] dirs) as (Hmem & Hnd & Hsub).
  split; [| split; [exact Hnd | split; [exact Hsub |]]].
  - intros x. rewrite (Hmem x). split; [naive_solver |].
    intros Hx. split; [done | apply not_elem_of_nil].
  - split; [reflexivity |]. intros x. apply dirsToRemove_snoc.
Qed.

(** *** What one call can change *)

(** Any relation between states that is reflexive and transitive and
    holds across each elementary effect of [confirmWriteFile] holds
    between the state before a call and the state it ends in. *)
Lemma confirmWriteFile_steps (R : state → state → Prop)
    (filePath content : string) (o : options) :
  let fullPath := NodePath.join (directory o) filePath in
  (∀ s, R s s) →
  (∀ s1 s2 s3, R s1 s2 → R s2 s3 → R s1 s3) →
  (∀ s e, R s (emit e s)) →
  (∀ s, existsSync (disk s) fullPath = false → R s (push_file fullPath s)) →
  (∀ s d', writeFile (disk s) fullPath content = Ok d' → R s (set_disk d' s)) →
  ∀ answers s,
    R s (final (confirmWriteFile answers filePath content o s).1).
Proof.
  intros fullPath Hrefl Htrans Hemit Hpush Hwrite.
  assert (∀ s msg, R s (debug msg s)) as Hdebug.
  { intros s msg. unfold debug. destruct (debugOn s); [apply Hemit | apply Hrefl]. }
  assert (∀ b s, R s (final (write_tail b filePath fullPath content o s)))
    as Htail.
  { intros [] s; [| apply Hrefl]. unfold write_tail.
    set (s1 := if _ && _ then push_file fullPath s else s).
    assert (R s s1) as H1.
    { subst s1. destruct (negb (dontPrune o)); cbn [andb]; [| apply Hrefl].
      destruct (existsSync (disk s) fullPath) eqn:E; cbn [negb];
        [apply Hrefl | by apply Hpush]. }
    destruct (writeFile (disk s1) fullPath content) as [d'|e] eqn:Hw;
      cbn [final fatal].
    - eapply Htrans; [exact H1 |]. eapply Htrans; [by apply Hwrite |].
      apply Hdebug.
    - eapply Htrans; [exact H1 | apply Hemit]. }
  induction answers as [|a rest IH]; intros s;
    rewrite util_confirmWriteFile_eq; cbv zeta; fold fullPath;
    (destruct (negb (update o) && _); [apply Hrefl |]);
    (destruct (_ && update o && negb (force o));
     [| destruct (force o); apply Htail]);
    (destruct (readFile _ _) as [existing|e]; [| apply Hrefl]);
    (destruct (String.eqb content existing); [apply Hrefl |]).
  - apply Hemit.
  - destruct a; cbn [fst].
    + eapply Htrans; [apply Hemit | apply Htail].
    + eapply Htrans; [apply Hemit | apply Htail].
    + specialize (IH (tryDiff content existing
                        (emit (EvPrompt (promptText filePath)) s))).
      assert (R s (tryDiff content existing
                     (emit (EvPrompt (promptText filePath)) s))) as H0
        by (eapply Htrans; apply Hemit).
      destruct (confirmWriteFile rest filePath content o _)
        as [[v s3|e s3|s3|s3] r]; cbn [fst final] in *;
        try (by eapply Htrans; [exact H0 | exact IH]).
      eapply Htrans; [exact H0 |]. eapply Htrans; [exact IH | apply Htail].
Qed.

(** The same for [mkdir]. *)
Lemma mkdir_steps (R : state → state → Prop) (filePath : string)
    (o : options) :
  (∀ s, R s s) →
  (∀ s1 s2 s3, R s1 s2 → R s2 s3 → R s1 s3) →
  (∀ s p, R s (push_dir p s)) →
  (∀ s made d',
      mkdirp (disk s) (NodePath.join (directory o) filePath) = Ok (made, d') →
      R s (set_disk d' s)) →
  ∀ s, R s (final (mkdir filePath o s)).
Proof.
  intros Hrefl Htrans Hpush Hmk s. unfold mkdir.
  destruct (mkdirp (disk s) _) as [[made d']|e] eqn:E; [| apply Hrefl].
  assert (∀ dir dirParts i s0, R s0 (push_parts dir dirParts i s0)) as Hparts.
  { intros dir dirParts i. induction i as [|j IH]; intros s0; [apply Hrefl |].
    cbn [push_parts]. eapply Htrans; [apply Hpush | apply IH]. }
  destruct made; cbn [final].
  - eapply Htrans; [by eapply Hmk | apply Hparts].
  - by eapply Hmk.
Qed.

Lemma grows_refl s : grows s s.
Proof. repeat split; eauto. Qed.

Lemma grows_trans s1 s2 s3 : grows s1 s2 → grows s2 s3 → grows s1 s3.
Proof.
  intros (C1 & F1 & D1 & K1 & L1) (C2 & F2 & D2 & K2 & L2).
  split; [congruence |]. split; [by etrans |]. split; [by etrans |].
  split; [eauto |]. intros l c Hl. destruct (L1 l c Hl) as [c' Hc']. eauto.
Qed.

Lemma grows_write s p data d' :
  writeFile (disk s) p data = Ok d' → grows s (set_disk d' s).
Proof.
  intros Hw. apply writeFile_Ok in Hw as (Hne & Hnd & ->).
  split; [done |]. split; [done |]. split; [done |]. split.
  - intros l Hl. cbn [disk set_disk]. rewrite lookup_insert_node by done.
    case_decide; [congruence | done].
  - intros l c Hl. cbn [disk set_disk]. rewrite lookup_insert_node by done.
    case_decide; eauto.
Qed.

Lemma grows_mkdirp s p made d' :
  mkdirp (disk s) p = Ok (made, d') → grows s (set_disk d' s).
Proof.
  intros Hm. pose proof (cwd_mkdirp _ _ _ _ Hm) as Hc.
  unfold mkdirp in Hm.
  destruct (mkdirp_from _ _ _ _) as [[made' m']|e] eqn:E; [| done].
  injection Hm as -> <-.
  assert (∀ l n, lookup (disk s) l = Some n →
                 lookup (with_nodes (disk s) m') l = Some n) as Hkeep.
  { intros [|x l] n; [done |]. simpl. by eapply mkdirp_from_keeps. }
  split; [done |]. split; [done |]. split; [done |]. split; eauto.
Qed.

(** X3. A run only adds: whatever calls it makes and however they end,
    both ledgers are only appended to, every directory stays a
    directory and every file stays a file (its content may change). *)
Theorem run_only_adds (s0 s : state) : run s0 s → grows s0 s.
Proof.
  induction 1 as [|s1 s2 s3 Hcall _ IH]; [apply grows_refl |].
  eapply grows_trans; [| exact IH]. destruct Hcall.
  - apply (confirmWriteFile_steps grows).
    + apply grows_refl.
    + apply grows_trans.
    + intros s1 e. repeat split; cbn [emit disk]; eauto.
    + intros s1 _. split; [done |]. split; [by apply prefix_app_r |].
      repeat split; eauto.
    + intros s1 d'. apply grows_write.
  - apply (mkdir_steps grows).
    + apply grows_refl.
    + apply grows_trans.
    + intros s1 p. split; [done |]. split; [done |].
      split; [by apply prefix_app_r |]. repeat split; eauto.
    + intros s1 made d'. apply grows_mkdirp.
Qed.

(** On the sample run. *)
Lemma run_only_adds_witness :
  grows (Scenario.fresh Scenario.project_disk) Scenario.after_write.
Proof.
  apply run_only_adds.
  eapply rtc_l; [apply call_mkdir |].
  eapply rtc_l; [apply call_confirmWriteFile |]. apply rtc_refl.
Defined.

(** X4. A call of [confirmWriteFile] changes at most the node at its
    target path: every other location of the disk is as before,
    whatever the options and the answers. *)
Theorem confirmWriteFile_touches_only_its_target
    (answers : list answer) (filePath content : string) (o : options)
    (s : state) (l : loc) :
  l ≠ resolve (disk s) (NodePath.join (directory o) filePath) →
  lookup (disk (final (confirmWriteFile answers filePath content o s).1)) l
  = lookup (disk s) l.
Proof.
  intros Hl.
  set (fullPath := NodePath.join (directory o) filePath) in *.
  pose proof (confirmWriteFile_steps
    (λ s1 s2, cwd (disk s2) = cwd (disk s1)
              ∧ ∀ l, l ≠ resolve (disk s1) fullPath →
                     lookup (disk s2) l = lookup (disk s1) l)
    filePath content o) as H.
  cbv zeta in H. fold fullPath in H. apply H; try done.
  - intros s1 s2 s3 [C1 H1] [C2 H2]. split; [congruence |].
    intros l' Hl'. rewrite H2, H1; try done.
    by rewrite (resolve_cwd (disk s1)).
  - intros s1 d' Hw. apply writeFile_Ok in Hw as (Hne & _ & ->).
    split; [done |]. intros l' Hl'. cbn [disk set_disk].
    rewrite lookup_insert_node by done. case_decide; [congruence | done].
Qed.

(** Overwriting [a.txt] leaves [/tmp/proj] itself alone. *)
Lemma confirmWriteFile_touches_only_its_target_witness :
  lookup
    (disk (final (confirmWriteFile [Yes] "a.txt" "new" Scenario.interactive
                    (Scenario.fresh Scenario.project_disk)).1))
    ["tmp"; "proj"]
  = lookup Scenario.project_disk ["tmp"; "proj"].
Proof.
  apply (confirmWriteFile_touches_only_its_target [Yes] "a.txt" "new"
           Scenario.interactive (Scenario.fresh Scenario.project_disk)
           ["tmp"; "proj"]).
  vm_compute. discriminate.
Defined.

(** X5. A target that exists before the call is never recorded in the
    ledger, whatever the options and the answers - also when the call
    overwrites it. *)
Theorem existing_target_is_never_ledgered
    (answers : list answer) (filePath content : string) (o : options)
    (s : state) :
  existsSync (disk s) (NodePath.join (directory o) filePath) = true →
  filesWritten (final (confirmWriteFile answers filePath content o s).1)
  = filesWritten s.
Proof.
  set (fullPath := NodePath.join (directory o) filePath).
  pose proof (confirmWriteFile_steps
    (λ s1 s2, existsSync (disk s1) fullPath = true →
              filesWritten s2 = filesWritten s1
              ∧ existsSync (disk s2) fullPath = true)
    filePath content o) as H.
  cbv zeta in H. fold fullPath in H.
  intros Hex. apply H; try done.
  - intros s1 s2 s3 H1 H2 E. destruct (H1 E) as [F1 E1].
    destruct (H2 E1) as [F2 E2]. split; [congruence | done].
  - intros s1 E1 E2. congruence.
  - intros s1 d' Hw E. split; [done |].
    apply writeFile_Ok in Hw as (Hne & _ & ->). cbn [disk set_disk].
    apply existsSync_true. rewrite resolve_with_nodes, lookup_insert_node by done.
    rewrite decide_True by done. eauto.
Qed.

(** The accepted update of [a.txt] leaves the ledger empty. *)
Lemma existing_target_is_never_ledgered_witness :
  filesWritten
    (final (confirmWriteFile [Yes] "a.txt" "new" Scenario.interactive
              (Scenario.fresh Scenario.project_disk)).1)
  = [].
Proof.
  apply (existing_target_is_never_ledgered [Yes] "a.txt" "new"
           Scenario.interactive (Scenario.fresh Scenario.project_disk)).
  vm_compute. reflexivity.
Defined.

End LedgerFacts.

(* ===================================================================== *)
(** ** The policies of the utility reconciler *)
(* ===================================================================== *)

Module PolicyFacts.
Import Fs Js Util Props MoreProps FsFacts RollbackFacts ReconcileFacts.

Lemma prompts_shown_snoc t e :
  prompts_shown (t ++ [e]) = (prompts_shown t + (if is_prompt e then 1 else 0))%nat.
Proof.
  unfold prompts_shown. rewrite List.filter_app, length_app. simpl.
  by destruct (is_prompt e).
Qed.

Lemma prompts_shown_debug msg s :
  prompts_shown (trace (debug msg s)) = prompts_shown (trace s).
Proof.
  unfold debug. destruct (debugOn s); [| done]. cbn [trace emit].
  rewrite prompts_shown_snoc. simpl. lia.
Qed.

Lemma prompts_shown_write_tail b filePath fullPath content o s :
  prompts_shown (trace (final (write_tail b filePath fullPath content o s)))
  = prompts_shown (trace s).
Proof.
  destruct b; [| done]. rewrite write_tail_true.
  assert (trace (ledgered fullPath o s) = trace s) as Ht
    by (unfold ledgered; by destruct (_ && _)).
  destruct (writeFile _ _ _) as [d'|e]; cbn [final fatal].
  - rewrite prompts_shown_debug. cbn [trace set_disk]. by rewrite Ht.
  - cbn [trace emit]. rewrite prompts_shown_snoc, Ht. simpl. lia.
Qed.

(** X6. The prompt is shown only under the interactive policy: with
    [update] off or [force] on, a call shows no prompt and consumes no
    answer. *)
Theorem prompt_needs_update_without_force
    (answers : list answer) (filePath content : string) (o : options)
    (s : state) :
  update o = false ∨ force o = true →
  (confirmWriteFile answers filePath content o s).2 = answers
  ∧ prompts_shown
      (trace (final (confirmWriteFile answers filePath content o s).1))
    = prompts_shown (trace s).
Proof.
  intros Hpol. rewrite util_confirmWriteFile_eq. cbv zeta.
  destruct (negb (update o) && _); [done |].
  assert (∀ b, b && update o && negb (force o) = false) as ->.
  { intros b. destruct Hpol as [-> | ->]; by destruct b, (update o). }
  destruct (force o); cbn [fst snd];
    (split; [done | apply prompts_shown_write_tail]).
Qed.

(** A forced call, given an answer it never looks at. *)
Lemma prompt_needs_update_without_force_witness :
  (confirmWriteFile [No] "a.txt" "new" Scenario.forceOnly
     (Scenario.fresh Scenario.project_disk)).2
  = [No].
Proof.
  refine (proj1 (prompt_needs_update_without_force [No] "a.txt" "new"
                   Scenario.forceOnly (Scenario.fresh Scenario.project_disk)
                   _)).
  right. reflexivity.
Defined.

(** X7. With [update] off nothing that exists is changed: every node
    of the disk, file content included, is after the call what it was
    before - with or without [force]. *)
Theorem without_update_nothing_existing_changes
    (answers : list answer) (filePath content : string) (o : options)
    (s : state) (l : loc) (n : node) :
  update o = false →
  lookup (disk s) l = Some n →
  lookup (disk (final (confirmWriteFile answers filePath content o s).1)) l
  = Some n.
Proof.
  intros Hu Hl. rewrite util_confirmWriteFile_eq. cbv zeta. rewrite Hu.
  set (fullPath := NodePath.join (directory o) filePath).
  destruct (existsSync (disk s) fullPath) eqn:Hex; cbn [negb andb]; [done |].
  apply existsSync_false in Hex.
  assert (∀ b, lookup (disk (final (write_tail b filePath fullPath content o s))) l
               = Some n) as Htail.
  { intros [] ; [| done]. rewrite write_tail_true.
    destruct (writeFile (disk s) fullPath content) as [d'|e] eqn:Hw;
      cbn [final fatal].
    - rewrite disk_debug. cbn [disk set_disk].
      apply writeFile_Ok in Hw as (Hne & _ & ->).
      rewrite lookup_insert_node by done. case_decide; [congruence | done].
    - cbn [disk emit]. by rewrite disk_ledgered. }
  destruct (force o); apply Htail.
Qed.

(** [a.txt] under the non-interactive policy with [force]. *)
Lemma without_update_nothing_existing_changes_witness :
  lookup
    (disk (final (confirmWriteFile [] "a.txt" "new" Scenario.forceOnly
                    (Scenario.fresh Scenario.project_disk)).1))
    ["tmp"; "proj"; "a.txt"]
  = Some (File "old").
Proof.
  apply (without_update_nothing_existing_changes [] "a.txt" "new"
           Scenario.forceOnly (Scenario.fresh Scenario.project_disk));
    vm_compute; reflexivity.
Defined.

End PolicyFacts.

(* ===================================================================== *)
(** ** Rollback: the ledger afterwards, and odd paths *)
(* ===================================================================== *)

Module RollbackMore.
Import Fs Js Util Props MoreProps FsFacts RollbackFacts PathFacts
       RollbackReach.

(** Any reflexive and transitive relation between states that holds
    across a debug line, a successful [unlinkSync] and a successful
    [rmdirSync] holds between the state before rollback and the state
    rollback ends in. *)
Section Steps.
Variable R : state → state → Prop.
Hypothesis Hrefl : ∀ s, R s s.
Hypothesis Htrans : ∀ s1 s2 s3, R s1 s2 → R s2 s3 → R s1 s3.
Hypothesis Hdebug : ∀ s msg, R s (debug msg s).
Hypothesis Hunlink :
  ∀ s p d', unlinkSync (disk s) p = Ok d' → R s (set_disk d' s).
Hypothesis Hrmdir :
  ∀ s p d', rmdirSync (disk s) p = Ok d' → R s (set_disk d' s).

Lemma removeChain_steps dirParts i s :
  R s (final (removeChain dirParts i s)).
Proof.
  revert s. induction i as [|j IH]; intros s;
    match goal with
    | |- context [removeChain ?p ?i ?s] =>
        destruct (removeChain_cases p i s)
          as [[_ ->]|[(_ & _ & ->)|[(_ & e & _ & ->)|[(_ & ns & _ & _ & ->)
              |(_ & _ & [(e & _ & ->)|(d' & Hrm & ->)])]]]]
    end; cbn [final chain_next]; try apply Hrefl; try apply Hdebug;
    try apply IH.
  - eapply Htrans; [apply Hdebug |]. eapply Hrmdir.
    by rewrite disk_debug.
  - eapply Htrans; [apply Hdebug |].
    eapply Htrans; [eapply Hrmdir; by rewrite disk_debug | apply IH].
Qed.

Lemma removeDirs_steps dirs s : R s (final (removeDirs dirs s)).
Proof.
  revert s. induction dirs as [|dir rest IH]; intros s; [apply Hrefl |].
  cbn [removeDirs].
  match goal with
  | |- context [removeChain ?p ?i s] =>
      pose proof (removeChain_steps p i s) as H;
      destruct (removeChain p i s) as [v s'|e s'|s'|s']
  end; cbn [final] in *; try done.
  eapply Htrans; [exact H | apply IH].
Qed.

Lemma removeFiles_steps files s : R s (final (removeFiles files s)).
Proof.
  revert s. induction files as [|f rest IH]; intros s; [apply Hrefl |].
  cbn [removeFiles].
  destruct (unlinkSync _ f) as [d'|e] eqn:Hun; cbn [final].
  - eapply Htrans; [apply Hdebug |].
    eapply Htrans; [by eapply Hunlink | apply IH].
  - apply Hdebug.
Qed.

Lemma cleanup_steps s : R s (final (cleanupWrittenFiles s)).
Proof.
  unfold cleanupWrittenFiles.
  pose proof (removeFiles_steps (filesWritten s) s) as H.
  destruct (removeFiles (filesWritten s) s) as [v s1|e s1|s1|s1];
    cbn [final] in *; try done.
  eapply Htrans; [exact H | apply removeDirs_steps].
Qed.

End Steps.

Lemma shrunk_refl s : shrunk s s.
Proof. by repeat split. Qed.

Lemma shrunk_trans s1 s2 s3 : shrunk s1 s2 → shrunk s2 s3 → shrunk s1 s3.
Proof.
  intros (C1 & F1 & D1 & N1) (C2 & F2 & D2 & N2).
  repeat split; try congruence. eauto.
Qed.

Lemma shrunk_delete s l :
  shrunk s (set_disk (with_nodes (disk s) (delete l (nodes (disk s)))) s).
Proof.
  repeat split; try done. intros k n. cbn [disk set_disk with_nodes nodes].
  rewrite lookup_delete. by case_decide.
Qed.

(** Rollback only removes nodes and leaves both ledgers as they are. *)
Lemma shrunk_cleanup s : shrunk s (final (cleanupWrittenFiles s)).
Proof.
  apply (cleanup_steps shrunk).
  - apply shrunk_refl.
  - apply shrunk_trans.
  - intros s0 msg. unfold debug. destruct (debugOn s0); by repeat split.
  - intros s0 p d' H. apply unlinkSync_Ok in H as (_ & _ & ->).
    apply shrunk_delete.
  - intros s0 p d' H. apply rmdirSync_Ok in H as (_ & _ & _ & ->).
    apply shrunk_delete.
Qed.

Lemma shrunk_removeFiles files s : shrunk s (final (removeFiles files s)).
Proof.
  apply (removeFiles_steps shrunk).
  - apply shrunk_refl.
  - apply shrunk_trans.
  - intros s0 msg. unfold debug. destruct (debugOn s0); by repeat split.
  - intros s0 p d' H. apply unlinkSync_Ok in H as (_ & _ & ->).
    apply shrunk_delete.
Qed.

Lemma shrunk_removeDirs dirs s : shrunk s (final (removeDirs dirs s)).
Proof.
  apply (removeDirs_steps shrunk).
  - apply shrunk_refl.
  - apply shrunk_trans.
  - intros s0 msg. unfold debug. destruct (debugOn s0); by repeat split.
  - intros s0 p d' H. apply rmdirSync_Ok in H as (_ & _ & _ & ->).
    apply shrunk_delete.
Qed.

(** When phase 1 returns, every ledgered file is gone. *)
Lemma removeFiles_Return_gone files s s1 :
  removeFiles files s = Return tt s1 →
  ∀ f, f ∈ files →
       resolve (disk s) f ≠ [] ∧ nodes (disk s1) !! resolve (disk s) f = None.
Proof.
  revert s. induction files as [|f0 rest IH]; intros s Hrun f Hf;
    [by apply not_elem_of_nil in Hf |].
  cbn [removeFiles] in Hrun. rewrite disk_debug in Hrun.
  destruct (unlinkSync (disk s) f0) as [d'|e] eqn:Hun; [| done].
  pose proof (unlinkSync_Ok _ _ _ Hun) as (Hne & _ & Hd).
  set (s' := set_disk d' (debug ("Removing file " +:+ quoted f0) s)) in *.
  assert (∀ p, resolve (disk s') p = resolve (disk s) p) as Hres
    by (intros p; subst s'; cbn [disk set_disk]; by rewrite Hd).
  apply elem_of_cons in Hf as [-> | Hf].
  - split; [done |].
    destruct (shrunk_removeFiles rest s') as (_ & _ & _ & Hsub).
    rewrite Hrun in Hsub. cbn [final] in Hsub.
    destruct (nodes (disk s1) !! resolve (disk s) f0) as [n|] eqn:E; [| done].
    apply Hsub in E. subst s'. cbn [disk set_disk] in E. rewrite Hd in E.
    cbn [nodes with_nodes] in E. by rewrite lookup_delete_eq in E.
  - destruct (IH s' Hrun f Hf) as [H1 H2]. by rewrite Hres in H1, H2.
Qed.

(** X8. Rollback does not consume the ledger.  When it returns, both
    ledgers are what they were and every ledgered file is gone; so
    after a rollback that removed at least one file, a second rollback
    raises [ENOENT] on the first ledgered file. *)
Theorem rollback_keeps_the_ledger (s s1 : state) :
  cleanupWrittenFiles s = Return tt s1 →
  filesWritten s1 = filesWritten s
  ∧ dirsWritten s1 = dirsWritten s
  ∧ (∀ f, f ∈ filesWritten s → existsSync (disk s1) f = false)
  ∧ (∀ f rest,
        filesWritten s = f :: rest →
        cleanupWrittenFiles s1
        = Throw (IoError ENOENT) (debug ("Removing file " +:+ quoted f) s1)).
Proof.
  intros Hrun.
  destruct (shrunk_cleanup s) as (Hcwd & Hfw & Hdw & _).
  rewrite Hrun in Hcwd, Hfw, Hdw. cbn [final] in *.
  assert (∀ f, f ∈ filesWritten s →
               resolve (disk s1) f ≠ []
               ∧ nodes (disk s1) !! resolve (disk s1) f = None) as Hgone.
  { intros f Hf. unfold cleanupWrittenFiles in Hrun.
    destruct (removeFiles (filesWritten s) s) as [v s'|e s'|s'|s'] eqn:Hph1;
      try done.
    destruct v.
    destruct (removeFiles_Return_gone _ _ _ Hph1 f Hf) as [Hne Hnone].
    destruct (shrunk_removeDirs (dirsToRemove (dirsWritten s')) s')
      as (_ & _ & _ & Hsub).
    rewrite Hrun in Hsub. cbn [final] in Hsub.
    rewrite (resolve_cwd (disk s)) by done. split; [done |].
    destruct (nodes (disk s1) !! resolve (disk s) f) as [n|] eqn:E; [| done].
    apply Hsub in E. congruence. }
  split; [done |]. split; [done |]. split.
  - intros f Hf. destruct (Hgone f Hf) as [Hne Hnone].
    apply existsSync_false. by rewrite lookup_nonroot.
  - intros f rest Hled. destruct (Hgone f) as [Hne Hnone];
      [rewrite Hled; left |].
    unfold cleanupWrittenFiles. rewrite Hfw, Hled. cbn [removeFiles].
    rewrite disk_debug. unfold unlinkSync.
    destruct (resolve (disk s1) f) as [|x l] eqn:E; [done |].
    cbn [lookup]. by rewrite Hnone.
Qed.

(** Rolling the sample run back twice. *)
Lemma rollback_keeps_the_ledger_witness :
  ∃ s1,
    cleanupWrittenFiles Scenario.after_write = Return tt s1
    ∧ cleanupWrittenFiles s1
      = Throw (IoError ENOENT)
          (debug ("Removing file " +:+ quoted "/tmp/proj/inf/k8s/app.yaml") s1).
Proof.
  destruct (cleanupWrittenFiles Scenario.after_write)
    as [[] s1|e s1|s1|s1] eqn:Hrun; try (vm_compute in Hrun; discriminate).
  exists s1. split; [reflexivity |].
  apply (proj2 (proj2 (proj2 (rollback_keeps_the_ledger
                                Scenario.after_write s1 Hrun)))
           "/tmp/proj/inf/k8s/app.yaml" []).
  vm_compute. reflexivity.
Defined.

(** *** Paths that contain [./] *)

Lemma split_nonempty c x : JsString.split c x ≠ [].
Proof.
  destruct x as [|a r]; simpl; [done |].
  destruct (Ascii.eqb a c); [done |]. by destruct (JsString.split c r).
Qed.

(** Splitting at the separator and joining again gives the path
    back. *)
Lemma join_split x :
  JsString.join NodePath.sep (JsString.split NodePath.sep_char x) = x.
Proof.
  induction x as [|a r IH]; [done |]. cbn [JsString.split].
  destruct (Ascii.eqb a NodePath.sep_char) eqn:E.
  - apply Ascii.eqb_eq in E as ->.
    pose proof (split_nonempty NodePath.sep_char r) as Hne.
    destruct (JsString.split NodePath.sep_char r) as [|h t] eqn:Es; [done |].
    change (JsString.join NodePath.sep ("" :: h :: t))
      with ("/" +:+ JsString.join NodePath.sep (h :: t)).
    by rewrite IH.
  - pose proof (split_nonempty NodePath.sep_char r) as Hne.
    destruct (JsString.split NodePath.sep_char r) as [|h t] eqn:Es; [done |].
    destruct t as [|h2 t].
    + simpl in *. by rewrite IH.
    + change (JsString.join NodePath.sep (String a h :: h2 :: t))
        with (String a (JsString.join NodePath.sep (h :: h2 :: t))).
      by rewrite IH.
Qed.

(** X9. [dir.replace('./', '')] cuts the first [./] wherever it
    stands.  For a ledgered directory [../p] (a project directory given
    relative to the parent directory) rollback therefore looks for
    [.p]: unless something of that name exists, the iteration for
    [../p] removes nothing, whether [../p] is empty or not. *)
Theorem parent_relative_directory_is_not_rolled_back
    (p : string) (rest : list string) (s : state) :
  existsSync (disk s) ("." +:+ p) = false →
  removeDirs (("../" +:+ p) :: rest) s = removeDirs rest s.
Proof.
  intros Hex. cbn [removeDirs].
  change (JsString.replace "./" "" ("../" +:+ p)) with ("." +:+ p).
  rewrite removeChain_eq. cbv zeta. unfold chain_dirPart.
  rewrite firstn_all, join_split.
  change (JsString.truthy ("." +:+ p)) with true. cbn [negb].
  by rewrite Hex.
Qed.

(** The project is [../proj]: [mkdir("inf")] ledgers [../proj/inf],
    and rollback leaves the new directory [/tmp/proj/inf] behind. *)
Lemma parent_relative_directory_is_not_rolled_back_witness :
  dirsWritten MoreScenario.after_sibling_mkdir = ["../proj/inf"]
  ∧ cleanupWrittenFiles MoreScenario.after_sibling_mkdir
    = Return tt MoreScenario.after_sibling_mkdir
  ∧ lookup (disk MoreScenario.after_sibling_mkdir) ["tmp"; "proj"; "inf"]
    = Some Dir.
Proof.
  split; [vm_compute; reflexivity |]. split; [| vm_compute; reflexivity].
  unfold cleanupWrittenFiles.
  change (filesWritten MoreScenario.after_sibling_mkdir) with (@nil string).
  cbn [removeFiles].
  change (dirsToRemove (dirsWritten MoreScenario.after_sibling_mkdir))
    with ["../" +:+ "proj/inf"].
  apply (parent_relative_directory_is_not_rolled_back "proj/inf" []
           MoreScenario.after_sibling_mkdir).
  vm_compute. reflexivity.
Defined.

End RollbackMore.

(* ===================================================================== *)
(** ** Provision, write, roll back *)
(* ===================================================================== *)

Module PathMore.
Import Fs Props MoreProps PathFacts.

Lemma startsWith_app p x b :
  JsString.startsWith p x = true → JsString.startsWith p (x +:+ b) = true.
Proof.
  revert x. induction p as [|a p IH]; intros x; [by destruct x |].
  destruct x as [|c x]; [done |]. simpl.
  intros [-> H]%andb_prop. by rewrite IH.
Qed.

Lemma no_dot_slash_app_l a b :
  no_dot_slash (a +:+ b) = true → no_dot_slash a = true.
Proof.
  induction a as [|c r IH]; [done |].
  change (String c r +:+ b) with (String c (r +:+ b)).
  cbn [no_dot_slash]. intros [H1 H2]%andb_prop.
  rewrite (IH H2), andb_true_r.
  destruct (JsString.startsWith "./" (String c r)) eqn:E; [| done].
  apply (startsWith_app _ _ b) in E.
  change (String c r +:+ b) with (String c (r +:+ b)) in E.
  by rewrite E in H1.
Qed.

Lemma no_dot_slash_app_r a b :
  no_dot_slash (a +:+ b) = true → no_dot_slash b = true.
Proof.
  induction a as [|c r IH]; [done |].
  change (String c r +:+ b) with (String c (r +:+ b)).
  cbn [no_dot_slash]. intros [_ H2]%andb_prop. by apply IH.
Qed.

(** Without a [./] inside, [replace('./', '')] changes nothing. *)
Lemma replace_no_dot_slash s :
  no_dot_slash s = true → JsString.replace "./" "" s = s.
Proof.
  induction s as [|c r IH]; [done |].
  cbn [no_dot_slash]. intros [H1 H2]%andb_prop.
  apply negb_true_iff in H1.
  change (JsString.replace "./" "" (String c r))
    with (if JsString.startsWith "./" (String c r)
          then "" +:+ JsString.drop 2 (String c r)
          else String c (JsString.replace "./" "" r)).
  by rewrite H1, IH.
Qed.

Lemma append_assoc (a b c : string) : (a +:+ b) +:+ c = a +:+ (b +:+ c).
Proof.
  induction a as [|x a IH]; [done |].
  change (String x ((a +:+ b) +:+ c) = String x (a +:+ b +:+ c)).
  by rewrite IH.
Qed.

Lemma join_cons_cons x y r :
  JsString.join NodePath.sep (x :: y :: r)
  = x +:+ "/" +:+ JsString.join NodePath.sep (y :: r).
Proof. reflexivity. Qed.

Lemma join_app xs ys :
  xs ≠ [] → ys ≠ [] →
  JsString.join NodePath.sep (xs ++ ys)
  = JsString.join NodePath.sep xs +:+ "/" +:+ JsString.join NodePath.sep ys.
Proof.
  intros Hx Hy. induction xs as [|x r IH]; [done |].
  destruct r as [|y r].
  - destruct ys as [|z ys]; [done |]. reflexivity.
  - change ((x :: y :: r) ++ ys)%list with (x :: (y :: r) ++ ys)%list.
    cbn [app]. rewrite !join_cons_cons. cbn [app] in IH.
    rewrite IH by done. by rewrite !append_assoc.
Qed.

Lemma absolute_app xs ys :
  xs ≠ [] → ys ≠ [] →
  absolute (xs ++ ys)
  = absolute xs +:+ "/" +:+ JsString.join NodePath.sep ys.
Proof.
  intros Hx Hy. unfold absolute. rewrite join_app by done.
  by rewrite !append_assoc.
Qed.

Lemma simple_nonempty x : simple x = true → x ≠ "".
Proof.
  unfold simple. intros H ->. simpl in H. done.
Qed.

Lemma join_nonempty xs :
  Forall (λ x, simple x = true) xs → xs ≠ [] →
  JsString.join NodePath.sep xs ≠ "".
Proof.
  intros Hs Hne. destruct Hs as [|x r Hx Hr]; [done |].
  apply simple_nonempty in Hx. destruct x; [done |].
  destruct r; [done | by rewrite join_cons_cons].
Qed.

(** [s.endsWith(c)] looks at the last character only. *)
Lemma endsWith_char_cons c a r :
  r ≠ "" →
  JsString.endsWith (String c "") (String a r)
  = JsString.endsWith (String c "") r.
Proof.
  intros Hr. destruct r as [|b r']; [done |].
  unfold JsString.endsWith.
  cbn [String.length Nat.leb Nat.sub andb].
  rewrite Nat.sub_0_r. reflexivity.
Qed.

Lemma endsWith_char_app c a b :
  b ≠ "" →
  JsString.endsWith (String c "") (a +:+ b)
  = JsString.endsWith (String c "") b.
Proof.
  intros Hb. induction a as [|x a IH]; [done |].
  change (String x a +:+ b) with (String x (a +:+ b)).
  rewrite endsWith_char_cons; [exact IH |].
  destruct a; [done | done].
Qed.

Lemma endsWith_absent c s :
  has_char c s = false → JsString.endsWith (String c "") s = false.
Proof.
  induction s as [|a r IH]; [done |]. cbn [has_char].
  intros [Ha Hr]%orb_false_iff.
  destruct r as [|b r'].
  - unfold JsString.endsWith. simpl.
    destruct (Ascii.eqb a c) eqn:E; [done |]. reflexivity.
  - rewrite endsWith_char_cons by done. by apply IH.
Qed.

Lemma join_no_trailing_sep xs :
  Forall (λ x, simple x = true) xs → xs ≠ [] →
  JsString.endsWith "/" (JsString.join NodePath.sep xs) = false.
Proof.
  induction 1 as [|x r Hx Hr IH]; [done |]. intros _.
  destruct r as [|y r].
  - apply endsWith_absent, simple_no_sep, Hx.
  - rewrite join_cons_cons.
    assert (JsString.join NodePath.sep (y :: r) ≠ "") as Hne
      by by apply join_nonempty.
    rewrite endsWith_char_app by by destruct (JsString.join _ _).
    change ("/" +:+ JsString.join NodePath.sep (y :: r))
      with (String "/" (JsString.join NodePath.sep (y :: r))).
    rewrite endsWith_char_cons by done. by apply IH.
Qed.

Lemma normalize_segments_simple b acc xs :
  Forall (λ x, simple x = true) xs →
  NodePath.normalize_segments b acc xs = (acc ++ xs)%list.
Proof.
  intros H. revert acc. induction H as [|x r Hx Hr IH]; intros acc.
  - by rewrite app_nil_r.
  - cbn [NodePath.normalize_segments]. unfold simple in Hx.
    apply andb_prop in Hx as [Hx _]. apply andb_prop in Hx as [Hx H3].
    apply andb_prop in Hx as [H1 H2].
    apply negb_true_iff in H1, H2, H3. rewrite H1, H2, H3. cbn [orb].
    rewrite IH. by rewrite <- app_assoc.
Qed.

(** An absolute path of ordinary names is already normal. *)
Lemma normalize_absolute xs :
  Forall (λ x, simple x = true) xs → xs ≠ [] →
  NodePath.normalize (absolute xs) = absolute xs.
Proof.
  intros Hs Hne. unfold NodePath.normalize.
  change (String.eqb (absolute xs) "") with false. cbv iota.
  change (NodePath.isAbsolute (absolute xs)) with true.
  rewrite split_absolute by done.
  cbn [NodePath.normalize_segments String.eqb negb orb].
  rewrite normalize_segments_simple by done. cbn [app].
  assert (JsString.endsWith "/" (absolute xs) = false) as ->.
  { unfold absolute.
    change ("/" +:+ JsString.join NodePath.sep xs)
      with (String "/" (JsString.join NodePath.sep xs)).
    rewrite endsWith_char_cons by by apply join_nonempty.
    by apply join_no_trailing_sep. }
  pose proof (join_nonempty xs Hs Hne) as Hj.
  unfold absolute.
  destruct (JsString.join NodePath.sep xs) eqn:E; [done |]. reflexivity.
Qed.

(** [path.join] of an absolute directory and a relative path, both of
    ordinary names. *)
Lemma join_absolute base parts :
  Forall (λ x, simple x = true) base → Forall (λ x, simple x = true) parts →
  base ≠ [] → parts ≠ [] →
  NodePath.join (absolute base) (JsString.join NodePath.sep parts)
  = absolute (base ++ parts).
Proof.
  intros Hb Hp Hbn Hpn. unfold NodePath.join.
  change (JsString.truthy (absolute base)) with true.
  pose proof (join_nonempty parts Hp Hpn) as Hj.
  assert (JsString.truthy (JsString.join NodePath.sep parts) = true) as ->
    by (destruct (JsString.join NodePath.sep parts); done).
  rewrite <- absolute_app by done.
  apply normalize_absolute; [by apply Forall_app | by destruct base].
Qed.

End PathMore.

Module RoundTrip.
Import Fs Js Util Props MoreProps FsFacts RollbackFacts MkdirFacts PathFacts
       RollbackReach LedgerFacts RollbackMore PathMore.

(** [mkdirp] succeeds when no file is in the way, and changes nothing
    off the path. *)
Lemma mkdirp_from_off_path m made done todo :
  (∀ i c, (0 < i ≤ List.length todo)%nat →
          m !! (done ++ take i todo)%list ≠ Some (File c)) →
  ∃ made' m',
    mkdirp_from m made done todo = Ok (made', m')
    ∧ ∀ l, (∀ i, (0 < i ≤ List.length todo)%nat →
                 l ≠ (done ++ take i todo)%list) →
           m' !! l = m !! l.
Proof.
  revert m made done. induction todo as [|seg rest IH]; intros m made done H.
  - exists made, m. done.
  - cbn [mkdirp_from].
    assert (∀ i, (0 < i ≤ List.length rest)%nat →
              (done ++ take (S i) (seg :: rest))%list
              = ((done ++ [seg]) ++ take i rest)%list) as Hshift.
    { intros i _. by rewrite <- app_assoc. }
    assert ((done ++ take 1 (seg :: rest))%list = (done ++ [seg])%list)
      as Hone by (simpl; by rewrite take_0).
    destruct (m !! (done ++ [seg])%list) as [[c|]|] eqn:E.
    + exfalso. apply (H 1%nat c); [simpl; lia |]. by rewrite Hone.
    + destruct (IH m made (done ++ [seg])%list) as (made' & m' & Hrun & Hoff).
      { intros i c Hi. rewrite <- Hshift by done. apply H. simpl. lia. }
      exists made', m'. split; [exact Hrun |].
      intros l Hl. apply Hoff. intros i Hi. rewrite <- Hshift by done.
      apply Hl. simpl. lia.
    + destruct (IH (<[(done ++ [seg])%list := Dir]> m)
                  (match made with Some x => Some x
                              | None => Some (done ++ [seg])%list end)
                  (done ++ [seg])%list) as (made' & m' & Hrun & Hoff).
      { intros i c Hi. rewrite <- Hshift by done.
        rewrite lookup_insert. case_decide; [done |].
        apply H. simpl. lia. }
      exists made', m'. split; [exact Hrun |].
      intros l Hl. rewrite Hoff.
      * apply lookup_insert_ne. intros Heq.
        apply (Hl 1%nat); [simpl; lia |]. by rewrite Hone.
      * intros i Hi. rewrite <- Hshift by done. apply Hl. simpl. lia.
Qed.

Lemma writeFile_new d p data :
  resolve d p ≠ [] →
  lookup d (parent (resolve d p)) = Some Dir →
  lookup d (resolve d p) = None →
  writeFile d p data
  = Ok (with_nodes d (<[resolve d p := File data]> (nodes d))).
Proof.
  intros Hne Hp Hn. unfold writeFile. cbv zeta.
  destruct (resolve d p) as [|x r] eqn:E; [done |]. by rewrite Hp, Hn.
Qed.

Lemma first_occurrences_Forall (P : string → Prop) whole i l :
  Forall P l → Forall P (first_occurrences whole i l).
Proof.
  intros H. revert i. induction H as [|v r Hv Hr IH]; intros i; [done |].
  cbn [first_occurrences]. case_bool_decide; [constructor |]; eauto.
Qed.

Lemma dirsToRemove_cons x r :
  dirsToRemove (x :: r) = x :: first_occurrences (x :: r) 1 r.
Proof.
  unfold dirsToRemove. cbn [first_occurrences indexOf].
  rewrite String.eqb_refl. by rewrite bool_decide_eq_true_2.
Qed.

Lemma take_prefix_le {A} (l : list A) (a b : nat) :
  (a ≤ b)%nat → take a l `prefix_of` take b l.
Proof.
  intros Hab. exists (take (b - a) (drop a l)).
  rewrite take_take_drop. f_equal. lia.
Qed.

Lemma take_prefix_whole {A} (l : list A) (a : nat) : take a l `prefix_of` l.
Proof. exists (drop a l). by rewrite take_drop. Qed.

Lemma prefix_take_length {A} (p l : list A) :
  p `prefix_of` l → take (List.length p) l = p.
Proof. intros [k ->]. by rewrite take_app_length. Qed.

Lemma nothing_below_spec d p l :
  nothing_below d p = true → p `prefix_of` l → nodes d !! l = None.
Proof.
  unfold nothing_below. rewrite forallb_forall. intros H Hp.
  destruct (nodes d !! l) as [n|] eqn:E; [| done]. exfalso.
  specialize (H l). rewrite <- list_elem_of_In, list_elem_of_fmap in H.
  assert (negb (bool_decide (p `prefix_of` l)) = true) as Hn.
  { apply H. exists (l, n). split; [done |]. by apply elem_of_map_to_list. }
  apply negb_true_iff, bool_decide_eq_false in Hn. done.
Qed.

Lemma dirs_down_to_spec d segs j k :
  dirs_down_to d segs j = true → (0 < k ≤ j)%nat →
  nodes d !! take k segs = Some Dir.
Proof.
  unfold dirs_down_to. rewrite forallb_forall. intros H Hk.
  specialize (H k). rewrite in_seq in H.
  eapply bool_decide_eq_true_1, H. lia.
Qed.

Lemma has_entry_spec d p :
  has_entry d p = true →
  ∃ l, is_entry p l = true ∧ is_Some (nodes d !! l).
Proof.
  unfold has_entry. destruct (entries d p) as [|l r] eqn:E; [done |].
  intros _. exists l.
  assert (l ∈ entries d p) as Hin by (rewrite E; left).
  by apply elem_of_entries in Hin as [? ?].
Qed.

Section Project.
(** The project directory is [/base], the directory asked for is
    [parts] below it; before the run the path exists down to depth
    [j] and not beyond, and the directory at depth [j] holds
    something else. *)
Variables (base parts : list string) (o : options) (j : nat).
Let segs : list string := (base ++ parts)%list.

Hypothesis Hbase : Forall (λ x, simple x = true) base.
Hypothesis Hparts : Forall (λ x, simple x = true) parts.
Hypothesis Hbn : base ≠ [].
Hypothesis Hpn : parts ≠ [].
Hypothesis Hnds : no_dot_slash (absolute (base ++ parts)) = true.
Hypothesis Hdir : directory o = absolute base.
Hypothesis Hj : (List.length base ≤ j < List.length (base ++ parts))%nat.

Lemma segs_simple : Forall (λ x, simple x = true) segs.
Proof. by apply Forall_app. Qed.

Lemma base_length : (0 < List.length base)%nat.
Proof using Hbn. clear -Hbn. destruct base; [done | simpl; lia]. Qed.

Lemma take_segs_nonempty k : (0 < k)%nat → take k segs ≠ [].
Proof using Hbn.
  clear -Hbn. intros Hk. subst segs. destruct base; [done |].
  destruct k; [lia | done].
Qed.

Lemma on_chain_dec (l : list string) :
  (∃ k, (j < k ≤ List.length segs)%nat ∧ l = take k segs)
  ∨ (∀ k, (j < k ≤ List.length segs)%nat → l ≠ take k segs).
Proof.
  clear. destruct (decide (l = take (List.length l) segs
                    ∧ (j < List.length l ≤ List.length segs)%nat))
    as [[Heq Hlen]|Hn].
  - left. eauto.
  - right. intros k Hk ->. apply Hn.
    rewrite length_take. replace (k `min` List.length segs)%nat with k by lia.
    done.
Qed.

Lemma no_dot_slash_parts :
  no_dot_slash (JsString.join NodePath.sep parts) = true.
Proof using Hnds Hbn Hpn.
  clear -Hnds Hbn Hpn.
  rewrite absolute_app in Hnds by done.
  apply no_dot_slash_app_r in Hnds.
  change ("/" +:+ JsString.join NodePath.sep parts)
    with (String "/" (JsString.join NodePath.sep parts)) in Hnds.
  cbn [no_dot_slash] in Hnds. by apply andb_prop in Hnds as [_ ?].
Qed.

Lemma no_dot_slash_take k :
  (0 < k ≤ List.length segs)%nat →
  no_dot_slash (absolute (take k segs)) = true.
Proof using Hnds.
  clear -Hnds. intros Hk. fold segs in Hnds.
  destruct (decide (k = List.length segs)) as [-> | Hne].
  - by rewrite firstn_all.
  - rewrite <- (take_drop k segs) in Hnds.
    rewrite absolute_app in Hnds.
    + by apply no_dot_slash_app_l in Hnds.
    + intros H. apply (f_equal List.length) in H.
      rewrite length_take in H. simpl in H. lia.
    + intros H. apply (f_equal List.length) in H.
      rewrite length_drop in H. simpl in H. lia.
Qed.

(** What [mkdir] records: one entry per segment of the path asked
    for, each the absolute path of a directory below the project. *)
Local Abbreviation recorded := (dir_entries (absolute base) parts).

Lemma recorded_entry i :
  (0 < i ≤ List.length parts)%nat →
  NodePath.join (absolute base) (JsString.join NodePath.sep (take i parts))
  = absolute (take (List.length base + i) segs).
Proof using Hbase Hparts Hbn.
  clear -Hbase Hparts Hbn. intros Hi. subst segs.
  rewrite take_app_add. apply join_absolute; try done.
  - by apply Forall_take.
  - intros H. apply (f_equal List.length) in H.
    rewrite length_take in H. simpl in H. lia.
Qed.

Lemma recorded_head :
  ∃ rest, recorded = absolute segs :: rest
          ∧ Forall (λ x, ∃ k, (List.length base < k ≤ List.length segs)%nat
                           ∧ x = absolute (take k segs)) rest.
Proof using Hbase Hparts Hbn Hpn.
  clear -Hbase Hparts Hbn Hpn.
  assert (Forall (λ x, ∃ k, (List.length base < k ≤ List.length segs)%nat
                           ∧ x = absolute (take k segs)) recorded) as Hall.
  { unfold dir_entries. apply Forall_forall. intros x Hx.
    apply list_elem_of_fmap in Hx as (i & -> & Hi).
    apply list_elem_of_In, in_rev, in_seq in Hi.
    exists (List.length base + i)%nat. split.
    - subst segs. rewrite length_app. lia.
    - apply recorded_entry. lia. }
  assert (∃ rest, recorded = absolute segs :: rest) as [rest Hrest].
  { unfold dir_entries. destruct (List.length parts) as [|p] eqn:Ep.
    - destruct parts; [done | simpl in Ep; lia].
    - rewrite seq_S, rev_app_distr. cbn [rev app map Nat.add].
      eexists. f_equal. rewrite <- Ep, firstn_all.
      by apply join_absolute. }
  exists rest. split; [done |]. rewrite Hrest in Hall.
  by apply Forall_cons_1 in Hall as [_ ?].
Qed.

(** [mkdir] on such a project: it creates the missing directories,
    records the whole path and leaves the rest of the disk alone. *)
Lemma mkdir_provisions (s : state) :
  dirs_down_to (disk s) segs j = true →
  nothing_below (disk s) (take (S j) segs) = true →
  ∃ made d1,
    mkdir (JsString.join NodePath.sep parts) o s
    = Return (Some made)
        (State d1 (filesWritten s) (dirsWritten s ++ recorded)%list
               (debugOn s) (trace s))
    ∧ cwd d1 = cwd (disk s)
    ∧ (∀ k, (0 < k ≤ List.length segs)%nat →
            nodes d1 !! take k segs = Some Dir)
    ∧ (∀ l, (∀ k, (j < k ≤ List.length segs)%nat → l ≠ take k segs) →
            nodes d1 !! l = nodes (disk s) !! l).
Proof using All.
  intros Hdown Hfresh. unfold mkdir. rewrite Hdir.
  rewrite join_absolute by done. fold segs.
  unfold mkdirp. rewrite resolve_absolute
    by (apply segs_simple || (subst segs; by destruct base)).
  destruct (mkdirp_from_off_path (nodes (disk s)) None [] segs)
    as (made & m' & Hrun & Hoff).
  { intros i c Hi. cbn [app].
    destruct (decide (i ≤ j)%nat).
    - rewrite (dirs_down_to_spec _ _ j) by (done || lia). done.
    - rewrite (nothing_below_spec _ (take (S j) segs)); [done | done |].
      apply take_prefix_le. lia. }
  rewrite Hrun.
  pose proof (mkdirp_from_all _ _ _ _ _ _ Hrun) as Hall.
  assert (is_Some made) as [x ->].
  { eapply mkdirp_from_missing; [exact Hrun |].
    exists (S j). split; [fold segs in Hj; lia |]. cbn [app].
    apply (nothing_below_spec _ (take (S j) segs)); done. }
  rewrite replace_no_dot_slash by apply no_dot_slash_parts.
  rewrite split_join by done.
  rewrite push_parts_spec. exists x, (with_nodes (disk s) m').
  split; [reflexivity |]. split; [done |]. split.
  - intros k Hk. apply (Hall k Hk).
  - intros l Hl. cbn [with_nodes nodes].
    destruct (decide (l = take (List.length l) segs
                      ∧ (0 < List.length l ≤ j)%nat)) as [[Heq Hlen]|Hn].
    + rewrite Heq.
      pose proof (Hall (List.length l)) as Hd. cbn [app] in Hd.
      rewrite Hd by (fold segs in Hj; lia).
      symmetry. by apply (dirs_down_to_spec _ _ j).
    + apply Hoff. intros i Hi. cbn [app].
      destruct (decide (i ≤ j)%nat) as [Hle|Hgt]; [| apply Hl; lia].
      intros ->. apply Hn. rewrite length_take.
      replace (i `min` List.length segs)%nat with i by lia. split; [done | lia].
Qed.

(** A ledger entry whose directory is gone, or still holds
    something, is passed over. *)
Lemma ledger_entry_passed (st : state) (k : nat) (rest : list string) :
  (0 < k ≤ List.length segs)%nat →
  ((j < k)%nat → nodes (disk st) !! take k segs = None) →
  ((k ≤ j)%nat →
   nodes (disk st) !! take k segs = Some Dir
   ∧ ∃ l, is_entry (take k segs) l = true ∧ is_Some (nodes (disk st) !! l)) →
  removeDirs (absolute (take k segs) :: rest) st = removeDirs rest st.
Proof using Hbase Hparts Hbn Hnds.
  clear Hdir Hj Hpn. intros Hk Hgone Hfull. cbn [removeDirs].
  pose proof (take_segs_nonempty k ltac:(lia)) as Hne.
  assert (Forall (λ x, simple x = true) (take k segs)) as Hsk
    by apply Forall_take, segs_simple.
  rewrite replace_no_dot_slash by by apply no_dot_slash_take.
  rewrite split_absolute by done. cbn [List.length].
  assert (List.length (take k segs) = k) as Hlen by (rewrite length_take; lia).
  rewrite Hlen.
  assert (chain_dirPart ("" :: take k segs) (S k) = absolute (take k segs))
    as Hpart.
  { destruct k as [|k']; [lia |].
    rewrite chain_dirPart_absolute by lia.
    rewrite take_take. f_equal. f_equal. lia. }
  assert (resolve (disk st) (absolute (take k segs)) = take k segs) as Hres
    by by apply resolve_absolute.
  assert (removeChain ("" :: take k segs) (S k) st = Return tt st) as ->;
    [| done].
  destruct (decide (k ≤ j)%nat) as [Hle|Hgt].
  - destruct (Hfull Hle) as (Hd & l & Hl & Hsome).
    eapply (removeChain_stops _ _ _ (entries (disk st) (take k segs))).
    + by rewrite Hpart.
    + rewrite Hpart, readdirSync_dir; rewrite Hres; [done |].
      by rewrite lookup_nonroot.
    + intros Hnil. rewrite (entries_nil _ _ _ Hnil Hl) in Hsome.
      by destruct Hsome.
  - rewrite removeChain_eq. cbv zeta. rewrite Hpart.
    change (JsString.truthy (absolute (take k segs))) with true. cbn [negb].
    assert (existsSync (disk st) (absolute (take k segs)) = false) as ->;
      [| done].
    apply existsSync_false. rewrite Hres, lookup_nonroot by done.
    apply Hgone. lia.
Qed.

Lemma is_entry_prefix (p l : list string) :
  is_entry p l = true → p `prefix_of` l.
Proof.
  clear. intros [_ H]%is_entry_spec. exists (drop (List.length p) l).
  rewrite <- H at 1. by rewrite take_drop.
Qed.

(** Phase 2 of the rollback on a disk where the chain below depth
    [j] holds nothing but the chain itself: the directories of
    depth [j + 1] and more go, everything else stays. *)
Lemma rollback_walk (st : state) (rest : list string) :
  (∀ k, (0 < k ≤ List.length segs)%nat →
        nodes (disk st) !! take k segs = Some Dir) →
  (∀ l, is_Some (nodes (disk st) !! l) → take (S j) segs `prefix_of` l →
        ∃ k, (j < k ≤ List.length segs)%nat ∧ l = take k segs) →
  (∃ l, is_entry (take j segs) l = true ∧ is_Some (nodes (disk st) !! l)
        ∧ l ≠ take (S j) segs) →
  Forall (λ x, ∃ k, (List.length base < k ≤ List.length segs)%nat
                   ∧ x = absolute (take k segs)) rest →
  ∃ st', removeDirs (absolute segs :: rest) st = Return tt st'
         ∧ (∀ k, (j < k ≤ List.length segs)%nat →
                 nodes (disk st') !! take k segs = None)
         ∧ (∀ l, (∀ k, (j < k ≤ List.length segs)%nat → l ≠ take k segs) →
                 nodes (disk st') !! l = nodes (disk st) !! l).
Proof using Hbase Hparts Hbn Hnds Hj.
  clear Hdir Hpn. fold segs in Hj. pose proof base_length as Hb0.
  intros Ha Hb (l0 & Hl0 & Hsome0 & Hne0) Hrest.
  assert (∀ k, (j < k ≤ List.length segs)%nat → l0 ≠ take k segs) as Hoff0.
  { intros k Hk ->. apply is_entry_spec in Hl0 as [Hlen _].
    rewrite !length_take in Hlen. apply Hne0. f_equal. lia. }
  destruct (removeChain_until segs j (List.length segs) st)
    as (st' & Hrun & Hgone & Hsame).
  - apply segs_simple.
  - lia.
  - intros k Hk. apply Ha. lia.
  - intros _. rewrite firstn_all. apply entries_nil_iff. intros l Hl.
    destruct (nodes (disk st) !! l) eqn:E; [| done]. exfalso.
    destruct (Hb l) as (k & Hk & ->); [eauto | |].
    + transitivity segs; [apply take_prefix_whole | by apply is_entry_prefix].
    + apply is_entry_spec in Hl as [Hlen _].
      rewrite length_take in Hlen. lia.
  - intros k l Hk Hl Hs.
    destruct (Hb l Hs) as (k' & Hk' & ->).
    + transitivity (take k segs); [| by apply is_entry_prefix].
      apply take_prefix_le. lia.
    + apply is_entry_spec in Hl as [Hlen _].
      rewrite !length_take in Hlen. f_equal. lia.
  - right. split; [apply Ha; lia |]. exists l0. done.
  - exists st'. split; [| done].
    cbn [removeDirs].
    rewrite replace_no_dot_slash by done.
    rewrite split_absolute
      by (apply segs_simple || (subst segs; by destruct base)).
    cbn [List.length]. rewrite Hrun.
    clear Hrun. induction Hrest as [|x r (k & Hk & ->) Hr IH]; [done |].
    rewrite ledger_entry_passed; [exact IH | lia | |].
    + intros Hjk. apply Hgone. lia.
    + intros Hkj. split.
      * rewrite Hsame; [apply Ha; lia |].
        intros k' Hk' Heq. apply take_inj_length in Heq; lia.
      * destruct (decide (k = j)) as [-> | Hlt].
        -- exists l0. split; [done |]. by rewrite Hsame.
        -- exists (take (S k) segs). split; [apply is_entry_take; lia |].
           rewrite Hsame; [rewrite Ha by lia; eauto |].
           intros k' Hk' Heq. apply take_inj_length in Heq; lia.
Qed.

Lemma fs_disk_eq (d d' : Fs.disk) :
  cwd d = cwd d' → nodes d = nodes d' → d = d'.
Proof. clear. destruct d, d'. simpl. by intros -> ->. Qed.

(** The two steps together give back the nodes the disk had. *)
Lemma chain_restored (m0 m1 m2 : gmap loc node) :
  (∀ l, take (S j) segs `prefix_of` l → m0 !! l = None) →
  (∀ l, (∀ k, (j < k ≤ List.length segs)%nat → l ≠ take k segs) →
        m1 !! l = m0 !! l) →
  (∀ k, (j < k ≤ List.length segs)%nat → m2 !! take k segs = None) →
  (∀ l, (∀ k, (j < k ≤ List.length segs)%nat → l ≠ take k segs) →
        m2 !! l = m1 !! l) →
  m2 = m0.
Proof.
  clear. intros Hfresh H01 Hgone H12. apply map_eq. intros l.
  destruct (on_chain_dec l) as [(k & Hk & ->)|Hoff].
  - rewrite Hgone by done. symmetry. apply Hfresh, take_prefix_le. lia.
  - by rewrite H12, H01.
Qed.

(** What the provisioned disk looks like below depth [j]. *)
Lemma provisioned_chain (m0 m1 : gmap loc node) :
  (∀ l, take (S j) segs `prefix_of` l → m0 !! l = None) →
  (∀ l, (∀ k, (j < k ≤ List.length segs)%nat → l ≠ take k segs) →
        m1 !! l = m0 !! l) →
  ∀ l, is_Some (m1 !! l) → take (S j) segs `prefix_of` l →
       ∃ k, (j < k ≤ List.length segs)%nat ∧ l = take k segs.
Proof.
  clear. intros Hfresh H01 l Hsome Hpre.
  destruct (on_chain_dec l) as [?|Hoff]; [done |].
  rewrite H01, Hfresh in Hsome by done. by destruct Hsome.
Qed.

Lemma provisioned_entry (d0 : Fs.disk) (m1 : gmap loc node) :
  (∀ l, take (S j) segs `prefix_of` l → nodes d0 !! l = None) →
  (∀ l, (∀ k, (j < k ≤ List.length segs)%nat → l ≠ take k segs) →
        m1 !! l = nodes d0 !! l) →
  has_entry d0 (take j segs) = true →
  ∃ l, is_entry (take j segs) l = true ∧ is_Some (m1 !! l)
       ∧ l ≠ take (S j) segs.
Proof.
  clear. intros Hfresh H01 (l & Hl & Hsome)%has_entry_spec.
  assert (∀ k, (j < k ≤ List.length segs)%nat → l ≠ take k segs) as Hoff.
  { intros k Hk ->. rewrite Hfresh in Hsome; [by destruct Hsome |].
    apply take_prefix_le. lia. }
  exists l. split; [done |]. split; [by rewrite H01 |].
  intros ->. rewrite Hfresh in Hsome by done. by destruct Hsome.
Qed.

(** X10. Provision, then roll back.  The project directory is an
    absolute path other than the root, the directory asked for a
    path below it, both of ordinary names and with no [./] in the
    full path (no name ends in a dot: [replace('./', '')] would
    cut it).  When the path exists down to some depth, at the
    project directory or below, and not beyond, with that last
    directory holding something else, [mkdir] creates the missing
    directories and the rollback that follows removes exactly
    those: the disk is as it was before. *)
Theorem provision_then_rollback_restores_the_disk (s : state) :
  filesWritten s = [] → dirsWritten s = [] →
  dirs_down_to (disk s) (base ++ parts) j = true →
  nothing_below (disk s) (take (S j) (base ++ parts)) = true →
  has_entry (disk s) (take j (base ++ parts)) = true →
  ∃ made s1 s2,
    mkdir (JsString.join NodePath.sep parts) o s = Return (Some made) s1
    ∧ cleanupWrittenFiles s1 = Return tt s2
    ∧ disk s2 = disk s.
Proof using All.
  intros Hfw Hdw Hdown Hfresh Hentry.
  destruct (mkdir_provisions s Hdown Hfresh)
    as (made & d1 & Hmk & Hcwd & Hall & Hoff).
  pose proof (λ l, nothing_below_spec (disk s) _ l Hfresh) as Hfr.
  rewrite Hfw, Hdw in Hmk. cbn [app] in Hmk.
  set (s1 := State d1 [] recorded (debugOn s) (trace s)) in *.
  destruct recorded_head as (rest & Hrec & Hrest).
  destruct (rollback_walk s1 (first_occurrences recorded 1 rest))
    as (s2 & Hrun & Hgone & Hsame).
  - exact Hall.
  - by apply (provisioned_chain (nodes (disk s))).
  - by apply (provisioned_entry (disk s)).
  - by apply first_occurrences_Forall.
  - exists made, s1, s2. split; [exact Hmk |].
    assert (cleanupWrittenFiles s1 = Return tt s2) as Hclean.
    { unfold cleanupWrittenFiles. cbn [removeFiles s1 filesWritten dirsWritten].
      rewrite Hrec at 1. rewrite dirsToRemove_cons, <- Hrec. exact Hrun. }
    split; [exact Hclean |].
    apply fs_disk_eq.
    + pose proof (shrunk_cleanup s1) as (Hc & _).
      rewrite Hclean in Hc. cbn [final] in Hc. by rewrite Hc.
    + by apply (chain_restored _ (nodes d1)).
Qed.

(** X11. Provision, write a new file into the new directory, then
    roll back, for a project and a path as in X10 and a file with
    an ordinary name.  Unless [dontPrune] is set, the file is
    written and recorded, the rollback removes it and then the
    directories, and the disk is as it was before the run. *)
Theorem provision_write_rollback_restores_the_disk
    (s : state) (f content : string) (answers : list answer) :
  simple f = true → dontPrune o = false →
  filesWritten s = [] → dirsWritten s = [] →
  dirs_down_to (disk s) (base ++ parts) j = true →
  nothing_below (disk s) (take (S j) (base ++ parts)) = true →
  has_entry (disk s) (take j (base ++ parts)) = true →
  ∃ made s1 s2 s3,
    mkdir (JsString.join NodePath.sep parts) o s = Return (Some made) s1
    ∧ confirmWriteFile answers
        (JsString.join NodePath.sep (parts ++ [f])) content o s1
      = (Return JTrue s2, answers)
    ∧ cleanupWrittenFiles s2 = Return tt s3
    ∧ disk s3 = disk s.
Proof using All.
  intros Hf Hprune Hfw Hdw Hdown Hfresh Hentry.
  destruct (mkdir_provisions s Hdown Hfresh)
    as (made & d1 & Hmk & Hcwd & Hall & Hoff).
  pose proof (λ l, nothing_below_spec (disk s) _ l Hfresh) as Hfr.
  rewrite Hfw, Hdw in Hmk. cbn [app] in Hmk.
  destruct recorded_head as (rest & Hrec & Hrest).
  set (l := (segs ++ [f])%list).
  assert (Forall (λ x, simple x = true) l) as Hsl.
  { apply Forall_app. split; [apply segs_simple | by constructor]. }
  assert (l ≠ []) as Hln by (subst l; by destruct segs).
  assert (NodePath.join (directory o)
            (JsString.join NodePath.sep (parts ++ [f])) = absolute l)
    as Hfull.
  { rewrite Hdir, join_absolute; try done.
    - subst l segs. by rewrite app_assoc.
    - apply Forall_app. split; [done | by constructor].
    - by destruct parts. }
  assert (∀ d, resolve d (absolute l) = l) as Hres
    by (intros d; by apply resolve_absolute).
  assert (∀ k, (j < k ≤ List.length segs)%nat → l ≠ take k segs) as Hloff.
  { intros k Hk Heq. apply (f_equal List.length) in Heq.
    subst l. rewrite length_app, length_take in Heq. simpl in Heq. lia. }
  assert (nodes d1 !! l = None) as Hnone.
  { rewrite Hoff by done. apply Hfr.
    transitivity segs; [apply take_prefix_whole | by exists [f]]. }
  assert (parent l = segs) as Hparent
    by (subst l; unfold parent; apply removelast_last).
  assert (nodes d1 !! segs = Some Dir) as Hsegs.
  { rewrite <- (firstn_all segs). apply Hall. fold segs in Hj. lia. }
  destruct s as [d0 fw dw dbg tr]. cbn [disk filesWritten dirsWritten
    debugOn trace] in *. subst fw dw.
  set (d2 := with_nodes d1 (<[l := File content]> (nodes d1))).
  set (log1 := if dbg
               then (tr ++ [EvLog ("Successfully wrote "
                      +:+ quoted (JsString.join NodePath.sep (parts ++ [f])))])%list
               else tr).
  set (log2 := if dbg
               then (log1 ++ [EvLog ("Removing file "
                      +:+ quoted (absolute l))])%list
               else log1).
  destruct (rollback_walk (State d1 [absolute l] recorded dbg log2)
              (first_occurrences recorded 1 rest))
    as (s3 & Hrun & Hgone & Hsame).
  { exact Hall. }
  { by apply (provisioned_chain (nodes d0)). }
  { by apply (provisioned_entry d0). }
  { by apply first_occurrences_Forall. }
  exists made, (State d1 [] recorded dbg tr),
         (State d2 [absolute l] recorded dbg log1), s3.
  split; [exact Hmk |].
  assert (existsSync d1 (absolute l) = false) as Hex.
  { apply existsSync_false. by rewrite Hres, lookup_nonroot. }
  assert (writeFile d1 (absolute l) content = Ok d2) as Hwrite.
  { rewrite writeFile_new; rewrite Hres; [done | done | |].
    - rewrite Hparent, lookup_nonroot by (subst segs; by destruct base).
      exact Hsegs.
    - by rewrite lookup_nonroot. }
  assert (unlinkSync d2 (absolute l) = Ok d1) as Hunlink.
  { rewrite (unlinkSync_file _ _ content).
    - rewrite Hres. subst d2. cbn [with_nodes nodes cwd].
      rewrite delete_insert_id by done. by destruct d1.
    - rewrite Hres, lookup_nonroot by done. subst d2. cbn [nodes with_nodes].
      apply lookup_insert_eq. }
  split; [| split].
  - rewrite util_confirmWriteFile_eq. cbv zeta. rewrite Hfull.
    cbn [disk]. rewrite Hex, andb_false_r. cbn [andb negb].
    assert (write_tail true (JsString.join NodePath.sep (parts ++ [f]))
              (absolute l) content o (State d1 [] recorded dbg tr)
            = Return JTrue (State d2 [absolute l] recorded dbg log1)) as ->.
    { unfold write_tail. rewrite Hprune. cbn [disk]. rewrite Hex.
      cbn [negb andb push_file disk]. rewrite Hwrite.
      subst log1. by destruct dbg. }
    by destruct (force o).
  - unfold cleanupWrittenFiles. cbn [filesWritten removeFiles].
    rewrite disk_debug. cbn [disk]. rewrite Hunlink.
    assert (set_disk d1 (debug ("Removing file " +:+ quoted (absolute l))
                          (State d2 [absolute l] recorded dbg log1))
            = State d1 [absolute l] recorded dbg log2) as ->.
    { subst log2. by destruct dbg. }
    cbn [dirsWritten]. rewrite Hrec at 1.
    rewrite dirsToRemove_cons, <- Hrec. exact Hrun.
  - apply fs_disk_eq.
    + pose proof (shrunk_removeDirs (absolute segs :: first_occurrences recorded 1 rest)
                    (State d1 [absolute l] recorded dbg log2)) as (Hc & _).
      rewrite Hrun in Hc. cbn [final disk] in Hc. by rewrite Hc.
    + by apply (chain_restored _ (nodes d1)).
Qed.

End Project.

Lemma provision_then_rollback_restores_the_disk_witness :
  ∃ made s1 s2,
    mkdir "inf/k8s" Scenario.interactive (Scenario.fresh Scenario.project_disk)
    = Return (Some made) s1
    ∧ cleanupWrittenFiles s1 = Return tt s2
    ∧ disk s2 = Scenario.project_disk.
Proof.
  apply (provision_then_rollback_restores_the_disk
           ["tmp"; "proj"] ["inf"; "k8s"] Scenario.interactive 2
           ltac:(repeat constructor) ltac:(repeat constructor)
           ltac:(discriminate) ltac:(discriminate)
           ltac:(reflexivity) ltac:(reflexivity)
           ltac:(simpl; lia)
           (Scenario.fresh Scenario.project_disk));
    reflexivity.
Defined.

Lemma provision_write_rollback_restores_the_disk_witness :
  ∃ made s1 s2 s3,
    mkdir "inf/k8s" Scenario.interactive (Scenario.fresh Scenario.project_disk)
    = Return (Some made) s1
    ∧ confirmWriteFile [] "inf/k8s/app.yaml" "kind: Deployment"
        Scenario.interactive s1
      = (Return JTrue s2, [])
    ∧ cleanupWrittenFiles s2 = Return tt s3
    ∧ disk s3 = Scenario.project_disk.
Proof.
  apply (provision_write_rollback_restores_the_disk
           ["tmp"; "proj"] ["inf"; "k8s"] Scenario.interactive 2
           ltac:(repeat constructor) ltac:(repeat constructor)
           ltac:(discriminate) ltac:(discriminate)
           ltac:(reflexivity) ltac:(reflexivity)
           ltac:(simpl; lia)
           (Scenario.fresh Scenario.project_disk)
           "app.yaml" "kind: Deployment" []);
    reflexivity.
Defined.

End RoundTrip.

(* ===================================================================== *)
(** ** Provision and roll back in the working directory *)
(* ===================================================================== *)

Module RoundTripRel.
Import Fs Js Util Props MoreProps FsFacts RollbackFacts MkdirFacts PathFacts
       RollbackReach LedgerFacts RollbackMore PathMore RoundTrip.

Lemma simple_relative x :
  simple x = true →
  ∃ a r, x = String a r ∧ Ascii.eqb "/" a = false.
Proof.
  destruct x as [|a r]; [done |]. intros H. exists a, r. split; [done |].
  apply simple_no_sep in H. cbn [has_char] in H.
  apply orb_false_iff in H as [Ha _].
  destruct (Ascii.eqb "/" a) eqn:E; [| done].
  apply Ascii.eqb_eq in E. subst a. done.
Qed.

Lemma join_relative xs :
  Forall (λ x, simple x = true) xs → xs ≠ [] →
  NodePath.isAbsolute (JsString.join NodePath.sep xs) = false.
Proof.
  intros Hs Hne. destruct Hs as [|x r Hx Hr]; [done |].
  apply simple_relative in Hx as (a & t & -> & Ha).
  assert (∀ t', NodePath.isAbsolute (String a t') = false) as Hrel.
  { intros t'. unfold NodePath.isAbsolute.
    change (JsString.startsWith "/" (String a t'))
      with (Ascii.eqb "/" a && true).
    by rewrite Ha. }
  destruct r as [|y r]; [apply Hrel |].
  rewrite join_cons_cons. apply Hrel.
Qed.

(** A relative path of ordinary names resolves below the working
    directory. *)
Lemma resolve_relative d xs :
  Forall (λ x, simple x = true) xs → xs ≠ [] →
  resolve d (JsString.join NodePath.sep xs) = (cwd d ++ xs)%list.
Proof.
  intros Hs Hne. unfold resolve. rewrite join_relative by done.
  rewrite split_join by done. by apply walk_segments_simple.
Qed.

(** [path.join('.', p)] is [p] for such a path. *)
Lemma join_dot xs :
  Forall (λ x, simple x = true) xs → xs ≠ [] →
  NodePath.join "." (JsString.join NodePath.sep xs)
  = JsString.join NodePath.sep xs.
Proof.
  intros Hs Hne. unfold NodePath.join.
  pose proof (join_nonempty xs Hs Hne) as Hj.
  assert (JsString.truthy (JsString.join NodePath.sep xs) = true) as ->
    by (destruct (JsString.join NodePath.sep xs); done).
  change (JsString.truthy ".") with true. cbv iota.
  set (p := JsString.join NodePath.sep xs) in *.
  change ("." +:+ "/" +:+ p) with (String "." (String "/" p)).
  unfold NodePath.normalize.
  change (String.eqb (String "." (String "/" p)) "") with false. cbv iota.
  change (NodePath.isAbsolute (String "." (String "/" p))) with false.
  assert (JsString.split NodePath.sep_char (String "." (String "/" p))
          = "." :: JsString.split NodePath.sep_char p) as ->.
  { change (String "." (String "/" p)) with ("." +:+ String "/" p).
    by rewrite split_app_sep. }
  subst p. rewrite split_join by done.
  cbn [NodePath.normalize_segments String.eqb Ascii.eqb Bool.eqb orb negb].
  rewrite normalize_segments_simple by done. cbn [app].
  assert (JsString.endsWith "/"
            (String "." (String "/" (JsString.join NodePath.sep xs))) = false)
    as ->.
  { rewrite !endsWith_char_cons by (done || by destruct (JsString.join _ _)).
    by apply join_no_trailing_sep. }
  destruct (JsString.join NodePath.sep xs) eqn:E; [done |]. reflexivity.
Qed.

Section Project.
(** The project directory is the working directory [c] ([.]); the
    directory asked for is [parts] below it. *)
Variables (parts : list string) (c : loc).

Hypothesis Hparts : Forall (λ x, simple x = true) parts.

Lemma at_nonempty k :
  (0 < k ≤ List.length parts)%nat → (c ++ take k parts)%list ≠ [].
Proof.
  clear. intros Hk H. apply app_eq_nil in H as [_ H].
  apply (f_equal List.length) in H. rewrite length_take in H.
  simpl in H. lia.
Qed.

Lemma at_inj a b :
  (a ≤ List.length parts)%nat → (b ≤ List.length parts)%nat →
  (c ++ take a parts)%list = (c ++ take b parts)%list → a = b.
Proof.
  clear. intros Ha Hb H. apply app_inv_head in H.
  by apply take_inj_length in H.
Qed.

Lemma at_entry k :
  (k < List.length parts)%nat →
  is_entry (c ++ take k parts) (c ++ take (S k) parts) = true.
Proof.
  clear. intros Hk. apply is_entry_spec.
  rewrite !length_app, !length_take. split; [lia |].
  rewrite take_app_add.
  replace (k `min` List.length parts)%nat with k by lia.
  rewrite take_take. do 2 f_equal. lia.
Qed.

Lemma relative_name d k :
  cwd d = c → (0 < k ≤ List.length parts)%nat →
  chain_dirPart parts k = JsString.join NodePath.sep (take k parts)
  ∧ JsString.truthy (JsString.join NodePath.sep (take k parts)) = true
  ∧ resolve d (JsString.join NodePath.sep (take k parts))
    = (c ++ take k parts)%list.
Proof using Hparts.
  intros Hc Hk.
  assert (take k parts ≠ []) as Hne.
  { intros H. apply (f_equal List.length) in H.
    rewrite length_take in H. simpl in H. lia. }
  assert (Forall (λ x, simple x = true) (take k parts)) as Hs
    by by apply Forall_take.
  split; [done |]. split.
  - pose proof (join_nonempty _ Hs Hne).
    by destruct (JsString.join NodePath.sep (take k parts)).
  - rewrite resolve_relative by done. by rewrite Hc.
Qed.

(** The walk over a relative chain, started at depth [m] once that
    directory is empty: it removes the directories from depth [m]
    up to depth [r + 1] and ends at depth [r], which is either the
    working directory itself ([r = 0]) or a directory that has
    another entry. *)
Lemma removeChain_until_rel r m s :
  cwd (disk s) = c →
  (r ≤ m ≤ List.length parts)%nat →
  (∀ k, (r < k ≤ m)%nat →
        nodes (disk s) !! (c ++ take k parts)%list = Some Dir) →
  ((r < m)%nat → entries (disk s) (c ++ take m parts) = []) →
  (∀ k l, (r < k < m)%nat → is_entry (c ++ take k parts) l = true →
          is_Some (nodes (disk s) !! l) → l = (c ++ take (S k) parts)%list) →
  (r = 0%nat ∨
   (nodes (disk s) !! (c ++ take r parts)%list = Some Dir
    ∧ ∃ l, is_entry (c ++ take r parts) l = true
           ∧ is_Some (nodes (disk s) !! l)
           ∧ ∀ k, (r < k ≤ m)%nat → l ≠ (c ++ take k parts)%list)) →
  ∃ s', removeChain parts m s = Return tt s'
        ∧ cwd (disk s') = c
        ∧ (∀ k, (r < k ≤ m)%nat →
                nodes (disk s') !! (c ++ take k parts)%list = None)
        ∧ (∀ l, (∀ k, (r < k ≤ m)%nat → l ≠ (c ++ take k parts)%list) →
                nodes (disk s') !! l = nodes (disk s) !! l).
Proof using Hparts.
  revert s. induction m as [|m' IH];
    intros s Hc Hm Hdirs Hempty Honly Hfloor.
  - exists s. split; [reflexivity |]. split; [done |].
    split; [intros; lia | done].
  - destruct (relative_name (disk s) (S m') Hc ltac:(lia))
      as (Hpart & Htruthy & Hres).
    pose proof (at_nonempty (S m') ltac:(lia)) as Hne.
    destruct (decide (r = S m')) as [-> | Hrm].
    + destruct Hfloor as [? | (Hdir & l & Hl & Hsome & _)]; [lia |].
      exists s. split; [| split; [done | split; [intros; lia | done]]].
      eapply (removeChain_stops _ _ _
                (entries (disk s) (c ++ take (S m') parts))).
      * by rewrite Hpart.
      * rewrite Hpart, readdirSync_dir; rewrite Hres; [done |].
        by rewrite lookup_nonroot.
      * intros Hnil. pose proof (entries_nil _ _ _ Hnil Hl) as Hnone.
        rewrite Hnone in Hsome. by destruct Hsome.
    + rewrite removeChain_eq. cbv zeta. rewrite Hpart, Htruthy. cbn [negb].
      set (here := (c ++ take (S m') parts)%list) in *.
      assert (lookup (disk s) here = Some Dir) as Hdir.
      { rewrite lookup_nonroot by done. apply Hdirs. lia. }
      assert (entries (disk s) here = []) as Hent by (apply Hempty; lia).
      assert (existsSync (disk s)
                (JsString.join NodePath.sep (take (S m') parts)) = true)
        as ->.
      { apply existsSync_true. rewrite Hres, Hdir. eauto. }
      rewrite readdirSync_dir by by rewrite Hres.
      rewrite Hres, Hent. cbn [List.length Nat.eqb]. rewrite disk_debug.
      rewrite rmdirSync_empty by by rewrite Hres.
      rewrite Hres. cbn [chain_next].
      set (s2 := set_disk _ _).
      assert (nodes (disk s2) = delete here (nodes (disk s))) as Hnodes
        by done.
      assert (cwd (disk s2) = c) as Hc2 by done.
      destruct (IH s2) as (s' & Hrun & Hc' & Hgone & Hsame).
      * done.
      * lia.
      * intros k Hk. rewrite Hnodes, lookup_delete_ne; [apply Hdirs; lia |].
        subst here. intros Heq. apply at_inj in Heq; lia.
      * intros Hj. apply entries_nil_iff. intros l Hl. rewrite Hnodes.
        rewrite lookup_delete. case_decide; [done |].
        destruct (nodes (disk s) !! l) eqn:E; [| done].
        exfalso. assert (l = here) by (apply (Honly m' l); eauto; lia).
        done.
      * intros k l Hk Hl [n Hn]. rewrite Hnodes in Hn.
        apply lookup_delete_Some in Hn as [_ Hn].
        apply (Honly k l); eauto. lia.
      * destruct Hfloor as [-> | (Hdj & l & Hl & [n Hn] & Hoff)];
          [by left |].
        right. rewrite Hnodes. split.
        -- rewrite lookup_delete_ne; [done |]. subst here.
           intros Heq. apply at_inj in Heq; lia.
        -- exists l. split; [done |]. split.
           ++ exists n. rewrite lookup_delete_ne; [done |].
              intros Heq. by apply (Hoff (S m') ltac:(lia)).
           ++ intros k Hk. apply Hoff. lia.
      * exists s'. split; [exact Hrun |]. split; [done |]. split.
        -- intros k Hk. destruct (decide (k = S m')) as [-> | Hkj].
           ++ rewrite Hsame, Hnodes; [apply lookup_delete_eq |].
              intros k Hk' Heq. apply at_inj in Heq; lia.
           ++ apply Hgone. lia.
        -- intros l Hl. rewrite Hsame by (intros k Hk; apply Hl; lia).
           rewrite Hnodes. apply lookup_delete_ne.
           intros Heq. by apply (Hl (S m') ltac:(lia)).
Qed.

End Project.

Section Run.
Variables (parts : list string) (c : loc) (o : options) (j : nat).

Hypothesis Hparts : Forall (λ x, simple x = true) parts.
Hypothesis Hpn : parts ≠ [].
Hypothesis Hnds : no_dot_slash (JsString.join NodePath.sep parts) = true.
Hypothesis Hdir : directory o = ".".
Hypothesis Hj : (List.length c ≤ j < List.length (c ++ parts))%nat.

Lemma take_below k :
  take (List.length c + k) (c ++ parts) = (c ++ take k parts)%list.
Proof. clear. apply take_app_add. Qed.

Lemma depth_split k :
  (List.length c ≤ k)%nat → k = (List.length c + (k - List.length c))%nat.
Proof. clear. lia. Qed.

Lemma no_dot_slash_take_rel k :
  (0 < k ≤ List.length parts)%nat →
  no_dot_slash (JsString.join NodePath.sep (take k parts)) = true.
Proof using Hnds.
  clear -Hnds. intros Hk.
  destruct (decide (k = List.length parts)) as [-> | Hne].
  - by rewrite firstn_all.
  - rewrite <- (take_drop k parts) in Hnds.
    rewrite join_app in Hnds.
    + by apply no_dot_slash_app_l in Hnds.
    + intros H. apply (f_equal List.length) in H.
      rewrite length_take in H. simpl in H. lia.
    + intros H. apply (f_equal List.length) in H.
      rewrite length_drop in H. simpl in H. lia.
Qed.

Lemma relative_entries :
  ∃ rest, dir_entries "." parts = JsString.join NodePath.sep parts :: rest
          ∧ Forall (λ x, ∃ k, (0 < k ≤ List.length parts)%nat
                           ∧ x = JsString.join NodePath.sep (take k parts))
                   rest.
Proof using Hparts Hpn.
  clear -Hparts Hpn.
  assert (Forall (λ x, ∃ k, (0 < k ≤ List.length parts)%nat
                         ∧ x = JsString.join NodePath.sep (take k parts))
            (dir_entries "." parts)) as Hall.
  { unfold dir_entries. apply Forall_forall. intros x Hx.
    apply list_elem_of_fmap in Hx as (i & -> & Hi).
    apply list_elem_of_In, in_rev, in_seq in Hi.
    exists i. split; [lia |]. apply join_dot; [by apply Forall_take |].
    intros H. apply (f_equal List.length) in H.
    rewrite length_take in H. simpl in H. lia. }
  assert (∃ rest, dir_entries "." parts
                  = JsString.join NodePath.sep parts :: rest)
    as [rest Hrest].
  { unfold dir_entries. destruct (List.length parts) as [|p] eqn:Ep.
    - destruct parts; [done | simpl in Ep; lia].
    - rewrite seq_S, rev_app_distr. cbn [rev app map Nat.add].
      eexists. f_equal. rewrite <- Ep, firstn_all.
      by apply join_dot. }
  exists rest. split; [done |]. rewrite Hrest in Hall.
  by apply Forall_cons_1 in Hall as [_ ?].
Qed.

(** [mkdir] in the working directory. *)
Lemma mkdir_provisions_rel (s : state) :
  cwd (disk s) = c →
  dirs_down_to (disk s) (c ++ parts) j = true →
  nothing_below (disk s) (take (S j) (c ++ parts)) = true →
  ∃ made d1,
    mkdir (JsString.join NodePath.sep parts) o s
    = Return (Some made)
        (State d1 (filesWritten s)
               (dirsWritten s ++ dir_entries "." parts)%list
               (debugOn s) (trace s))
    ∧ cwd d1 = c
    ∧ (∀ k, (0 < k ≤ List.length (c ++ parts))%nat →
            nodes d1 !! take k (c ++ parts) = Some Dir)
    ∧ (∀ l, (∀ k, (j < k ≤ List.length (c ++ parts))%nat →
                  l ≠ take k (c ++ parts)) →
            nodes d1 !! l = nodes (disk s) !! l).
Proof using All.
  intros Hc Hdown Hfresh. unfold mkdir. rewrite Hdir.
  rewrite join_dot by done.
  unfold mkdirp. rewrite resolve_relative, Hc by done.
  destruct (mkdirp_from_off_path (nodes (disk s)) None [] (c ++ parts))
    as (made & m' & Hrun & Hoff).
  { intros i x Hi. cbn [app].
    destruct (decide (i ≤ j)%nat).
    - rewrite (dirs_down_to_spec _ _ j) by (done || lia). done.
    - rewrite (nothing_below_spec _ (take (S j) (c ++ parts)));
        [done | done |].
      apply take_prefix_le. lia. }
  rewrite Hrun.
  pose proof (mkdirp_from_all _ _ _ _ _ _ Hrun) as Hall.
  assert (is_Some made) as [x ->].
  { eapply mkdirp_from_missing; [exact Hrun |].
    exists (S j). split; [lia |]. cbn [app].
    apply (nothing_below_spec _ (take (S j) (c ++ parts))); done. }
  rewrite replace_no_dot_slash by done.
  rewrite split_join by done.
  rewrite push_parts_spec. exists x, (with_nodes (disk s) m').
  split; [reflexivity |]. split; [done |]. split.
  - intros k Hk. apply (Hall k Hk).
  - intros l Hl. cbn [with_nodes nodes].
    destruct (decide (l = take (List.length l) (c ++ parts)
                      ∧ (0 < List.length l ≤ j)%nat)) as [[Heq Hlen]|Hn].
    + rewrite Heq.
      pose proof (Hall (List.length l)) as Hd. cbn [app] in Hd.
      rewrite Hd by lia.
      symmetry. by apply (dirs_down_to_spec _ _ j).
    + apply Hoff. intros i Hi. cbn [app].
      destruct (decide (i ≤ j)%nat) as [Hle|Hgt]; [| apply Hl; lia].
      intros ->. apply Hn. rewrite length_take.
      replace (i `min` List.length (c ++ parts))%nat with i by lia.
      split; [done | lia].
Qed.

(** A ledger entry whose directory is gone, or still holds
    something, is passed over. *)
Lemma ledger_entry_passed_rel (st : state) (k : nat) (rest : list string) :
  cwd (disk st) = c →
  (0 < k ≤ List.length parts)%nat →
  nodes (disk st) !! (c ++ take k parts)%list = None
  ∨ (nodes (disk st) !! (c ++ take k parts)%list = Some Dir
     ∧ ∃ l, is_entry (c ++ take k parts) l = true
            ∧ is_Some (nodes (disk st) !! l)) →
  removeDirs (JsString.join NodePath.sep (take k parts) :: rest) st
  = removeDirs rest st.
Proof using Hparts Hnds.
  clear Hdir Hj Hpn. intros Hc Hk Hcase. cbn [removeDirs].
  assert (take k parts ≠ []) as Hne.
  { intros H. apply (f_equal List.length) in H.
    rewrite length_take in H. simpl in H. lia. }
  assert (Forall (λ x, simple x = true) (take k parts)) as Hsk
    by by apply Forall_take.
  rewrite replace_no_dot_slash by by apply no_dot_slash_take_rel.
  rewrite split_join by done.
  assert (List.length (take k parts) = k) as Hlen
    by (rewrite length_take; lia).
  rewrite Hlen.
  destruct (relative_name (take k parts) c Hsk (disk st) k Hc)
    as (Hpart & Htruthy & Hres); [lia |].
  rewrite take_take in Hpart, Htruthy, Hres.
  replace (k `min` k)%nat with k in * by lia.
  pose proof (at_nonempty parts c k Hk) as Hat.
  assert (removeChain (take k parts) k st = Return tt st) as ->; [| done].
  destruct Hcase as [Hgone | (Hd & l & Hl & Hsome)].
  - rewrite removeChain_eq. cbv zeta. rewrite Hpart, Htruthy. cbn [negb].
    assert (existsSync (disk st)
              (JsString.join NodePath.sep (take k parts)) = false) as ->;
      [| done].
    apply existsSync_false. by rewrite Hres, lookup_nonroot.
  - eapply (removeChain_stops _ _ _
              (entries (disk st) (c ++ take k parts))).
    + by rewrite Hpart.
    + rewrite Hpart, readdirSync_dir; rewrite Hres; [done |].
      by rewrite lookup_nonroot.
    + intros Hnil. rewrite (entries_nil _ _ _ Hnil Hl) in Hsome.
      by destruct Hsome.
Qed.

(** Phase 2 of the rollback on a disk where the chain below depth
    [j] holds nothing but the chain itself. *)
Lemma rollback_walk_rel (st : state) (rest : list string) :
  cwd (disk st) = c →
  (∀ k, (0 < k ≤ List.length (c ++ parts))%nat →
        nodes (disk st) !! take k (c ++ parts) = Some Dir) →
  (∀ l, is_Some (nodes (disk st) !! l) →
        take (S j) (c ++ parts) `prefix_of` l →
        ∃ k, (j < k ≤ List.length (c ++ parts))%nat
             ∧ l = take k (c ++ parts)) →
  (j = List.length c
   ∨ ∃ l, is_entry (take j (c ++ parts)) l = true
          ∧ is_Some (nodes (disk st) !! l)
          ∧ l ≠ take (S j) (c ++ parts)) →
  Forall (λ x, ∃ k, (0 < k ≤ List.length parts)%nat
                   ∧ x = JsString.join NodePath.sep (take k parts)) rest →
  ∃ st', removeDirs (JsString.join NodePath.sep parts :: rest) st
         = Return tt st'
         ∧ (∀ k, (j < k ≤ List.length (c ++ parts))%nat →
                 nodes (disk st') !! take k (c ++ parts) = None)
         ∧ (∀ l, (∀ k, (j < k ≤ List.length (c ++ parts))%nat →
                       l ≠ take k (c ++ parts)) →
                 nodes (disk st') !! l = nodes (disk st) !! l).
Proof using Hparts Hpn Hnds Hj.
  clear Hdir. intros Hc Ha Hb Hfloor Hrest.
  rewrite length_app in *.
  set (r := (j - List.length c)%nat).
  assert (j = (List.length c + r)%nat) as Hjr by (subst r; lia).
  assert (∀ k, (c ++ take k parts)%list
               = take (List.length c + k) (c ++ parts)) as Hat
    by (intros k; symmetry; apply take_below).
  destruct (removeChain_until_rel parts c Hparts r (List.length parts) st)
    as (st' & Hrun & Hc' & Hgone & Hsame).
  - done.
  - lia.
  - intros k Hk. rewrite Hat. apply Ha. lia.
  - intros _. rewrite firstn_all. apply entries_nil_iff. intros l Hl.
    destruct (nodes (disk st) !! l) eqn:E; [| done]. exfalso.
    destruct (Hb l) as (k & Hk & ->); [eauto | |].
    + transitivity (c ++ parts)%list;
        [apply take_prefix_whole | by apply is_entry_prefix].
    + apply is_entry_spec in Hl as [Hlen _].
      rewrite length_take, !length_app in Hlen. lia.
  - intros k l Hk Hl Hs. rewrite !Hat in *.
    destruct (Hb l Hs) as (k' & Hk' & ->).
    + transitivity (take (List.length c + k) (c ++ parts));
        [| by apply is_entry_prefix].
      apply take_prefix_le. lia.
    + apply is_entry_spec in Hl as [Hlen _].
      rewrite !length_take, !length_app in Hlen. f_equal. lia.
  - destruct (decide (r = 0%nat)) as [? | Hr0]; [by left |].
    destruct Hfloor as [Hjc | (l0 & Hl0 & Hsome0 & Hne0)]; [lia |].
    right. rewrite Hat, <- Hjr. split; [apply Ha; lia |].
    exists l0. split; [done |]. split; [done |].
    intros k Hk. rewrite Hat. intros ->.
    apply is_entry_spec in Hl0 as [Hlen _].
    rewrite !length_take, !length_app in Hlen. apply Hne0. f_equal. lia.
  - assert (∀ k, (j < k ≤ List.length c + List.length parts)%nat →
                 nodes (disk st') !! take k (c ++ parts) = None) as Hgone'.
    { intros k Hk. rewrite (depth_split k), <- Hat by lia.
      apply Hgone. lia. }
    assert (∀ l, (∀ k, (j < k ≤ List.length c + List.length parts)%nat →
                       l ≠ take k (c ++ parts)) →
                 nodes (disk st') !! l = nodes (disk st) !! l) as Hsame'.
    { intros l Hl. apply Hsame. intros k Hk. rewrite Hat. apply Hl. lia. }
    exists st'. split; [| done].
    cbn [removeDirs].
    rewrite replace_no_dot_slash by done.
    rewrite split_join by done. rewrite Hrun.
    clear Hrun. induction Hrest as [|x rs (k & Hk & ->) Hr IH]; [done |].
    rewrite ledger_entry_passed_rel; [exact IH | done | lia |].
    rewrite Hat.
    destruct (decide (j < List.length c + k)%nat) as [Hjk|Hkj].
    + left. apply Hgone'. lia.
    + right. split.
      * rewrite Hsame'; [apply Ha; lia |].
        intros k' Hk' Heq. apply take_inj_length in Heq;
          rewrite ?length_app; lia.
      * destruct (decide (List.length c + k = j)%nat) as [Hkeq | Hlt].
        -- destruct Hfloor as [Hjc | (l0 & Hl0 & Hsome0 & Hne0)]; [lia |].
           exists l0. rewrite Hkeq. split; [done |].
           rewrite Hsame'; [done |].
           intros k' Hk' ->. apply is_entry_spec in Hl0 as [Hlen _].
           rewrite !length_take, !length_app in Hlen.
           apply Hne0. f_equal. lia.
        -- exists (take (S (List.length c + k)) (c ++ parts)).
           split; [apply is_entry_take; rewrite length_app; lia |].
           rewrite Hsame'; [rewrite Ha by lia; eauto |].
           intros k' Hk' Heq. apply take_inj_length in Heq;
             rewrite ?length_app; lia.
Qed.

(** X27. Provision and roll back in the default project directory
    [.].  For a path of ordinary names with no [./] in it (no name
    ends in a dot) that, below the working directory, exists down
    to some depth and not beyond, [mkdir] followed by the rollback
    gives back the disk there was - provided the last existing
    directory of the path holds something else, or is the working
    directory itself, which the walk never reaches. *)
Theorem provision_then_rollback_in_place (s : state) :
  cwd (disk s) = c →
  filesWritten s = [] → dirsWritten s = [] →
  dirs_down_to (disk s) (c ++ parts) j = true →
  nothing_below (disk s) (take (S j) (c ++ parts)) = true →
  j = List.length c ∨ has_entry (disk s) (take j (c ++ parts)) = true →
  ∃ made s1 s2,
    mkdir (JsString.join NodePath.sep parts) o s = Return (Some made) s1
    ∧ cleanupWrittenFiles s1 = Return tt s2
    ∧ disk s2 = disk s.
Proof using All.
  intros Hc Hfw Hdw Hdown Hfresh Hentry.
  destruct (mkdir_provisions_rel s Hc Hdown Hfresh)
    as (made & d1 & Hmk & Hcwd & Hall & Hoff).
  pose proof (λ l, nothing_below_spec (disk s) _ l Hfresh) as Hfr.
  rewrite Hfw, Hdw in Hmk. cbn [app] in Hmk.
  set (s1 := State d1 [] (dir_entries "." parts) (debugOn s) (trace s)) in *.
  destruct relative_entries as (rest & Hrec & Hrest).
  destruct (rollback_walk_rel s1
              (first_occurrences (dir_entries "." parts) 1 rest))
    as (s2 & Hrun & Hgone & Hsame).
  - done.
  - exact Hall.
  - by apply (provisioned_chain c parts j (nodes (disk s))).
  - destruct Hentry as [? | Hentry]; [by left | right].
    by apply (provisioned_entry c parts j (disk s)).
  - by apply first_occurrences_Forall.
  - exists made, s1, s2. split; [exact Hmk |].
    assert (cleanupWrittenFiles s1 = Return tt s2) as Hclean.
    { unfold cleanupWrittenFiles.
      cbn [removeFiles s1 filesWritten dirsWritten].
      rewrite Hrec at 1. rewrite dirsToRemove_cons, <- Hrec. exact Hrun. }
    split; [exact Hclean |].
    apply fs_disk_eq.
    + pose proof (shrunk_cleanup s1) as (Hcs & _).
      rewrite Hclean in Hcs. cbn [final] in Hcs. rewrite Hcs.
      cbn [s1 disk]. congruence.
    + by apply (chain_restored c parts j _ (nodes d1)).
Qed.

End Run.

(** [inf/k8s] in the sample project, started in [/tmp/proj] with the
    default [-d .]. *)
Lemma provision_then_rollback_in_place_witness :
  ∃ made s1 s2,
    mkdir "inf/k8s" MoreScenario.in_place (Scenario.fresh Scenario.project_disk)
    = Return (Some made) s1
    ∧ cleanupWrittenFiles s1 = Return tt s2
    ∧ disk s2 = Scenario.project_disk.
Proof.
  apply (provision_then_rollback_in_place
           ["inf"; "k8s"] ["tmp"; "proj"] MoreScenario.in_place 2
           ltac:(repeat constructor) ltac:(discriminate)
           ltac:(reflexivity) ltac:(reflexivity) ltac:(simpl; lia)
           (Scenario.fresh Scenario.project_disk));
    try reflexivity.
  left. reflexivity.
Defined.

End RoundTripRel.

(* ===================================================================== *)
(** ** How far the rollback walk climbs: the path as recorded *)
(* ===================================================================== *)

Module RollbackClimb.
Import Fs Js Util Props MoreProps FsFacts RollbackFacts PathFacts
       RollbackReach PathMore RoundTripRel.

Lemma chain_below_dir d parts r k :
  chain_below d parts r = true → (r < k ≤ List.length parts)%nat →
  nodes d !! (cwd d ++ take k parts)%list = Some Dir.
Proof.
  unfold chain_below. intros [H _]%andb_prop Hk.
  rewrite forallb_forall in H. specialize (H k). rewrite in_seq in H.
  destruct (andb_prop _ _ (H ltac:(lia))) as [Hd _].
  by apply bool_decide_eq_true in Hd.
Qed.

Lemma chain_below_entry d parts r k l :
  chain_below d parts r = true → (r < k ≤ List.length parts)%nat →
  is_entry (cwd d ++ take k parts) l = true → is_Some (nodes d !! l) →
  (k < List.length parts)%nat ∧ l = (cwd d ++ take (S k) parts)%list.
Proof.
  unfold chain_below. intros [H _]%andb_prop Hk He Hl.
  rewrite forallb_forall in H. specialize (H k). rewrite in_seq in H.
  destruct (andb_prop _ _ (H ltac:(lia))) as [_ Hall].
  rewrite forallb_forall in Hall. specialize (Hall l).
  destruct (andb_prop _ _
              (Hall ltac:(apply list_elem_of_In, elem_of_entries; done)))
    as [H1 H2].
  apply Nat.ltb_lt in H1. by apply bool_decide_eq_true in H2.
Qed.

Lemma chain_below_floor d parts r :
  chain_below d parts (S r) = true →
  nodes d !! (cwd d ++ take (S r) parts)%list = Some Dir
  ∧ ∃ l, is_entry (cwd d ++ take (S r) parts) l = true
         ∧ is_Some (nodes d !! l)
         ∧ l ≠ (cwd d ++ take (S (S r)) parts)%list.
Proof.
  unfold chain_below. intros [_ H]%andb_prop.
  apply andb_prop in H as [Hd He]. apply bool_decide_eq_true in Hd.
  split; [done |]. apply existsb_exists in He as (l & Hin & Hl).
  apply list_elem_of_In, elem_of_entries in Hin as [Hsome Hentry].
  exists l. repeat split; try done.
  apply negb_true_iff, bool_decide_eq_false in Hl. done.
Qed.

(** Phase 2 on a relative entry.  For a ledgered directory
    [p1/.../pn] whose chain below the working directory is bare
    below depth [r], the iteration for it removes the directories of
    depth [r + 1 .. n] and nothing else; it stops at depth [r], which
    is the first directory that has another entry or, for [r = 0],
    the working directory: that one stays, empty or not. *)
Lemma relative_chain_is_climbed (s : state) (parts : list string)
    (r : nat) :
  Forall (λ x, simple x = true) parts →
  (r < List.length parts)%nat →
  JsString.replace "./" "" (JsString.join NodePath.sep parts)
  = JsString.join NodePath.sep parts →
  chain_below (disk s) parts r = true →
  ∃ s', (∀ rest, removeDirs (JsString.join NodePath.sep parts :: rest) s
                 = removeDirs rest s')
        ∧ (∀ k, (r < k ≤ List.length parts)%nat →
                lookup (disk s') (cwd (disk s) ++ take k parts) = None)
        ∧ (∀ l, (∀ k, (r < k ≤ List.length parts)%nat →
                      l ≠ (cwd (disk s) ++ take k parts)%list) →
                lookup (disk s') l = lookup (disk s) l)
        ∧ (filesWritten s = [] →
           dirsWritten s = [JsString.join NodePath.sep parts] →
           cleanupWrittenFiles s = Return tt s').
Proof.
  intros Hs Hr Hrep Hchain.
  assert (parts ≠ []) as Hne by (destruct parts; [simpl in Hr; lia | done]).
  destruct (removeChain_until_rel parts (cwd (disk s)) Hs r
              (List.length parts) s)
    as (s' & Hrun & Hc' & Hgone & Hsame).
  - done.
  - lia.
  - intros k Hk. by eapply chain_below_dir.
  - intros _. apply entries_nil_iff. intros l Hl.
    destruct (nodes (disk s) !! l) eqn:E; [| done]. exfalso.
    destruct (chain_below_entry (disk s) parts r (List.length parts) l
                Hchain ltac:(split; [exact Hr | reflexivity]) Hl);
      [eauto | lia].
  - intros k l Hk Hl Hsome.
    by destruct (chain_below_entry (disk s) parts r k l Hchain
                   ltac:(lia) Hl Hsome).
  - destruct r as [|r']; [by left | right].
    destruct (chain_below_floor _ _ _ Hchain)
      as (Hd & l & Hl & Hsome & Hnext).
    split; [done |]. exists l. repeat split; try done.
    intros k Hk Heq. apply is_entry_spec in Hl as [Hlen _].
    rewrite Heq, !length_app, !length_take in Hlen.
    assert (k = S (S r')) as -> by lia. done.
  - assert (∀ rest, removeDirs (JsString.join NodePath.sep parts :: rest) s
                    = removeDirs rest s') as Hiter.
    { intros rest. cbn [removeDirs].
      rewrite Hrep, split_join by done. by rewrite Hrun. }
    exists s'. split; [exact Hiter |]. split; [| split].
    + intros k Hk. rewrite lookup_nonroot; [by apply Hgone |].
      apply at_nonempty. lia.
    + intros [|x l] Hl; [done |]. rewrite !lookup_nonroot by done.
      by apply Hsame.
    + intros Hfw Hdw. unfold cleanupWrittenFiles. rewrite Hfw.
      cbn [removeFiles]. rewrite Hdw, dirsToRemove_single. apply Hiter.
Qed.

(** C9, as the code has it.  Phase 2 walks each ledgered path as it
    was recorded, from its last segment upwards, removing the
    directories that are empty and stopping at the first one that
    holds something else; the project directory plays no part in it.
    For a path of ordinary names that [replace('./', '')] leaves as
    it is:
    - an absolute entry [/s1/.../sn] is climbed towards the
      filesystem root: with the chain bare below depth [j], the
      directories of depth [j + 1 .. n] are removed - ledgered or
      not - and nothing else;
    - a relative entry [s1/.../sn] (the default project directory
      [.]) is climbed only as far as the working directory, which
      stays with everything above it, empty or not.
    Phase 2 then goes on with the remaining entries; with that
    directory as the whole ledger, this is all that
    [cleanupWrittenFiles] does. *)
Theorem rollback_climbs_the_recorded_path (s : state)
    (segs : list string) (j : nat) :
  Forall (λ x, simple x = true) segs →
  (j < List.length segs)%nat →
  (JsString.replace "./" "" (absolute segs) = absolute segs →
   chain_above (disk s) segs j = true →
   ∃ s', (∀ rest, removeDirs (absolute segs :: rest) s = removeDirs rest s')
         ∧ (∀ k, (j < k ≤ List.length segs)%nat →
                 lookup (disk s') (take k segs) = None)
         ∧ (∀ l, (∀ k, (j < k ≤ List.length segs)%nat → l ≠ take k segs) →
                 lookup (disk s') l = lookup (disk s) l)
         ∧ (filesWritten s = [] → dirsWritten s = [absolute segs] →
            cleanupWrittenFiles s = Return tt s'))
  ∧ (JsString.replace "./" "" (JsString.join NodePath.sep segs)
     = JsString.join NodePath.sep segs →
     chain_below (disk s) segs j = true →
     ∃ s', (∀ rest, removeDirs (JsString.join NodePath.sep segs :: rest) s
                    = removeDirs rest s')
           ∧ (∀ k, (j < k ≤ List.length segs)%nat →
                   lookup (disk s') (cwd (disk s) ++ take k segs) = None)
           ∧ (∀ l, (∀ k, (j < k ≤ List.length segs)%nat →
                         l ≠ (cwd (disk s) ++ take k segs)%list) →
                   lookup (disk s') l = lookup (disk s) l)
           ∧ (filesWritten s = [] →
              dirsWritten s = [JsString.join NodePath.sep segs] →
              cleanupWrittenFiles s = Return tt s')).
Proof.
  intros Hs Hj. split.
  - by apply absolute_chain_is_climbed.
  - by apply relative_chain_is_climbed.
Qed.

(** With the project at [/tmp/proj], only [/tmp/proj/inf] is
    ledgered and rollback also removes [/tmp/proj] and [/tmp]; with
    the project at [.], [inf] is ledgered and [/tmp/proj] stays. *)
Lemma rollback_climbs_the_recorded_path_witness :
  (dirsWritten Scenario.after_mkdir_inf = ["/tmp/proj/inf"]
   ∧ ∃ s', cleanupWrittenFiles Scenario.after_mkdir_inf = Return tt s'
           ∧ lookup (disk s') ["tmp"; "proj"] = None
           ∧ lookup (disk s') ["tmp"] = None)
  ∧ (dirsWritten MoreScenario.after_in_place_mkdir = ["inf"]
     ∧ ∃ s', cleanupWrittenFiles MoreScenario.after_in_place_mkdir
             = Return tt s'
             ∧ lookup (disk s') ["tmp"; "proj"; "inf"] = None
             ∧ lookup (disk s') ["tmp"; "proj"] = Some Dir).
Proof.
  split; (split; [vm_compute; reflexivity |]).
  - destruct (proj1 (rollback_climbs_the_recorded_path
                       Scenario.after_mkdir_inf ["tmp"; "proj"; "inf"] 0
                       ltac:(repeat constructor) ltac:(simpl; lia)))
      as (s' & _ & Hgone & _ & Hrun).
    + vm_compute. reflexivity.
    + vm_compute. reflexivity.
    + exists s'. split; [apply Hrun; vm_compute; reflexivity |]. split.
      * apply (Hgone 2%nat). simpl. lia.
      * apply (Hgone 1%nat). simpl. lia.
  - destruct (proj2 (rollback_climbs_the_recorded_path
                       MoreScenario.after_in_place_mkdir ["inf"] 0
                       ltac:(repeat constructor) ltac:(simpl; lia)))
      as (s' & _ & Hgone & Hsame & Hrun).
    + vm_compute. reflexivity.
    + vm_compute. reflexivity.
    + exists s'. split; [apply Hrun; vm_compute; reflexivity |]. split.
      * apply (Hgone 1%nat). simpl. lia.
      * rewrite (Hsame ["tmp"; "proj"]); [vm_compute; reflexivity |].
        intros k Hk. simpl in Hk. assert (k = 1%nat) as -> by lia. done.
Defined.

(** C9, as stated, fails.  Started in [/tmp/proj] with the default
    [-d .], [mkdir("inf")] ledgers [inf]; rollback removes
    [/tmp/proj/inf] and stops: the project directory [/tmp/proj],
    now empty, and [/tmp] above it stay.  And with the project given
    as [../proj] the ledgered [../proj/inf] is looked for as
    [.proj/inf]: the directory, empty as it is, stays. *)
Lemma relative_entry_is_not_climbed_to_the_root :
  (dirsWritten MoreScenario.after_in_place_mkdir = ["inf"]
   ∧ ∃ s', cleanupWrittenFiles MoreScenario.after_in_place_mkdir
           = Return tt s'
           ∧ lookup (disk s') ["tmp"; "proj"; "inf"] = None
           ∧ lookup (disk s') ["tmp"; "proj"] = Some Dir
           ∧ entries (disk s') ["tmp"; "proj"] = []
           ∧ lookup (disk s') ["tmp"] = Some Dir)
  ∧ (dirsWritten MoreScenario.after_sibling_mkdir = ["../proj/inf"]
     ∧ ∃ s', cleanupWrittenFiles MoreScenario.after_sibling_mkdir
             = Return tt s'
             ∧ lookup (disk s') ["tmp"; "proj"; "inf"] = Some Dir
             ∧ entries (disk s') ["tmp"; "proj"; "inf"] = []).
Proof.
  split; (split; [vm_compute; reflexivity |]); eexists;
    (split; [vm_compute; reflexivity |]); repeat split; vm_compute;
    reflexivity.
Qed.

End RollbackClimb.

(* ===================================================================== *)
(** ** More on the reconciler of [deployNodeApp] *)
(* ===================================================================== *)

Module DeployMore.
Import Fs Js Deploy Props FsFacts DeployFacts PolicyFacts.

Section Reconciler.

Variables cwd dirname : string.
Variable safeLoad : string -> option Lodash.value.
Variable safeDump : Lodash.value -> option string.
Variable toLength : Lodash.value -> Js.error + nat.
Variable o : opts.

Local Abbreviation cwf :=
  (Deploy.confirmWriteFile cwd dirname safeLoad safeDump toLength o).
Local Abbreviation load :=
  (Deploy.loadTemplate dirname safeLoad safeDump toLength).

Lemma prompts_shown_log msg s :
  prompts_shown (trace (log o msg s)) = prompts_shown (trace s).
Proof.
  unfold log. destruct (silence o); [done |]. cbn [trace emit].
  rewrite prompts_shown_snoc. simpl. lia.
Qed.

Lemma disk_log msg s : disk (log o msg s) = disk s.
Proof. unfold log. by destruct (silence o). Qed.

Lemma prompts_shown_finish doWrite filePath fullPath a desired s :
  prompts_shown
    (trace (final (Deploy.finish o doWrite filePath fullPath a desired s)))
  = prompts_shown (trace s).
Proof.
  unfold Deploy.finish. destruct (negb doWrite && _); [done |].
  destruct desired as [text|]; [| done].
  destruct (JsString.truthy text); [| done].
  destruct (bool_decide (output a = Some "-")).
  - cbn [final]. rewrite prompts_shown_log. cbn [trace emit].
    rewrite prompts_shown_snoc. simpl. lia.
  - destruct (writeFile _ _ _); cbn [final Deploy.fatal].
    + by rewrite prompts_shown_log.
    + cbn [trace emit]. rewrite prompts_shown_snoc. simpl. lia.
Qed.

Lemma prompts_shown_load a s r s1 :
  load a s = (r, s1) → prompts_shown (trace s1) = prompts_shown (trace s).
Proof.
  intros [_ [-> | (tp & _ & _ & ->)]]%loadTemplate_state; [done |].
  cbn [trace emit]. rewrite prompts_shown_snoc. simpl. lia.
Qed.

(** The last block changes the disk at the target only. *)
Lemma finish_frame doWrite filePath fullPath a desired s l :
  l ≠ resolve (disk s) fullPath →
  Fs.cwd (disk (final (Deploy.finish o doWrite filePath fullPath a desired s)))
  = Fs.cwd (disk s)
  ∧ nodes (disk (final (Deploy.finish o doWrite filePath fullPath a desired s)))
    !! l
    = nodes (disk s) !! l.
Proof.
  intros Hl. unfold Deploy.finish. destruct (negb doWrite && _); [done |].
  destruct desired as [text|]; [| done].
  destruct (JsString.truthy text); [| done].
  destruct (bool_decide (output a = Some "-")).
  - cbn [final]. by rewrite disk_log.
  - destruct (writeFile _ _ _) as [d'|e] eqn:Hw; cbn [final Deploy.fatal];
      [| done].
    rewrite disk_log. cbn [disk set_disk].
    apply writeFile_Ok in Hw as (_ & _ & ->). cbn [with_nodes nodes Fs.cwd].
    split; [done |]. by rewrite lookup_insert_ne.
Qed.

(** X12. The prompt belongs to the interactive run only: with
    [overwrite] or [confirm] set, with the output sent to stdout, or
    with a target that is missing, unreadable or empty, a call shows
    no prompt and consumes no answer. *)
Theorem deploy_prompt_needs_an_interactive_run
    (answers : list answer) (filePath : string) (a : args) (s : state) :
  opt_overwrite o = true ∨ opt_confirm o = true ∨ opt_output o = Some "-"
  ∨ (∀ c, readFile (disk s) (NodePath.join cwd filePath) = Ok c → c = "") →
  (cwf answers filePath a s).2 = answers
  ∧ prompts_shown (trace (final (cwf answers filePath a s).1))
    = prompts_shown (trace s).
Proof.
  intros Hpol. rewrite deploy_confirmWriteFile_eq. cbv zeta.
  destruct (load a s) as [[e|template] s1] eqn:Hload.
  { split; [done |]. cbn [fst final]. by eapply prompts_shown_load. }
  pose proof (prompts_shown_load _ _ _ _ Hload) as Hp1.
  apply loadTemplate_state in Hload as [Hd1 _].
  destruct (_ && _); [done |]. unfold read. rewrite Hd1.
  set (s2 := emit (EvRead (NodePath.join cwd filePath)) s1).
  assert (prompts_shown (trace s2) = prompts_shown (trace s)) as Hp2.
  { subst s2. cbn [trace emit]. rewrite prompts_shown_snoc. simpl. lia. }
  assert (∀ b d, (Deploy.finish o b filePath (NodePath.join cwd filePath) a d s2,
                  answers).2 = answers
                 ∧ prompts_shown
                     (trace (final (Deploy.finish o b filePath
                                      (NodePath.join cwd filePath) a d s2,
                                    answers).1))
                   = prompts_shown (trace s)) as Hfin.
  { intros b d. split; [done |]. cbn [fst].
    by rewrite prompts_shown_finish. }
  destruct (opt_overwrite o) eqn:Hov; [apply Hfin |].
  destruct (negb _ && bool_decide _); [done |].
  destruct (readFile (disk s) (NodePath.join cwd filePath)) as [c|e] eqn:Hr.
  - destruct (JsString.truthy_opt (Some c) && prompts o && negb (silence o))
      eqn:Hask.
    + exfalso. apply andb_prop in Hask as [Hask Hsil].
      apply andb_prop in Hask as [Hc Hpr].
      destruct Hpol as [? | [Hcf | [Hout | Hempty]]]; [done | | |].
      * unfold prompts in Hpr. by rewrite Hcf in Hpr.
      * unfold silence in Hsil. by rewrite bool_decide_eq_true_2 in Hsil.
      * rewrite (Hempty c eq_refl) in Hc. done.
    + destruct (_ && negb (prompts o)).
      * split; [done |]. cbn [fst].
        by rewrite prompts_shown_finish, prompts_shown_log.
      * destruct (negb (JsString.truthy_opt _)); apply Hfin.
  - cbn [JsString.truthy_opt andb negb]. apply Hfin.
Qed.

(** X13. What a call changes on the disk is its target: every other
    node - the template included - is afterwards what it was,
    however the call ends and whatever is answered. *)
Theorem deploy_touches_only_its_target
    (answers : list answer) (filePath : string) (a : args) (s : state)
    (l : loc) :
  l ≠ resolve (disk s) (NodePath.join cwd filePath) →
  nodes (disk (final (cwf answers filePath a s).1)) !! l
  = nodes (disk s) !! l.
Proof.
  intros Hl.
  enough (Fs.cwd (disk (final (cwf answers filePath a s).1)) = Fs.cwd (disk s)
          ∧ nodes (disk (final (cwf answers filePath a s).1)) !! l
            = nodes (disk s) !! l) as [_ ?]; [done |].
  revert a s Hl. induction answers as [|ans rest IH]; intros a s Hl;
    rewrite deploy_confirmWriteFile_eq; cbv zeta;
    (destruct (load a s) as [[e|template] s1] eqn:Hload;
     apply loadTemplate_state in Hload as [Hd1 _];
     [cbn [fst final]; by rewrite Hd1 |]);
    (destruct (_ && _); [cbn [fst final]; by rewrite Hd1 |]);
    unfold read;
    set (s2 := emit (EvRead (NodePath.join cwd filePath)) s1);
    (assert (disk s2 = disk s) as Hd2 by done);
    (assert (∀ b d s', disk s' = disk s →
               Fs.cwd (disk (final (Deploy.finish o b filePath
                                      (NodePath.join cwd filePath) a d s')))
               = Fs.cwd (disk s)
               ∧ nodes (disk (final (Deploy.finish o b filePath
                                       (NodePath.join cwd filePath) a d s')))
                 !! l
                 = nodes (disk s) !! l) as Hfin
       by (intros b d s' Hs'; rewrite <- Hs'; apply finish_frame;
           by rewrite Hs'));
    (destruct (opt_overwrite o); [by apply Hfin |]);
    (destruct (negb _ && bool_decide _); [cbn [fst final]; by rewrite Hd2 |]);
    (destruct (_ && prompts o && negb (silence o));
     [| destruct (_ && negb (prompts o));
        [apply Hfin; by rewrite disk_log
        | destruct (negb (JsString.truthy_opt _)); by apply Hfin]]).
  - cbn [fst final disk emit]. by rewrite Hd2.
  - destruct ans.
    + by apply Hfin.
    + by apply Hfin.
    + cbn [disk emit]. destruct (readFile _ _) as [existing|e];
        [| cbn [fst final disk emit]; by rewrite Hd2].
      destruct (JsString.or_else (content a) template) as [shown|];
        [| cbn [fst final disk emit]; by rewrite Hd2].
      set (s5 := emit _ (emit _ (emit _ s2))).
      assert (disk s5 = disk s) as Hd5 by done.
      specialize (IH (Args (content a) (templatePath a) None (properties a))
                    s5).
      rewrite Hd5 in IH. specialize (IH Hl).
      destruct (cwf rest filePath _ s5) as [[v s6|e s6|s6|s6] rest'];
        cbn [fst final] in IH |- *; try done.
      destruct IH as [Hc6 Hn6].
      destruct (finish_frame false filePath (NodePath.join cwd filePath) a
                  (Some shown) s6 l) as [Hc Hn].
      { unfold resolve in *. rewrite Hc6. exact Hl. }
      split; [by rewrite Hc | by rewrite Hn].
Qed.

Lemma or_else_content a c template :
  content a = Some c → JsString.truthy c = true →
  JsString.or_else (content a) template = Some c.
Proof. intros -> Ht. unfold JsString.or_else. cbn. by rewrite Ht. Qed.

Lemma not_both a :
  JsString.truthy_opt (templatePath a) = false →
  JsString.truthy_opt (content a) && JsString.truthy_opt (templatePath a)
  = false.
Proof. intros ->. apply andb_false_r. Qed.

Lemma truthy_nonempty c : JsString.truthy c = true → c ≠ "".
Proof. by intros H ->. Qed.

(** X14. A target that is missing or empty is written without a
    question, under every policy: an empty file counts as no file. *)
Theorem missing_or_empty_target_is_written_unasked
    (answers : list answer) (filePath : string) (a : args) (s : state)
    (c : string) (d' : Fs.disk) :
  content a = Some c → JsString.truthy c = true →
  JsString.truthy_opt (templatePath a) = false →
  output a ≠ Some "-" →
  (∀ c0, readFile (disk s) (NodePath.join cwd filePath) = Ok c0 → c0 = "") →
  writeFile (disk s) (NodePath.join cwd filePath) c = Ok d' →
  ∃ s', cwf answers filePath a s = (Return JTrue s', answers)
        ∧ disk s' = d'
        ∧ prompts_shown (trace s') = prompts_shown (trace s).
Proof.
  intros Hc Ht Htp Hout Hempty Hw.
  rewrite deploy_confirmWriteFile_eq. cbv zeta.
  rewrite loadTemplate_none, not_both, (or_else_content a c) by done.
  unfold read.
  set (s2 := emit (EvRead (NodePath.join cwd filePath)) s).
  assert (prompts_shown (trace s2) = prompts_shown (trace s)) as Hp2.
  { subst s2. cbn [trace emit]. rewrite prompts_shown_snoc. simpl. lia. }
  assert (∃ s', Deploy.finish o true filePath (NodePath.join cwd filePath) a
                  (Some c) s2 = Return JTrue s'
                ∧ disk s' = d'
                ∧ prompts_shown (trace s') = prompts_shown (trace s))
    as (s' & Hfin & Hd & Hp).
  { eexists. split; [by apply finish_disk |].
    split; [by rewrite disk_log | by rewrite prompts_shown_log]. }
  exists s'. rewrite Hfin.
  destruct (opt_overwrite o); [done |].
  rewrite (bool_decide_eq_false_2 _ Hout). cbn [negb andb].
  destruct (readFile (disk s) (NodePath.join cwd filePath)) as [c0|e] eqn:Hr.
  - rewrite (Hempty c0 eq_refl).
    rewrite bool_decide_eq_false_2
      by (intros [= <-]; by apply truthy_nonempty in Ht).
    cbn [JsString.truthy_opt JsString.truthy andb negb]. done.
  - rewrite bool_decide_eq_false_2 by done.
    cbn [JsString.truthy_opt andb negb]. done.
Qed.


Lemma finish_false_disk filePath fullPath a desired s :
  disk (final (Deploy.finish o false filePath fullPath a desired s)) = disk s.
Proof.
  unfold Deploy.finish. cbn [negb andb].
  case_bool_decide as Hout; cbn [negb]; [| done].
  destruct desired as [text|]; [| done].
  destruct (JsString.truthy text); [| done].
  cbn [final]. by rewrite disk_log.
Qed.

(** X16. Without [overwrite], a run with [confirm] set never changes
    a file that has content: whatever the call is given and however
    it ends, the disk is what it was. *)
Theorem confirm_mode_keeps_a_nonempty_target
    (answers : list answer) (filePath : string) (a : args) (s : state)
    (c0 : string) :
  opt_overwrite o = false → opt_confirm o = true →
  readFile (disk s) (NodePath.join cwd filePath) = Ok c0 →
  JsString.truthy c0 = true →
  disk (final (cwf answers filePath a s).1) = disk s.
Proof.
  intros Hov Hcf Hr Ht0.
  assert (prompts o = false) as Hpr by (unfold prompts; by rewrite Hcf).
  rewrite deploy_confirmWriteFile_eq. cbv zeta.
  destruct (load a s) as [[e|template] s1] eqn:Hload;
    apply loadTemplate_state in Hload as [Hd1 _]; [done |].
  destruct (_ && _); [done |]. unfold read. rewrite Hd1, Hr, Hov.
  destruct (negb _ && bool_decide _); [done |].
  cbn [JsString.truthy_opt]. rewrite Ht0, Hpr. cbn [andb negb fst].
  by rewrite finish_false_disk, disk_log.
Qed.


End Reconciler.

(** [a.txt] exists and differs, but the run has [confirm] set. *)
Lemma deploy_prompt_needs_an_interactive_run_witness :
  (Scenario.deploy MoreScenario.confirming [Yes] "a.txt"
     (MoreScenario.literal "new") Scenario.deploy_fresh).2
  = [Yes].
Proof.
  refine (proj1 (deploy_prompt_needs_an_interactive_run
                   "/tmp/proj" "/dna" Scenario.no_yaml_load
                   Scenario.no_yaml_dump Scenario.no_length MoreScenario.confirming
                   [Yes] "a.txt" (MoreScenario.literal "new")
                   Scenario.deploy_fresh _)).
  right. left. reflexivity.
Defined.

(** Overwriting [a.txt] leaves the template where it is. *)
Lemma deploy_touches_only_its_target_witness :
  nodes (disk (final (Scenario.deploy Scenario.prompting [Yes] "a.txt"
                        (MoreScenario.literal "new")
                        Scenario.deploy_fresh).1))
    !! ["dna"; "defaults"; "Dockerfile"]
  = Some (File "FROM node").
Proof.
  unfold Scenario.deploy.
  rewrite (deploy_touches_only_its_target
             "/tmp/proj" "/dna" Scenario.no_yaml_load
             Scenario.no_yaml_dump Scenario.no_length Scenario.prompting
             [Yes] "a.txt" (MoreScenario.literal "new")
             Scenario.deploy_fresh ["dna"; "defaults"; "Dockerfile"]).
  - reflexivity.
  - vm_compute. discriminate.
Defined.

(** The empty [.env] is filled in although [confirm] is set. *)
Lemma missing_or_empty_target_is_written_unasked_witness :
  ∃ s', Scenario.deploy MoreScenario.confirming [] ".env"
          (MoreScenario.literal "PORT=1") MoreScenario.env_fresh
        = (Return JTrue s', [])
        ∧ readFile (disk s') "/tmp/proj/.env" = Ok "PORT=1".
Proof.
  edestruct (missing_or_empty_target_is_written_unasked
               "/tmp/proj" "/dna" Scenario.no_yaml_load
               Scenario.no_yaml_dump Scenario.no_length MoreScenario.confirming
               [] ".env" (MoreScenario.literal "PORT=1")
               MoreScenario.env_fresh "PORT=1")
    as (s' & Hrun & Hd & _).
  - reflexivity.
  - reflexivity.
  - reflexivity.
  - discriminate.
  - intros c0 H. vm_compute in H. congruence.
  - vm_compute. reflexivity.
  - exists s'. split; [exact Hrun |]. rewrite Hd. reflexivity.
Defined.


(** [a.txt] holds [old] and the run has [confirm] set. *)
Lemma confirm_mode_keeps_a_nonempty_target_witness :
  disk (final (Scenario.deploy MoreScenario.confirming [] "a.txt"
                 (MoreScenario.literal "new") Scenario.deploy_fresh).1)
  = Scenario.deploy_disk.
Proof.
  apply (confirm_mode_keeps_a_nonempty_target
           "/tmp/proj" "/dna" Scenario.no_yaml_load
           Scenario.no_yaml_dump Scenario.no_length MoreScenario.confirming
           [] "a.txt" (MoreScenario.literal "new")
           Scenario.deploy_fresh "old");
    vm_compute; reflexivity.
Defined.


End DeployMore.

(* ===================================================================== *)
(** ** What [merge] leaves alone *)
(* ===================================================================== *)

Module MergeMore.
Import Lodash Props MoreProps MergeFacts.

Section Merge.

Variable toLength : value → Js.error + nat.

Local Abbreviation mergeDeep := (mergeDeep toLength).
Local Abbreviation mergeFields := (mergeFields toLength).

Lemma get_mergeFields_absent k base fields r :
  get k fields = None →
  mergeFields base fields = inr r →
  get k r = get k base.
Proof.
  revert base. induction fields as [|[k0 v0] rest IH]; intros base Hk Hr.
  - by injection Hr as <-.
  - cbn [get] in Hk. destruct (String.eqb k0 k) eqn:E; [done |].
    cbn [Lodash.mergeFields] in Hr.
    destruct (skipped k0 v0 base); [by apply IH |].
    destruct (mergeDeep (get k0 base) v0) as [e|m]; [done |].
    rewrite (IH _ Hk Hr). by rewrite get_assign, E.
Qed.

Lemma get_path_Obj k rest obj x :
  get_path (k :: rest) obj = Some x →
  ∃ fields y, obj = Obj fields ∧ get k fields = Some y
              ∧ get_path rest y = Some x.
Proof.
  destruct obj as [| | | | |items|fields]; try done. simpl.
  destruct (get k fields) as [y|] eqn:E; [| done]. eauto.
Qed.

Lemma get_path_kept path src obj x m :
  distinct_keys src = true →
  leaves path src = true →
  get_path path obj = Some x →
  mergeDeep (Some obj) src = inr m →
  get_path path m = Some x.
Proof.
  revert src obj m.
  induction path as [|k rest IH]; intros src obj m Hd Hl Hget Hm.
  - destruct src; try done. by injection Hm as <-.
  - destruct src as [| | | | |items|fields]; try done;
      [by injection Hm as <- |].
    apply get_path_Obj in Hget as (ofields & y & -> & Hy & Hrest).
    destruct (distinct_keys_Obj _ Hd) as [Hnd Hsub].
    rewrite mergeDeep_Obj in Hm by done.
    destruct (mergeFields ofields fields) as [e|r] eqn:Hr; [done |].
    injection Hm as <-. cbn [get_path leaves] in *.
    pose proof (get_mergeFields toLength k _ _ _ Hnd Hr) as Hg.
    destruct (get k fields) as [v|] eqn:Hk; [| by rewrite Hg, Hy].
    destruct (skipped k v ofields); [by rewrite Hg, Hy |].
    destruct Hg as (m' & Hm' & ->). rewrite Hy in Hm'.
    eapply IH; [by eapply Hsub | done ..].
Qed.

Lemma keys_mergeFields base fields r :
  mergeFields base fields = inr r →
  (∀ k, k ∈ keys base → k ∈ keys r)
  ∧ (∀ k, k ∈ keys r → k ∈ keys base ∨ k ∈ keys fields)
  ∧ (∀ k v, (k, v) ∈ fields → skipped k v base = false → k ∈ keys r)
  ∧ (NoDup (keys base) → NoDup (keys r)).
Proof.
  revert base. induction fields as [|[k0 v0] rest IH]; intros base Hr.
  - injection Hr as <-. repeat split; try done; [by left |].
    by intros k v ?%not_elem_of_nil.
  - cbn [Lodash.mergeFields] in Hr. unfold keys in *. cbn [map fst].
    destruct (skipped k0 v0 base) eqn:Hskip.
    + destruct (IH _ Hr) as (H1 & H2 & H3 & H4).
      repeat split; try done.
      * intros k Hk. destruct (H2 k Hk); [by left | right; by right].
      * intros k v [[= -> ->]|Hin]%elem_of_cons Hs; [congruence |].
        by eapply H3.
    + destruct (mergeDeep (get k0 base) v0) as [e|m]; [done |].
      destruct (IH _ Hr) as (H1 & H2 & H3 & H4).
      destruct (assign_keys k0 m base) as [Hin Hnd].
      repeat split.
      * intros k Hk. apply H1, Hin. by right.
      * intros k Hk. destruct (H2 k Hk) as [[->|?]%Hin|?];
          [right; by left | by left | right; by right].
      * intros k v Hkv Hs.
        destruct (decide (k0 = k)) as [->|Hne]; [apply H1, Hin; by left |].
        apply elem_of_cons in Hkv as [[= -> ->]|Hkv]; [done |].
        eapply H3; [done |]. by rewrite skipped_assign.
      * intros Hb. by apply H4, Hnd.
Qed.

End Merge.

(** X18. [merge] leaves alone what the overlay does not name: where
    the walk down the overlay along a path ends at a missing or
    [undefined] field, the merged document holds at that path what
    the template held, whenever the merge returns - and it returns
    when no field is named [length].  In particular an [undefined]
    property never erases a template value. *)
Theorem merge_keeps_what_the_overlay_leaves
    (toLength : value → Js.error + nat)
    (path : list string) (src obj x : value) :
  distinct_keys src = true →
  leaves path src = true →
  get_path path obj = Some x →
  (∀ m, mergeDeep toLength (Some obj) src = inr m → get_path path m = Some x)
  ∧ (lengthless obj = true → lengthless src = true →
     ∃ m, mergeDeep toLength (Some obj) src = inr m
          ∧ get_path path m = Some x).
Proof.
  intros Hd Hl Hget. split.
  - intros m. by apply get_path_kept.
  - intros Ho Hs.
    destruct (mergeDeep_returns toLength src (Some obj) Hs) as (m & Hm & _);
      [by intros ? [= <-] |].
    exists m. split; [done |]. by eapply get_path_kept.
Qed.

(** The template keeps its [kind] and its [metadata.name] under
    properties whose name is [undefined]. *)
Lemma merge_keeps_what_the_overlay_leaves_witness :
  ∃ m, merge Scenario.no_length MoreScenario.deployment_template
         MoreScenario.nameless_properties = inr m
       ∧ get_path ["metadata"; "name"] m = Some (Str "app").
Proof.
  apply (merge_keeps_what_the_overlay_leaves Scenario.no_length
           ["metadata"; "name"]
           (Obj MoreScenario.nameless_properties)
           MoreScenario.deployment_template (Str "app"));
    reflexivity.
Defined.

(** X19. [merge] only adds.  Every field of the template is in the
    merged object, every field of the merged object comes from the
    template or from the overlay, and an overlay field is in it
    unless the merge skips the field ([skipped]: an object or array
    named [__proto__], or [undefined] under a name every object
    inherits); distinct names stay distinct, a field the overlay
    does not have keeps its template value, and a merged array is as
    long as the longer of the two. *)
Theorem merge_only_adds
    (toLength : value → Js.error + nat)
    (template overlay : list (string * value)) (merged : value) :
  merge toLength (Obj template) overlay = inr merged →
  ∃ fields,
    merged = Obj fields
    ∧ (∀ k, k ∈ keys template → k ∈ keys fields)
    ∧ (∀ k, k ∈ keys fields → k ∈ keys template ∨ k ∈ keys overlay)
    ∧ (∀ k v, (k, v) ∈ overlay → skipped k v template = false →
              k ∈ keys fields)
    ∧ (NoDup (keys template) → NoDup (keys fields))
    ∧ (∀ k, get k overlay = None → get k fields = get k template)
    ∧ ∀ base items m,
        mergeDeep toLength (Some (Arr base)) (Arr items) = inr m →
        ∃ r, m = Arr r
             ∧ List.length r
               = (List.length base `max` List.length items)%nat.
Proof.
  unfold merge. rewrite mergeDeep_Obj by done.
  destruct (mergeFields toLength template overlay) as [e|r] eqn:Hr; [done |].
  intros [= <-]. exists r. split; [done |].
  destruct (keys_mergeFields _ _ _ _ Hr) as (H1 & H2 & H3 & H4).
  repeat split; try done.
  - intros k Hk. by eapply get_mergeFields_absent.
  - intros base items m. rewrite mergeDeep_Arr. cbn [array_base].
    destruct (mergeItems toLength base items) as [e|r'] eqn:Hr'; [done |].
    intros [= <-]. exists r'. split; [done |].
    by destruct (mergeItems_spec _ _ _ _ Hr').
Qed.

(** An overlay with an own [__proto__] field: the template gains
    [replicas], and its names stay distinct. *)
Lemma merge_only_adds_witness :
  "replicas" ∈ keys [("kind", Str "Deployment");
                     ("metadata", Obj [("name", Str "app");
                                       ("namespace", Str "default")]);
                     ("replicas", Num 2)]
  ∧ NoDup (keys [("kind", Str "Deployment");
                 ("metadata", Obj [("name", Str "app");
                                   ("namespace", Str "default")]);
                 ("replicas", Num 2)]).
Proof.
  destruct (merge_only_adds Scenario.no_length
              [("kind", Str "Deployment");
               ("metadata", Obj [("name", Str "app");
                                 ("namespace", Str "default")])]
              MoreScenario.polluting_properties
              (Obj [("kind", Str "Deployment");
                    ("metadata", Obj [("name", Str "app");
                                      ("namespace", Str "default")]);
                    ("replicas", Num 2)])
              eq_refl)
    as (fields & Hf & _ & _ & Hin & Hnd & _).
  injection Hf as <-. split.
  - apply (Hin "replicas" (Num 2)); [| reflexivity].
    unfold MoreScenario.polluting_properties. set_solver.
  - apply Hnd. unfold keys. cbn [map fst]. apply NoDup_cons.
    split; [set_solver |]. apply NoDup_singleton.
Defined.

End MergeMore.

(* ===================================================================== *)
(** ** More on the earlier reconciler *)
(* ===================================================================== *)

Module Deploy2More.
Import Fs Js Deploy2 Props FsFacts Deploy2Facts PolicyFacts.

Section Reconciler.

Variables cwd dirname : string.
Variable o : Deploy.opts.

Lemma prompts_shown_log2 msg s :
  prompts_shown (Deploy.trace (log o msg s))
  = prompts_shown (Deploy.trace s).
Proof.
  unfold log. destruct (silence o); [done |]. cbn [Deploy.trace Deploy.emit].
  rewrite prompts_shown_snoc. simpl. lia.
Qed.

Lemma trace_write_unawaited p data s :
  Deploy.trace (write_unawaited p data s) = Deploy.trace s.
Proof. unfold write_unawaited. by destruct (writeFile _ _ _). Qed.

Lemma trace_copy_unawaited src dest s :
  Deploy.trace (copy_unawaited src dest s) = Deploy.trace s.
Proof.
  unfold copy_unawaited. destruct (readFile _ _); [| done].
  apply trace_write_unawaited.
Qed.

Lemma prompts_shown_finish2 doWrite a s :
  prompts_shown (Deploy.trace (final (finish cwd dirname o doWrite a s)))
  = prompts_shown (Deploy.trace s).
Proof.
  unfold finish. destruct (negb doWrite); [done |].
  destruct (_ || _); [| done]. cbn [final]. rewrite prompts_shown_log2.
  destruct (JsString.truthy_opt (content a)).
  - destruct (content a); [by rewrite trace_write_unawaited | done].
  - destruct (JsString.truthy_opt (copySource a)); [| done].
    destruct (copySource a); [by rewrite trace_copy_unawaited | done].
Qed.

(** X20. In this reconciler the prompt needs [confirm] to be set:
    with [overwrite], without [confirm], with [noPrompts], or for a
    target that is not there, a call shows no prompt and consumes
    no answer. *)
Theorem deploy2_prompt_needs_confirm
    (answers : list answer) (a : args) (s : Deploy.state) :
  Deploy.opt_overwrite o = true ∨ Deploy.opt_confirm o = false
  ∨ noPrompts a = true ∨ stat (cwd +:+ "/" +:+ path a) s = false →
  (confirmWriteFile cwd dirname o answers a s).2 = answers
  ∧ prompts_shown
      (Deploy.trace (final (confirmWriteFile cwd dirname o answers a s).1))
    = prompts_shown (Deploy.trace s).
Proof.
  intros Hpol. rewrite deploy2_confirmWriteFile_eq. cbv zeta.
  assert (∀ b s', prompts_shown (Deploy.trace s')
                  = prompts_shown (Deploy.trace s) →
            (finish cwd dirname o b a s', answers).2 = answers
            ∧ prompts_shown
                (Deploy.trace (final (finish cwd dirname o b a s',
                                      answers).1))
              = prompts_shown (Deploy.trace s)) as Hfin.
  { intros b s' Hs'. split; [done |]. cbn [fst].
    by rewrite prompts_shown_finish2. }
  destruct (Deploy.opt_overwrite o) eqn:Hov; [by apply Hfin |].
  assert (stat (cwd +:+ "/" +:+ path a) s && prompts o && negb (noPrompts a)
          = false) as ->.
  { unfold prompts.
    destruct Hpol as [? | [-> | [-> | ->]]]; [done | | |]; cbn;
      by rewrite ?andb_false_r. }
  destruct (_ && negb (prompts o)).
  - apply Hfin. apply prompts_shown_log2.
  - destruct (negb _); by apply Hfin.
Qed.

(** X21. The write is started, not awaited, so its failure cannot
    reach the [catch]: when the write fails, the call still logs
    the success line and resolves to [true], with the disk as it
    was. *)
Theorem deploy2_failed_write_is_reported_as_success
    (answers : list answer) (a : args) (s : Deploy.state)
    (c : string) (e : errno) :
  Deploy.opt_overwrite o = true →
  content a = Some c → JsString.truthy c = true →
  writeFile (Deploy.disk s) (cwd +:+ "/" +:+ path a) c = Err e →
  confirmWriteFile cwd dirname o answers a s
  = (Return JTrue
       (log o ("Successfully wrote " +:+ quoted (path a)) s), answers).
Proof.
  intros Hov Hc Ht Hw. rewrite deploy2_confirmWriteFile_eq. cbv zeta.
  rewrite Hov. unfold finish. cbn [negb]. rewrite Hc.
  cbn [JsString.truthy_opt]. rewrite Ht. cbn [orb].
  unfold write_unawaited. by rewrite Hw.
Qed.

End Reconciler.

(** [a.txt] exists, but the run was started without [confirm]. *)
Lemma deploy2_prompt_needs_confirm_witness :
  (confirmWriteFile "/tmp/proj" "/dna" Scenario.prompting [Yes]
     (Args "a.txt" (Some "new") None false) Scenario.deploy_fresh).2
  = [Yes].
Proof.
  refine (proj1 (deploy2_prompt_needs_confirm "/tmp/proj" "/dna"
                   Scenario.prompting [Yes]
                   (Args "a.txt" (Some "new") None false)
                   Scenario.deploy_fresh _)).
  right. left. reflexivity.
Defined.

(** The directory [inf] is not there, so the write fails. *)
Lemma deploy2_failed_write_is_reported_as_success_witness :
  confirmWriteFile "/tmp/proj" "/dna" Scenario.overwriting []
    (Args "inf/app.yaml" (Some "kind: Deployment") None false)
    Scenario.deploy_fresh
  = (Return JTrue
       (Deploy.emit (EvLog ("Successfully wrote " +:+ quoted "inf/app.yaml"))
          Scenario.deploy_fresh), []).
Proof.
  apply (deploy2_failed_write_is_reported_as_success "/tmp/proj" "/dna"
           Scenario.overwriting []
           (Args "inf/app.yaml" (Some "kind: Deployment") None false)
           Scenario.deploy_fresh "kind: Deployment" ENOENT);
    reflexivity.
Defined.

End Deploy2More.

(* ===================================================================== *)
(** ** The [--label] option *)
(* ===================================================================== *)

Module CliFacts.
Import Js Cli Props MoreProps PathFacts.

Lemma filter_array_truthy {A} (l : list (list A)) :
  List.filter array_truthy l = l.
Proof. induction l as [|x r IH]; [done |]. simpl. by rewrite IH. Qed.

Lemma parseLabels_eq s :
  parseLabels s
  = map (λ k, List.filter JsString.truthy (JsString.split "=" k))
        (JsString.split "," s).
Proof. apply filter_array_truthy. Qed.

Lemma given_or_empty s : (if JsString.truthy s then s else "") = s.
Proof. by destruct s. Qed.

Lemma length_split c s :
  List.length (JsString.split c s) = S (count_char c s).
Proof.
  induction s as [|x r IH]; [done |]. cbn [JsString.split count_char].
  destruct (Ascii.eqb x c); cbn [List.length Nat.add]; [by rewrite IH |].
  destruct (JsString.split c r) as [|h t]; [done |]. exact IH.
Qed.

Lemma filter_truthy_no_empty l :
  "" ∉ List.filter JsString.truthy l.
Proof.
  rewrite list_elem_of_In, filter_In. by intros [_ ?].
Qed.

(** X22. The labels have one entry per comma-separated item, also for
    an item that is empty or has no [=]: the outer [filter(Boolean)]
    removes nothing, because an empty array is truthy.  No entry
    holds an empty string; without [--label] the result is one empty
    entry, and the bare flag is a [TypeError]. *)
Theorem labels_has_one_entry_per_item (s : string) :
  List.length (parseLabels s) = S (count_char "," s)
  ∧ Forall (λ e, "" ∉ e) (parseLabels s)
  ∧ labels (Given s) = inr (parseLabels s)
  ∧ labels Missing = inr [[]]
  ∧ labels Bare = inl (Error "TypeError").
Proof.
  split; [| split; [| split; [| done]]].
  - by rewrite parseLabels_eq, length_map, length_split.
  - rewrite parseLabels_eq. apply Forall_forall. intros e He.
    apply list_elem_of_fmap in He as (k & -> & _).
    apply filter_truthy_no_empty.
  - cbn [labels]. by rewrite given_or_empty.
Qed.

Lemma split_join_char c xs :
  Forall (λ x, has_char c x = false) xs → xs ≠ [] →
  JsString.split c (JsString.join (String c "") xs) = xs.
Proof.
  induction 1 as [|x r Hx Hr IH]; [done |]. intros _.
  destruct r as [|y r].
  - simpl. by apply split_no_sep.
  - change (JsString.join (String c "") (x :: y :: r))
      with (x +:+ String c (JsString.join (String c "") (y :: r))).
    rewrite split_app_sep by done. by rewrite IH.
Qed.

Lemma has_char_app c a b :
  has_char c (a +:+ b) = has_char c a || has_char c b.
Proof.
  induction a as [|x r IH]; [done |].
  change (String x r +:+ b) with (String x (r +:+ b)).
  cbn [has_char]. by rewrite IH, orb_assoc.
Qed.

Lemma label_word_spec x :
  label_word x = true →
  JsString.truthy x = true ∧ has_char "," x = false ∧ has_char "=" x = false.
Proof.
  unfold label_word. intros [[? ?%negb_true_iff]%andb_prop ?%negb_true_iff]%andb_prop.
  done.
Qed.

(** X23. Labels written as the help text shows them come back as
    their pairs: for keys and values that are not empty and hold
    neither [,] nor [=], [k1=v1,k2=v2,...] is parsed into
    [[k1, v1], [k2, v2], ...]. *)
Theorem labels_round_trip (l : list (string * string)) :
  l ≠ [] →
  Forall (λ kv, label_word kv.1 = true ∧ label_word kv.2 = true) l →
  labels (Given (render_labels l)) = inr (map (λ kv, [kv.1; kv.2]) l).
Proof.
  intros Hne Hl. cbn [labels]. rewrite given_or_empty, parseLabels_eq.
  f_equal. unfold render_labels.
  rewrite (split_join_char ","%char).
  - rewrite map_map. apply map_ext_Forall.
    eapply Forall_impl; [exact Hl |]. intros [k v] [Hk Hv]. cbn [fst snd] in *.
    apply label_word_spec in Hk as (Hk1 & _ & Hk3).
    apply label_word_spec in Hv as (Hv1 & _ & Hv3).
    change (k +:+ "=" +:+ v) with (k +:+ String "=" v).
    rewrite split_app_sep, split_no_sep by done.
    cbn [List.filter]. by rewrite Hk1, Hv1.
  - apply Forall_map. eapply Forall_impl; [exact Hl |].
    intros [k v] [Hk Hv]. cbn [fst snd] in *.
    apply label_word_spec in Hk as (_ & Hk2 & _).
    apply label_word_spec in Hv as (_ & Hv2 & _).
    rewrite !has_char_app, Hk2, Hv2. reflexivity.
  - by destruct l.
Qed.

(** The example of the help text. *)
Lemma labels_round_trip_witness :
  labels (Given "foo=bar,tier=service")
  = inr [["foo"; "bar"]; ["tier"; "service"]].
Proof.
  apply (labels_round_trip [("foo", "bar"); ("tier", "service")]).
  - discriminate.
  - repeat constructor.
Defined.

End CliFacts.

(* ===================================================================== *)
(** ** The reconciler before and after the ledgers *)
(* ===================================================================== *)

Module UtilOldFacts.
Import Fs Js Props MoreProps RollbackFacts.

(** The body of the older [confirmWriteFile], one call deep. *)
Lemma old_confirmWriteFile_eq cwd answers filePath content o s :
  UtilOld.confirmWriteFile cwd answers filePath content o s =
  let fullPath := NodePath.join cwd filePath in
  let exists_ := Fs.existsSync (UtilOld.disk s) fullPath in
  if negb (UtilOld.update o) && exists_ then (Return JFalse s, answers)
  else if exists_ && UtilOld.update o && negb (UtilOld.force o) then
    match Fs.readFile (UtilOld.disk s) fullPath with
    | Fs.Err e => (Throw (IoError e) s, answers)
    | Fs.Ok existingData =>
        if String.eqb content existingData then (Return JFalse s, answers)
        else
          let s1 := UtilOld.emit (EvPrompt (promptText filePath)) s in
          match answers with
          | [] => (Pending s1, [])
          | Yes :: rest =>
              (UtilOld.write_tail true filePath fullPath content s1, rest)
          | No :: rest =>
              (UtilOld.write_tail (negb exists_) filePath fullPath content s1,
               rest)
          | ShowDiff :: rest =>
              match UtilOld.confirmWriteFile cwd rest filePath content o
                      (UtilOld.tryDiff content existingData s1) with
              | (Return _ s3, rest') =>
                  (UtilOld.write_tail (negb exists_) filePath fullPath
                     content s3, rest')
              | other => other
              end
          end
    end
  else if UtilOld.force o then
    (UtilOld.write_tail true filePath fullPath content s, answers)
  else (UtilOld.write_tail (negb exists_) filePath fullPath content s, answers).
Proof. destruct answers; reflexivity. Qed.

Lemma write_tail_forget b filePath fullPath content o s :
  Util.dontPrune o = true → Util.debugOn s = true →
  UtilOld.write_tail b filePath fullPath content (forget s)
  = forget_outcome (Util.write_tail b filePath fullPath content o s)
  ∧ same_ledger s (final (Util.write_tail b filePath fullPath content o s)).
Proof.
  intros Hdp Hdbg. unfold UtilOld.write_tail, Util.write_tail.
  destruct b; [| done]. rewrite Hdp. cbn [negb andb].
  change (UtilOld.disk (forget s)) with (Util.disk s).
  destruct (writeFile (Util.disk s) fullPath content) as [d'|e]; cbn [final].
  - unfold Util.debug. cbn [Util.debugOn Util.set_disk]. rewrite Hdbg. done.
  - done.
Qed.

Lemma confirmWriteFile_forget answers filePath content o s :
  Util.dontPrune o = true → Util.debugOn s = true →
  UtilOld.confirmWriteFile (Util.directory o) answers filePath content
    (UtilOld.Options (Util.update o) (Util.force o)) (forget s)
  = (forget_outcome (Util.confirmWriteFile answers filePath content o s).1,
     (Util.confirmWriteFile answers filePath content o s).2)
  ∧ same_ledger s (final (Util.confirmWriteFile answers filePath content o s).1).
Proof.
  intros Hdp. revert s. induction answers as [|a rest IH]; intros s Hdbg;
    rewrite old_confirmWriteFile_eq, util_confirmWriteFile_eq; cbv zeta;
    cbn [UtilOld.update UtilOld.force];
    change (UtilOld.disk (forget s)) with (Util.disk s);
    (destruct (negb (Util.update o) && _); [done |]);
    (destruct (_ && Util.update o && negb (Util.force o));
     [| destruct (Util.force o); cbn [fst snd];
        [destruct (write_tail_forget true filePath
                     (NodePath.join (Util.directory o) filePath) content o s
                     Hdp Hdbg) as [-> ?]
        | destruct (write_tail_forget
                      (negb (existsSync (Util.disk s)
                               (NodePath.join (Util.directory o) filePath)))
                      filePath (NodePath.join (Util.directory o) filePath)
                      content o s Hdp Hdbg) as [-> ?]]; done]);
    (destruct (readFile _ _) as [existingData|e]; [| done]);
    (destruct (String.eqb content existingData); [done |]).
  - done.
  - set (s1 := Util.emit (EvPrompt (promptText filePath)) s).
    assert (Util.debugOn s1 = true) as Hdbg1 by done.
    change (UtilOld.emit (EvPrompt (promptText filePath)) (forget s))
      with (forget s1).
    destruct a; cbn [fst snd].
    + destruct (write_tail_forget true filePath
                  (NodePath.join (Util.directory o) filePath) content o s1
                  Hdp Hdbg1) as [-> ?]. done.
    + destruct (write_tail_forget
                  (negb (existsSync (Util.disk s)
                           (NodePath.join (Util.directory o) filePath)))
                  filePath (NodePath.join (Util.directory o) filePath)
                  content o s1 Hdp Hdbg1) as [-> ?]. done.
    + set (s2 := Util.tryDiff content existingData s1).
      change (UtilOld.tryDiff content existingData (forget s1))
        with (forget s2).
      assert (Util.debugOn s2 = true) as Hdbg2 by exact Hdbg.
      destruct (IH s2 Hdbg2) as [-> Hled].
      destruct (Util.confirmWriteFile rest filePath content o s2)
        as [[v s3|e s3|s3|s3] rest']; cbn [fst snd forget_outcome final] in *;
        try done.
      destruct Hled as (Hdbg3 & Hf3 & Hd3).
      destruct (write_tail_forget
                  (negb (existsSync (Util.disk s)
                           (NodePath.join (Util.directory o) filePath)))
                  filePath (NodePath.join (Util.directory o) filePath)
                  content o s3 Hdp Hdbg3) as [-> (? & Hf & Hd)].
      split; [done |]. split; [done |].
      split; [by rewrite Hf, Hf3 | by rewrite Hd, Hd3].
Qed.

(** X24. The ledgers are an addition, not a change: with pruning
    switched off, [DNA_DEBUG] set and the project directory where the
    older version takes the working directory, the reconciler with
    ledgers does exactly what the older one does - same outcome, same
    answers left, same disk, same output - and leaves both ledgers
    as they were. *)
Theorem ledgered_reconciler_extends_the_older_one
    (answers : list answer) (filePath content : string) (o : Util.options)
    (s : Util.state) :
  Util.dontPrune o = true → Util.debugOn s = true →
  UtilOld.confirmWriteFile (Util.directory o) answers filePath content
    (UtilOld.Options (Util.update o) (Util.force o)) (forget s)
  = (forget_outcome (Util.confirmWriteFile answers filePath content o s).1,
     (Util.confirmWriteFile answers filePath content o s).2)
  ∧ Util.filesWritten
      (final (Util.confirmWriteFile answers filePath content o s).1)
    = Util.filesWritten s
  ∧ Util.dirsWritten
      (final (Util.confirmWriteFile answers filePath content o s).1)
    = Util.dirsWritten s.
Proof.
  intros Hdp Hdbg.
  destruct (confirmWriteFile_forget answers filePath content o s Hdp Hdbg)
    as [Heq (_ & Hf & Hd)].
  done.
Qed.

(** The user looks at the diff of [a.txt], then accepts. *)
Lemma ledgered_reconciler_extends_the_older_one_witness :
  UtilOld.confirmWriteFile "/tmp/proj" [ShowDiff; Yes] "a.txt" "new"
    (UtilOld.Options true false)
    (UtilOld.State Scenario.project_disk [])
  = (forget_outcome
       (Util.confirmWriteFile [ShowDiff; Yes] "a.txt" "new"
          MoreScenario.interactiveUnledgered
          (MoreScenario.debugging Scenario.project_disk)).1,
     []).
Proof.
  refine (proj1 (ledgered_reconciler_extends_the_older_one
                   [ShowDiff; Yes] "a.txt" "new"
                   MoreScenario.interactiveUnledgered
                   (MoreScenario.debugging Scenario.project_disk) _ _));
    reflexivity.
Defined.

End UtilOldFacts.

(* ===================================================================== *)
(** ** [buildKustomize] *)
(* ===================================================================== *)

Module KustomizeFacts.
Import Fs Js Kustomize Props MoreProps FsFacts.

Lemma statFile_exists d p :
  existsSync d p = true → ∃ n, statFile d p = Ok n.
Proof.
  intros [n Hn]%existsSync_true. exists n. unfold statFile. by rewrite Hn.
Qed.

Lemma statFile_missing d p :
  existsSync d p = false → statFile d p = Err ENOENT.
Proof.
  intros Hn%existsSync_false. unfold statFile. by rewrite Hn.
Qed.

(** X25. [buildKustomize] adds one base per meta-module, in order,
    when every module ships a [kustomization.yaml]; at the first
    module that does not, [statFile] rejects and the call throws
    [ENOENT].  The branch with the warning is never taken: nothing is
    printed either way. *)
Theorem buildKustomize_adds_every_base_or_throws
    (warn : string → Deploy.state → outcome Deploy.state unit)
    (names bases resources : list string) (s : Deploy.state) :
  (Forall (λ n, existsSync (Deploy.disk s) (kustomization n) = true) names →
   buildKustomize warn names bases resources s
   = Return ((bases ++ map base_of names)%list, resources) s)
  ∧ (∀ pre n post,
        names = (pre ++ n :: post)%list →
        Forall (λ n, existsSync (Deploy.disk s) (kustomization n) = true) pre →
        existsSync (Deploy.disk s) (kustomization n) = false →
        buildKustomize warn names bases resources s
        = Throw (IoError ENOENT) s).
Proof.
  split.
  - intros Hall. revert bases.
    induction Hall as [|n rest Hn Hrest IH]; intros bases.
    + cbn [buildKustomize map]. by rewrite app_nil_r.
    + cbn [buildKustomize]. fold (kustomization n).
      destruct (statFile_exists _ _ Hn) as [st ->]. cbn [stats_truthy].
      rewrite IH. fold (base_of n). cbn [map]. by rewrite <- app_assoc.
  - intros pre n post -> Hpre Hn. revert bases.
    induction Hpre as [|m rest Hm Hrest IH]; intros bases.
    + cbn [app buildKustomize]. fold (kustomization n).
      by rewrite statFile_missing.
    + cbn [app buildKustomize]. fold (kustomization m).
      destruct (statFile_exists _ _ Hm) as [st ->]. cbn [stats_truthy].
      apply IH.
Qed.

(** [redis] alone, and [redis] followed by [mongo]. *)
Lemma buildKustomize_adds_every_base_or_throws_witness :
  buildKustomize MoreScenario.print_warning ["redis"] [] []
    MoreScenario.modules_fresh
  = Return (["../node_modules/redis"], []) MoreScenario.modules_fresh
  ∧ buildKustomize MoreScenario.print_warning ["redis"; "mongo"] [] []
      MoreScenario.modules_fresh
    = Throw (IoError ENOENT) MoreScenario.modules_fresh.
Proof.
  split.
  - apply (proj1 (buildKustomize_adds_every_base_or_throws
                    MoreScenario.print_warning ["redis"] [] []
                    MoreScenario.modules_fresh)).
    repeat constructor.
  - apply (proj2 (buildKustomize_adds_every_base_or_throws
                    MoreScenario.print_warning ["redis"; "mongo"] [] []
                    MoreScenario.modules_fresh) ["redis"] "mongo" []).
    + reflexivity.
    + repeat constructor.
    + reflexivity.
Defined.

End KustomizeFacts.

(* ===================================================================== *)
(** ** Selectors of the built manifests *)
(* ===================================================================== *)

Module ManifestFacts.
Import Lodash Manifests Props MoreProps.

Lemma append_grows (s : string) (c : ascii) (t : string) :
  s +:+ String c t ≠ s.
Proof.
  induction s as [|x r IH]; [done |].
  change (String x r +:+ String c t) with (String x (r +:+ String c t)).
  intros [= H]. by apply IH.
Qed.

Section Builders.

Variable toLowerCase : string → string.
Variable parseInt10 : string → value.
Variable stringify : value → string.

Local Abbreviation appDeployment :=
  (buildAppDeployment toLowerCase parseInt10).
Local Abbreviation uiDeployment := (buildUiDeployment toLowerCase).
Local Abbreviation appService := (buildAppService toLowerCase stringify).
Local Abbreviation uiService := (buildUiService toLowerCase stringify).

(** X26. The manifests fit together.  Each deployment's selector
    matches the labels of its own pod template; the service built
    for the application selects the application's pods and not the
    UI's, the service built for the UI selects the UI's pods and
    not the application's; and each service is named after its
    deployment, with [-http] appended. *)
Theorem services_select_their_deployments
    (pkg_name env : string) (t : tags) (a : answers)
    (namespace : string) (exposeExternally : bool) :
  let appD := appDeployment pkg_name env t a in
  let uiD := uiDeployment pkg_name env t a in
  let appS := appService pkg_name env t a namespace exposeExternally in
  let uiS := uiService pkg_name env t a namespace in
  selects (deployment_selector appD) (pod_labels appD)
  ∧ selects (deployment_selector uiD) (pod_labels uiD)
  ∧ selects (service_selector appS) (pod_labels appD)
  ∧ selects (service_selector uiS) (pod_labels uiD)
  ∧ ¬ selects (service_selector appS) (pod_labels uiD)
  ∧ ¬ selects (service_selector uiS) (pod_labels appD)
  ∧ (∀ n, get_path ["metadata"; "name"] appD = Some (Str n) →
          get_path ["metadata"; "name"] appS = Some (Str (n +:+ "-http")))
  ∧ (∀ n, get_path ["metadata"; "name"] uiD = Some (Str n) →
          get_path ["metadata"; "name"] uiS = Some (Str (n +:+ "-http"))).
Proof.
  intros appD uiD appS uiS.
  assert (∀ x y z : string, (x +:+ y) +:+ z = x +:+ y +:+ z) as Hassoc.
  { intros x y z. induction x as [|c x IH]; [done |].
    change (String c ((x +:+ y) +:+ z) = String c (x +:+ y +:+ z)).
    by rewrite IH. }
  repeat split.
  - repeat constructor.
  - repeat constructor.
  - repeat constructor.
  - repeat constructor.
  - intros H. apply Forall_cons_1 in H as [_ H].
    apply Forall_cons_1 in H as [H _]. cbn in H.
    injection H as H. by apply append_grows in H.
  - intros H. apply Forall_cons_1 in H as [_ H].
    apply Forall_cons_1 in H as [H _]. cbn in H.
    injection H as H. symmetry in H. by apply append_grows in H.
  - intros n [= <-]. cbn. by rewrite !Hassoc.
  - intros n [= <-]. cbn. by rewrite !Hassoc.
Qed.

End Builders.

End ManifestFacts.
